(** * Command matching of the sudoers policy plugin

    A shallow embedding of [plugins/sudoers/match_command.c]: the argument
    matcher, the safe opener, the [cmnd_fd] hand-off, the five command
    strategies (ALL, regex, fnmatch, glob, normal), the directory matcher
    and the dispatcher [command_matches], in both build modes (inode match
    and [SUDOERS_NAME_MATCH]).

    The C code works on process-wide variables ([user_cmnd], [safe_cmnd],
    [cmnd_fd], the defaults) and on the operating system (descriptor table,
    root and working directory).  Both are gathered in one record [proc]
    that is threaded through a small state monad; [goto bad], [goto done]
    and [continue] become the branches of nested tests.  The system calls
    that the code makes are kept in a trace, so that statements such as
    "glob(3) is not called" or "the held descriptor is closed first" can be
    made.

    Everything the file gets from libc or from other translation units of
    the plugin (open, stat, glob, fnmatch, regcomp, strdup, canon_path,
    the digest engine) is a field of the record [World]: a snapshot of the
    environment that the functions consult but never change, so that a
    path names the same file throughout one call.  The functions of the
    plugin that are called but not part of the sources at hand
    ([sudo_basename], [digest_matches], [pivot_root], [unpivot_root],
    [set_cmnd_path]) are modelled from the specification and marked so.

    The file has four parts: the model, the vocabulary and the lemmas
    that the statements need, the claims about the code, each with an
    instance on a small example host, and further properties of the
    code.  The claim on [safe_cmnd] after a rejected match comes last: it
    rests on the account of the descriptors and of the file that was
    checked, which the further properties give. *)

From Stdlib Require Import ZArith Ascii String DecimalString List Bool Lia.
From stdpp Require Import base option gmap.
Import ListNotations.

Local Open Scope string_scope.
Local Open Scope Z_scope.

(** ** C strings *)

Module CStr.

(** [s[0]]: the first byte, the terminating NUL for the empty string. *)
Definition head (s : string) : ascii :=
  match s with
  | EmptyString => zero
  | String c _ => c
  end.

(** [s[strlen(s) - 1]] for a non-empty [s].  The sources only evaluate it
    on strings that start with a slash or come out of glob(3); on the
    empty string the C expression reads out of bounds, here it yields NUL. *)
Fixpoint last (s : string) : ascii :=
  match s with
  | EmptyString => zero
  | String c EmptyString => c
  | String _ rest => last rest
  end.

(** [strchr(s, c)]: offset of the first [c] in [s].  As in C the
    terminating NUL is part of the string, so looking for NUL always
    succeeds and gives [strlen(s)]. *)
Fixpoint strchr (s : string) (c : ascii) : option nat :=
  match s with
  | EmptyString => if Ascii.eqb c zero then Some 0%nat else None
  | String d rest =>
      if Ascii.eqb d c then Some 0%nat
      else option_map S (strchr rest c)
  end.

(** [strrchr(s, c)]: offset of the last [c] in [s]. *)
Fixpoint strrchr (s : string) (c : ascii) : option nat :=
  match s with
  | EmptyString => if Ascii.eqb c zero then Some 0%nat else None
  | String d rest =>
      match strrchr rest c with
      | Some i => Some (S i)
      | None => if Ascii.eqb d c then Some 0%nat else None
      end
  end.

(** [s + n]: the suffix after [n] bytes. *)
Fixpoint drop (n : nat) (s : string) : string :=
  match n, s with
  | O, _ => s
  | S _, EmptyString => EmptyString
  | S n', String _ rest => drop n' rest
  end.

(** The first [n] bytes of [s]. *)
Fixpoint take (n : nat) (s : string) : string :=
  match n, s with
  | O, _ => EmptyString
  | S _, EmptyString => EmptyString
  | S n', String c rest => String c (take n' rest)
  end.

(** [s[n]], NUL at and past the terminator. *)
Definition nth (n : nat) (s : string) : ascii := head (drop n s).

(** [strncmp(a, b, n) == 0]. *)
Definition strncmp_eq (a b : string) (n : nat) : bool :=
  String.eqb (take n a) (take n b).

(** [strpbrk(s, set) != NULL]. *)
Fixpoint strpbrk (s : string) (set : list ascii) : bool :=
  match s with
  | EmptyString => false
  | String c rest => existsb (Ascii.eqb c) set || strpbrk rest set
  end.

End CStr.

(** [has_meta] of parse.h: [strpbrk(s, "\\?*[]") != NULL]. *)
Definition has_meta (s : string) : bool :=
  CStr.strpbrk s ["\"; "?"; "*"; "["; "]"]%char.

(** Modelled from the spec: [sudo_basename] lives in lib/util, outside the
    sources at hand; the spec calls it basename extraction, the final
    component of the path: what follows the last slash, the whole string
    when there is none. *)
Definition sudo_basename (filename : string) : string :=
  match CStr.strrchr filename "/" with
  | Some i => CStr.drop (S i) filename
  | None => filename
  end.

(** The two-character sudoers token that forbids arguments. *)
Definition dquote : ascii := ascii_of_nat 34.
Definition empty_args_token : string := String dquote (String dquote EmptyString).

(** ** Data model *)

(** The values of the [fdexec] default. *)
Inductive fdexec_t := always | never | digest_only.

#[global] Instance fdexec_eq_dec : EqDecision fdexec_t.
Proof. solve_decision. Defined.

(** The fields of [struct stat] that the matchers read. *)
Record stat := { st_dev : Z; st_ino : Z; st_mode : Z }.

Definition S_ISUID : Z := 2048.  (* 04000 *)
Definition S_ISGID : Z := 1024.  (* 02000 *)

(** [ISSET(t, f)]: some bit of [f] is set in [t]. *)
Definition ISSET (t f : Z) : bool := negb (Z.land t f =? 0).

(** An entry of [struct command_digest_list]. *)
Record command_digest := { digest_type : Z; digest_str : string }.

(** The status that [set_cmnd_path] reports. *)
Inductive status_t := FOUND | NOT_FOUND | OTHER_STATUS (code : Z).

Definition is_FOUND (s : status_t) : bool :=
  match s with FOUND => true | _ => false end.

(** [struct cmnd_info] of parse.h. *)
Record cmnd_info := {
  cmnd_stat : option stat;       (* unset until the dispatcher fills it *)
  cmnd_path : option string;
  status : status_t;
  intercepted : bool
}.

(** What the process sees of the file system: its root directory and its
    working directory, both named by their path from the host's root. *)
Record view := { v_root : string; v_cwd : string }.

Inductive errno_t := EACCES | ENOENT | EIO.

Inductive oflag :=
| O_RDONLY_NONBLOCK          (* O_RDONLY|O_NONBLOCK *)
| O_EXEC                     (* O_EXEC, or O_PATH where O_EXEC is missing *)
| O_RDONLY_DIRECTORY.        (* the directory opens of pivot_root *)

(** What an open descriptor refers to. *)
Inductive fobj :=
| FileAt (v : view) (path : string)   (* [path] as opened under [v] *)
| DirAt (dir : string).               (* a directory, by its host path *)

Record fdent := { fe_obj : fobj; fe_flag : oflag; fe_cloexec : bool }.

(** System calls that change or consult the file system, in the order they
    were made. *)
Inductive event :=
| EvOpen (path : string) (fl : oflag) (res : Z)
| EvClose (fd : Z)
| EvSetfd (fd : Z) (cloexec : bool)
| EvGlob (pattern : string)
| EvChroot (path : string)
| EvChdir (path : string)
| EvFchdir (fd : Z).

(** What [set_cmnd_path] writes to the process-wide user command. *)
Record resolved := {
  r_status : status_t;
  r_cmnd : string;
  r_base : string;
  r_cmnd_dir : option string;
  r_stat : stat
}.

(** The environment of one call: libc and the other translation units of
    the plugin.  The matchers consult it, they never change it. *)
Record World := {
  (* file system, as seen from a root and a working directory *)
  w_open : view -> string -> oflag -> option errno_t;  (* [None]: success *)
  w_stat : view -> string -> option stat;
  w_content : view -> string -> option string;         (* the file's bytes *)
  w_glob : view -> string -> option (list string);     (* [None]: glob(3) != 0 *)
  w_chroot : view -> string -> option string;          (* host path of the new root *)
  (* pattern matching and allocation *)
  w_fnmatch : string -> string -> bool -> bool;        (* pattern, string, FNM_PATHNAME *)
  w_regcomp : string -> bool;                          (* [sudo_regex_compile] succeeds *)
  w_regexec : string -> string -> Z;                   (* [regexec] of the compiled pattern *)
  w_strdup : string -> bool;                           (* the copy can be allocated *)
  (* plugin collaborators *)
  w_canon_path : view -> string -> option string;
  w_filedigest : Z -> string -> option string;         (* digest type, file bytes *)
  w_digest_nofd : view -> string -> list command_digest -> bool;
  w_set_cmnd_path : view -> resolved;
  (* build configuration *)
  PATH_MAX : nat;
  have_O_EXEC : bool
}.

(** The [sudo_user] fields behind [user_cmnd], [user_base], ... *)
Record sudo_user_t := {
  user_cmnd : string;
  user_base : string;
  user_cmnd_dir : option string;
  user_stat : option stat;
  user_args : option string;
  user_runchroot : option string
}.

(** The defaults that the matchers read. *)
Record defaults_t := {
  def_fdexec : fdexec_t;
  def_fast_glob : bool;
  def_intercept_allow_setid : bool;
  def_runchroot : option string
}.

(** The part of the operating system that the matchers act on. *)
Record os_t := {
  fdtab : gmap Z fdent;
  cur : view;
  trace : list event
}.

(** The process: user command, defaults, the two published values and the
    operating system state. *)
Record proc := {
  sudo_user : sudo_user_t;
  defs : defaults_t;
  safe_cmnd : option string;
  cmnd_fd : Z;
  os : os_t
}.

Definition set_sudo_user (u : sudo_user_t) (st : proc) : proc :=
  {| sudo_user := u; defs := defs st; safe_cmnd := safe_cmnd st;
     cmnd_fd := cmnd_fd st; os := os st |}.

Definition set_safe_cmnd (s : option string) (st : proc) : proc :=
  {| sudo_user := sudo_user st; defs := defs st; safe_cmnd := s;
     cmnd_fd := cmnd_fd st; os := os st |}.

Definition set_cmnd_fd_var (fd : Z) (st : proc) : proc :=
  {| sudo_user := sudo_user st; defs := defs st; safe_cmnd := safe_cmnd st;
     cmnd_fd := fd; os := os st |}.

Definition set_os (o : os_t) (st : proc) : proc :=
  {| sudo_user := sudo_user st; defs := defs st; safe_cmnd := safe_cmnd st;
     cmnd_fd := cmnd_fd st; os := o |}.

Definition log (e : event) (o : os_t) : os_t :=
  {| fdtab := fdtab o; cur := cur o; trace := trace o ++ [e] |}.

Definition set_fdtab (t : gmap Z fdent) (o : os_t) : os_t :=
  {| fdtab := t; cur := cur o; trace := trace o |}.

Definition set_cur (v : view) (o : os_t) : os_t :=
  {| fdtab := fdtab o; cur := v; trace := trace o |}.

(** ** The state monad *)

Definition M (A : Type) : Type := proc -> A * proc.

Definition ret {A} (a : A) : M A := fun st => (a, st).

Definition bind {A B} (m : M A) (k : A -> M B) : M B :=
  fun st => let (a, st') := m st in k a st'.

Definition gets {A} (f : proc -> A) : M A := fun st => (f st, st).

Definition modify (f : proc -> proc) : M unit := fun st => (tt, f st).

Declare Scope sudo_scope.
Delimit Scope sudo_scope with sudo.
Notation "x <- m ;; k" := (bind m (fun x => k))
  (at level 100, m at next level, right associativity) : sudo_scope.
Notation "m ;;; k" := (bind m (fun _ => k))
  (at level 100, right associativity) : sudo_scope.
Local Open Scope sudo_scope.

(** The build mode: inode matching, or [SUDOERS_NAME_MATCH]. *)
Inductive match_mode := InodeMatch | NameMatch.

(** ** System calls *)

(** open(2) returns the lowest descriptor that is not open. *)
Fixpoint lowest_free (t : gmap Z fdent) (fuel : nat) (k : Z) : Z :=
  match fuel with
  | O => k
  | S fuel' =>
      match t !! k with
      | Some _ => lowest_free t fuel' (k + 1)
      | None => k
      end
  end.

Definition fresh_fd (t : gmap Z fdent) : Z := lowest_free t (size t) 0.

Section Syscalls.

Variable W : World.

(** A successful open: the lowest free descriptor now refers to [obj],
    with close-on-exec clear. *)
Definition install (obj : fobj) (path : string) (fl : oflag) : M (Z + errno_t) :=
  fun st =>
    let o := os st in
    let fd := fresh_fd (fdtab o) in
    let e := {| fe_obj := obj; fe_flag := fl; fe_cloexec := false |} in
    (inl fd, set_os (log (EvOpen path fl fd) (set_fdtab (<[fd := e]> (fdtab o)) o)) st).

(** [open(path, fl)] of a file. *)
Definition sys_open (path : string) (fl : oflag) : M (Z + errno_t) :=
  fun st =>
    let o := os st in
    match w_open W (cur o) path fl with
    | None => install (FileAt (cur o) path) path fl st
    | Some e => (inr e, set_os (log (EvOpen path fl (-1)) o) st)
    end.

(** [close(fd)]; closing a descriptor that is not open changes nothing. *)
Definition sys_close (fd : Z) : M unit :=
  modify (fun st =>
    let o := os st in
    set_os (log (EvClose fd) (set_fdtab (delete fd (fdtab o)) o)) st).

(** [fcntl(fd, F_SETFD, ...)]: the close-on-exec flag is the only
    descriptor flag. *)
Definition sys_setfd (fd : Z) (cloexec : bool) : M unit :=
  modify (fun st =>
    let o := os st in
    let upd e := {| fe_obj := fe_obj e; fe_flag := fe_flag e; fe_cloexec := cloexec |} in
    set_os (log (EvSetfd fd cloexec) (set_fdtab (alter upd fd (fdtab o)) o)) st).

(** [stat(path, &sb)]. *)
Definition sys_stat (path : string) (st : proc) : option stat :=
  w_stat W (cur (os st)) path.

(** [fstat(fd, &sb)]. *)
Definition sys_fstat (fd : Z) (st : proc) : option stat :=
  match fdtab (os st) !! fd with
  | Some e =>
      match fe_obj e with
      | FileAt v path => w_stat W v path
      | DirAt d => w_stat W {| v_root := v_root (cur (os st)); v_cwd := d |} "."
      end
  | None => None
  end.

(** [fstatat(dirfd, path, &sb, 0)] with a relative [path]. *)
Definition sys_fstatat (dirfd : Z) (path : string) (st : proc) : option stat :=
  match fdtab (os st) !! dirfd with
  | Some e =>
      match fe_obj e with
      | DirAt d => w_stat W {| v_root := v_root (cur (os st)); v_cwd := d |} path
      | FileAt _ _ => None
      end
  | None => None
  end.

(** The bytes behind a descriptor; an execute-only descriptor cannot be
    read. *)
Definition fd_bytes (fd : Z) (st : proc) : option string :=
  match fdtab (os st) !! fd with
  | Some e =>
      match fe_obj e, fe_flag e with
      | FileAt v path, O_RDONLY_NONBLOCK => w_content W v path
      | _, _ => None
      end
  | None => None
  end.

(** [pread(fd, magic, 2, 0)] when it returns 2. *)
Definition sys_pread2 (fd : Z) (st : proc) : option (ascii * ascii) :=
  match fd_bytes fd st with
  | Some (String a (String b _)) => Some (a, b)
  | _ => None
  end.

(** [glob(pattern, GLOB_NOSORT, NULL, &gl)]. *)
Definition sys_glob (pattern : string) : M (option (list string)) :=
  fun st =>
    (w_glob W (cur (os st)) pattern, set_os (log (EvGlob pattern) (os st)) st).

(** [canon_path(dir)]. *)
Definition canon_path (dir : string) (st : proc) : option string :=
  w_canon_path W (cur (os st)) dir.

(** Modelled from the spec: the comparison inside [digest_matches], which
    recomputes the digest of the file's bytes for each listed (algorithm,
    expected bytes) pair and succeeds if any listed pair matches.  Bytes
    that cannot be read match nothing. *)
Definition bytes_match (bytes : option string) (digests : list command_digest) : bool :=
  match bytes with
  | Some bytes =>
      existsb (fun d =>
        match w_filedigest W (digest_type d) bytes with
        | Some h => String.eqb h (digest_str d)
        | None => false
        end) digests
  | None => false
  end.

(** Modelled from the spec: [digest_matches] is in match_digest.c, outside
    the sources at hand.  The spec: given an open descriptor and a list of
    (algorithm, expected bytes) pairs, it recomputes each and succeeds if
    any listed pair matches, or if the list is empty.  What it does without
    a descriptor when the list is not empty is left to the environment. *)
Definition digest_matches (fd : Z) (path : string)
    (digests : list command_digest) (st : proc) : bool :=
  match digests with
  | [] => true
  | _ :: _ =>
      if fd =? -1 then w_digest_nofd W (cur (os st)) path digests
      else bytes_match (fd_bytes fd st) digests
  end.

End Syscalls.

(** [TAILQ_EMPTY(digests)]. *)
Definition TAILQ_EMPTY {A} (l : list A) : bool :=
  match l with [] => true | _ :: _ => false end.

(** [printf("%d", n)]. *)
Definition decimal (n : Z) : string :=
  DecimalString.NilZero.string_of_int (Z.to_int n).

(** ** match_command.c *)

Section Match.

Variable W : World.
Variable mode : match_mode.

Definition regex_matches (pattern str : string) : bool :=
  if negb (w_regcomp W pattern) then false
  else w_regexec W pattern str =? 0.

Definition command_args_match (sudoers_cmnd : string)
    (sudoers_args : option string) (st : proc) : bool :=
  let args := match user_args (sudo_user st) with Some a => a | None => "" end in
  match sudoers_args with
  | None => true
  | Some sa =>
      if String.eqb empty_args_token sa then
        match user_args (sudo_user st) with Some _ => false | None => true end
      else if Ascii.eqb (CStr.head sa) "^"
              && ((0 <? String.length sa)%nat && Ascii.eqb (CStr.last sa) "$")
      then regex_matches sa args
      else
        (* If running as sudoedit, all args are assumed to be paths. *)
        let flags := String.eqb sudoers_cmnd "sudoedit" in
        w_fnmatch W sa args flags
  end.

(** Stat file by fd if possible, else by path. *)
Definition do_stat (fd : Z) (path : string) (st : proc) : option stat :=
  if negb (fd =? -1) then sys_fstat W fd st else sys_stat W path st.

(** Perform intercept-specific checks. *)
Definition intercept_ok (path : string) (intercepted : bool) (sb : stat)
    (st : proc) : bool :=
  if intercepted then
    if negb (def_intercept_allow_setid (defs st))
       && ISSET (st_mode sb) (Z.lor S_ISUID S_ISGID)
    then false else true
  else true.

(** Check whether the fd refers to a shell script with a shebang. *)
Definition is_script (fd : Z) (st : proc) : bool :=
  match sys_pread2 W fd st with
  | Some (m0, m1) => Ascii.eqb m0 "#" && Ascii.eqb m1 "!"
  | None => false
  end.

(** Open path if fdexec is enabled or if a digest is present.  The second
    component is [*fdp] after the call. *)
Definition open_cmnd (path : string) (digests : list command_digest)
    (fd0 : Z) : M (bool * Z) :=
  fdexec <- gets (fun st => def_fdexec (defs st)) ;;
  if negb (bool_decide (fdexec = always)) && TAILQ_EMPTY digests then
    ret (true, fd0)
  else
    r <- sys_open W path O_RDONLY_NONBLOCK ;;
    r <- match r with
         | inr EACCES =>
             if have_O_EXEC W && TAILQ_EMPTY digests then
               (* Try again with O_EXEC if no digest is specified. *)
               r2 <- sys_open W path O_EXEC ;;
               ret (match r2 with inl fd => inl fd | inr _ => inr EACCES end)
             else ret r
         | _ => ret r
         end ;;
    match r with
    | inr _ => ret (false, fd0)
    | inl fd => sys_setfd fd true ;;; ret (true, fd)
    end.

(** [if (fd != -1) close(fd)]. *)
Definition close_fd (fd : Z) : M unit :=
  if negb (fd =? -1) then sys_close fd else ret tt.

(** The [bad:] label: close what was opened, return false. *)
Definition bad (fd : Z) : M bool := close_fd fd ;;; ret false.

(** The probe for [/dev/fd/N]: relative to the old root directory when the
    root was pivoted, absolute otherwise. *)
Definition dev_fd_stat (fd rootfd : Z) (st : proc) : option stat :=
  if negb (rootfd =? -1) then
    sys_fstatat W rootfd ("dev/fd/" ++ decimal fd) st
  else
    sys_stat W ("/dev/fd/" ++ decimal fd) st.

Definition set_cmnd_fd (fd rootfd : Z) : M unit :=
  held <- gets cmnd_fd ;;
  close_fd held ;;;
  fd <- (if negb (fd =? -1) then
           fdexec <- gets (fun st => def_fdexec (defs st)) ;;
           if bool_decide (fdexec = never) then
             (* Never use fexecve() *)
             sys_close fd ;;; ret (-1)
           else
             script <- gets (is_script fd) ;;
             if script then
               (* We can only use fexecve() on a script if /dev/fd/N exists. *)
               sb <- gets (dev_fd_stat fd rootfd) ;;
               match sb with
               | None =>
                   (* Missing /dev/fd file, can't use fexecve(). *)
                   sys_close fd ;;; ret (-1)
               | Some _ =>
                   (* Shell scripts go through namei twice so we can't have
                      the close on exec flag set on the fd for fexecve(2). *)
                   sys_setfd fd false ;;; ret fd
               end
             else ret fd
         else ret fd) ;;
  modify (set_cmnd_fd_var fd).

(** [free(safe_cmnd); safe_cmnd = strdup(path)]; true when the copy was
    allocated. *)
Definition safe_cmnd_strdup (path : string) : M bool :=
  fun st =>
    if w_strdup W path then (true, set_safe_cmnd (Some path) st)
    else (false, set_safe_cmnd None st).

(** [user_stat == NULL || (same st_dev && same st_ino)]. *)
Definition same_inode (ustat : option stat) (sb : stat) : bool :=
  match ustat with
  | None => true
  | Some us => (st_dev us =? st_dev sb) && (st_ino us =? st_ino sb)
  end.

(** The canonicalized directory [dir] agrees with [user_cmnd_dir], as far
    as both are known. *)
Definition canon_dir_ok (dir : string) (st : proc) : bool :=
  match user_cmnd_dir (sudo_user st) with
  | Some ucd =>
      match canon_path W dir st with
      | Some resolved => String.eqb resolved ucd
      | None => true
      end
  | None => true
  end.

(** *** The directory matcher *)

(** Return true if user_cmnd names one of the inodes in dir, else false
    (inode build). *)
Definition command_matches_dir_inode (sudoers_dir : string) (dlen : nat)
    (rootfd : Z) (intercepted : bool) (digests : list command_digest) : M bool :=
  (* Compare the canonicalized directories, if possible. *)
  dir_ok <- gets (canon_dir_ok sudoers_dir) ;;
  if negb dir_ok then ret false
  else
    (* Check for command in sudoers_dir. *)
    base <- gets (fun st => user_base (sudo_user st)) ;;
    let path := sudoers_dir ++ "/" ++ base in
    if (PATH_MAX W <=? String.length path)%nat then ret false
    else
      r <- open_cmnd path digests (-1) ;;
      let (ok, fd) := r in
      res <- (if negb ok then ret false
              else
                sb <- gets (do_stat fd path) ;;
                match sb with
                | None => ret false
                | Some sudoers_stat =>
                    iok <- gets (intercept_ok path intercepted sudoers_stat) ;;
                    if negb iok then ret false
                    else
                      ustat <- gets (fun st => user_stat (sudo_user st)) ;;
                      if same_inode ustat sudoers_stat then
                        dm <- gets (digest_matches W fd path digests) ;;
                        if negb dm then ret false
                        else
                          (* the warning is all that a failed copy causes *)
                          safe_cmnd_strdup path ;;; ret true
                      else ret false
                end) ;;
      close_fd fd ;;; ret res.

(** The same under [SUDOERS_NAME_MATCH]. *)
Definition command_matches_dir_name (sudoers_dir : string) (dlen : nat)
    (rootfd : Z) (intercepted : bool) (digests : list command_digest) : M bool :=
  ucmnd <- gets (fun st => user_cmnd (sudo_user st)) ;;
  (* Match user_cmnd against sudoers_dir. *)
  if negb (CStr.strncmp_eq ucmnd sudoers_dir dlen)
     || negb (Ascii.eqb (CStr.nth dlen ucmnd) "/")
  then bad (-1)
  else
    (* Make sure user_cmnd is not in a subdir of sudoers_dir. *)
    match CStr.strchr (CStr.drop (dlen + 1) ucmnd) zero with
    | Some _ => bad (-1)
    | None =>
        r <- open_cmnd ucmnd digests (-1) ;;
        let (ok, fd) := r in
        if negb ok then bad fd
        else
          dm <- gets (digest_matches W fd ucmnd digests) ;;
          if negb dm then bad fd
          else set_cmnd_fd fd rootfd ;;; ret true
    end.

Definition command_matches_dir :=
  match mode with
  | InodeMatch => command_matches_dir_inode
  | NameMatch => command_matches_dir_name
  end.

(** *** ALL *)

Definition command_matches_all (rootfd : Z) (intercepted : bool)
    (digests : list command_digest) : M bool :=
  ucmnd <- gets (fun st => user_cmnd (sudo_user st)) ;;
  r <- match CStr.strchr ucmnd "/" with
       | Some _ =>
           match mode with
           | InodeMatch =>
               r <- open_cmnd ucmnd digests (-1) ;;
               let (ok, fd) := r in
               let open_error := negb ok in
               (* A non-existent file is not an error for "sudo ALL". *)
               sb <- gets (do_stat fd ucmnd) ;;
               match sb with
               | Some sb =>
                   if open_error then
                     (* File exists but we couldn't open it above? *)
                     ret (false, fd)
                   else
                     iok <- gets (intercept_ok ucmnd intercepted sb) ;;
                     ret (iok, fd)
               | None => ret (true, fd)
               end
           | NameMatch =>
               r <- open_cmnd ucmnd digests (-1) ;;
               ret (true, snd r)
           end
       | None => ret (true, -1)
       end ;;
  let (go_on, fd) := r in
  if negb go_on then bad fd
  else
    (* Check digest of user_cmnd since we have no sudoers_cmnd for ALL. *)
    dm <- gets (digest_matches W fd ucmnd digests) ;;
    if negb dm then bad fd
    else
      (* No need to set safe_cmnd for ALL. *)
      set_cmnd_fd fd rootfd ;;; ret true.

(** *** fnmatch and regex *)

(** A relative user_cmnd will not match, try the canonicalized version:
    [None] is the early [return false]. *)
Definition qualified_cmnd (st : proc) : option string :=
  let u := sudo_user st in
  if negb (Ascii.eqb (CStr.head (user_cmnd u)) "/") then
    match user_cmnd_dir u with
    | None => None
    | Some dir =>
        let buf := dir ++ "/" ++ user_base u in
        if (PATH_MAX W <=? String.length buf)%nat then None else Some buf
    end
  else Some (user_cmnd u).

(** What both pattern strategies do once the pattern matched [cmnd]. *)
Definition pattern_matched (sudoers_cmnd : string) (sudoers_args : option string)
    (cmnd : string) (rootfd : Z) (intercepted : bool)
    (digests : list command_digest) : M bool :=
  am <- gets (command_args_match sudoers_cmnd sudoers_args) ;;
  if am then
    (* Open the file for fdexec or for digest matching. *)
    r <- open_cmnd cmnd digests (-1) ;;
    let (ok, fd) := r in
    if negb ok then bad fd
    else
      sok <- match mode with
             | InodeMatch =>
                 sb <- gets (do_stat fd cmnd) ;;
                 match sb with
                 | None => ret false
                 | Some sb => gets (intercept_ok cmnd intercepted sb)
                 end
             | NameMatch => ret true
             end ;;
      if negb sok then bad fd
      else
        (* Check digest of cmnd since sudoers_cmnd is a pattern. *)
        dm <- gets (digest_matches W fd cmnd digests) ;;
        if negb dm then bad fd
        else
          (* No need to set safe_cmnd since cmnd matches sudoers_cmnd *)
          set_cmnd_fd fd rootfd ;;; ret true
  else ret false.

Definition command_matches_fnmatch (sudoers_cmnd : string)
    (sudoers_args : option string) (rootfd : Z) (intercepted : bool)
    (digests : list command_digest) : M bool :=
  c <- gets qualified_cmnd ;;
  match c with
  | None => ret false
  | Some cmnd =>
      if negb (w_fnmatch W sudoers_cmnd cmnd true) then ret false
      else pattern_matched sudoers_cmnd sudoers_args cmnd rootfd intercepted digests
  end.

Definition command_matches_regex (sudoers_cmnd : string)
    (sudoers_args : option string) (rootfd : Z) (intercepted : bool)
    (digests : list command_digest) : M bool :=
  c <- gets qualified_cmnd ;;
  match c with
  | None => ret false
  | Some cmnd =>
      if negb (regex_matches sudoers_cmnd cmnd) then ret false
      else pattern_matched sudoers_cmnd sudoers_args cmnd rootfd intercepted digests
  end.

(** *** glob (inode build) *)

(** How a pass over the glob(3) results ends. *)
Inductive glob_pass :=
| GlobDone (cp : option string) (fd : Z)   (* [goto done], [cp] maybe NULL *)
| GlobReturn (b : bool)                    (* [return] from inside the loop *)
| GlobEnd (fd : Z) (bad_digest : bool).    (* the loop ran out: [cp == NULL] *)

(** If user_cmnd is fully-qualified, check for an exact match. *)
Fixpoint glob_exact (pathv : list string) (fd : Z) (bad_digest : bool)
    (intercepted : bool) (digests : list command_digest) : M glob_pass :=
  match pathv with
  | [] => ret (GlobEnd fd bad_digest)
  | cp :: ap =>
      close_fd fd ;;;
      let fd := -1 in
      ucmnd <- gets (fun st => user_cmnd (sudo_user st)) ;;
      if negb (String.eqb cp ucmnd) then
        glob_exact ap fd bad_digest intercepted digests
      else
        (* Open the file for fdexec or for digest matching. *)
        r <- open_cmnd cp digests fd ;;
        let (ok, fd) := r in
        if negb ok then glob_exact ap fd bad_digest intercepted digests
        else
          sb <- gets (do_stat fd cp) ;;
          match sb with
          | None => glob_exact ap fd bad_digest intercepted digests
          | Some sudoers_stat =>
              iok <- gets (intercept_ok cp intercepted sudoers_stat) ;;
              if negb iok then glob_exact ap fd bad_digest intercepted digests
              else
                ustat <- gets (fun st => user_stat (sudo_user st)) ;;
                if same_inode ustat sudoers_stat then
                  (* There could be multiple matches, check digest early. *)
                  dm <- gets (digest_matches W fd cp digests) ;;
                  if negb dm then glob_exact ap fd true intercepted digests
                  else
                    copied <- safe_cmnd_strdup cp ;;
                    (* fail closed when the copy could not be allocated *)
                    ret (GlobDone (if copied then Some cp else None) fd)
                else
                  (* Paths match, but st_dev and st_ino are different. *)
                  ret (GlobDone None fd)
          end
  end.

(** No exact match, compare basename, user_cmnd_dir, st_dev and st_ino. *)
Fixpoint glob_base (pathv : list string) (fd : Z) (rootfd : Z)
    (intercepted : bool) (digests : list command_digest) : M glob_pass :=
  match pathv with
  | [] => ret (GlobEnd fd false)
  | cp :: ap =>
      close_fd fd ;;;
      let fd := -1 in
      (* If it ends in '/' it is a directory spec. *)
      if Ascii.eqb (CStr.last cp) "/" then
        m <- command_matches_dir_inode cp (String.length cp) rootfd
               intercepted digests ;;
        if m then ret (GlobReturn true)
        else glob_base ap fd rootfd intercepted digests
      else
        (* Only proceed if user_base and basename(cp) match *)
        ubase <- gets (fun st => user_base (sudo_user st)) ;;
        if negb (String.eqb ubase (sudo_basename cp)) then
          glob_base ap fd rootfd intercepted digests
        else
          (* Compare the canonicalized parent directories, if possible;
             the directory is cut at the first slash of cp. *)
          dir_ok <- gets (fun st =>
                      match CStr.strchr cp "/" with
                      | Some i => canon_dir_ok (CStr.take i cp) st
                      | None => true
                      end) ;;
          if negb dir_ok then glob_base ap fd rootfd intercepted digests
          else
            r <- open_cmnd cp digests fd ;;
            let (ok, fd) := r in
            if negb ok then glob_base ap fd rootfd intercepted digests
            else
              sb <- gets (do_stat fd cp) ;;
              match sb with
              | None => glob_base ap fd rootfd intercepted digests
              | Some sudoers_stat =>
                  iok <- gets (intercept_ok cp intercepted sudoers_stat) ;;
                  if negb iok then glob_base ap fd rootfd intercepted digests
                  else
                    ustat <- gets (fun st => user_stat (sudo_user st)) ;;
                    if same_inode ustat sudoers_stat then
                      dm <- gets (digest_matches W fd cp digests) ;;
                      if negb dm then glob_base ap fd rootfd intercepted digests
                      else
                        copied <- safe_cmnd_strdup cp ;;
                        ret (GlobDone (if copied then Some cp else None) fd)
                    else glob_base ap fd rootfd intercepted digests
              end
  end.

(** First check to see if we can avoid the call to glob(3).  Short circuit
    if there are no meta chars in the command itself and user_base and
    basename(sudoers_cmnd) don't match. *)
Definition glob_avoided (sudoers_cmnd : string) (st : proc) : bool :=
  let base := sudo_basename sudoers_cmnd in
  negb (Ascii.eqb (CStr.last sudoers_cmnd) "/")
  && (negb (has_meta base) && negb (String.eqb (user_base (sudo_user st)) base)).

Definition command_matches_glob_inode (sudoers_cmnd : string)
    (sudoers_args : option string) (rootfd : Z) (intercepted : bool)
    (digests : list command_digest) : M bool :=
  avoided <- gets (glob_avoided sudoers_cmnd) ;;
  if avoided then ret false
  else
    gl <- sys_glob W sudoers_cmnd ;;
    match gl with
    | None | Some [] => ret false
    | Some pathv =>
        ucmnd <- gets (fun st => user_cmnd (sudo_user st)) ;;
        p1 <- (if Ascii.eqb (CStr.head ucmnd) "/" then
                 glob_exact pathv (-1) false intercepted digests
               else ret (GlobEnd (-1) false)) ;;
        p2 <- match p1 with
              | GlobEnd fd false => glob_base pathv fd rootfd intercepted digests
              | _ => ret p1
              end ;;
        match p2 with
        | GlobReturn b => ret b
        | GlobDone (Some _) fd =>
            am <- gets (command_args_match sudoers_cmnd sudoers_args) ;;
            if am then
              (* safe_cmnd was set above. *)
              set_cmnd_fd fd rootfd ;;; ret true
            else bad fd
        | GlobDone None fd => bad fd
        | GlobEnd fd _ => bad fd
        end
    end.

(** Under [SUDOERS_NAME_MATCH] glob is fnmatch. *)
Definition command_matches_glob :=
  match mode with
  | InodeMatch => command_matches_glob_inode
  | NameMatch => command_matches_fnmatch
  end.

(** *** normal *)

Definition command_matches_normal_inode (sudoers_cmnd : string)
    (sudoers_args : option string) (rootfd : Z) (intercepted : bool)
    (digests : list command_digest) : M bool :=
  (* If it ends in '/' it is a directory spec. *)
  if Ascii.eqb (CStr.last sudoers_cmnd) "/" then
    command_matches_dir_inode sudoers_cmnd (String.length sudoers_cmnd)
      rootfd intercepted digests
  else
    (* Only proceed if user_base and basename(sudoers_cmnd) match *)
    u <- gets sudo_user ;;
    if negb (String.eqb (user_base u) (sudo_basename sudoers_cmnd)) then ret false
    else
      (* Compare the canonicalized parent directories, if possible. *)
      dir_ok <- gets (fun st =>
                  match CStr.strrchr sudoers_cmnd "/" with
                  | Some len =>
                      match user_cmnd_dir u with
                      | Some _ =>
                          if (PATH_MAX W <=? len)%nat then false
                          else canon_dir_ok (CStr.take len sudoers_cmnd) st
                      | None => true
                      end
                  | None => true
                  end) ;;
      if negb dir_ok then bad (-1)
      else
        (* Open the file for fdexec or for digest matching. *)
        r <- open_cmnd sudoers_cmnd digests (-1) ;;
        let (ok, fd) := r in
        if negb ok then bad fd
        else
          sb <- gets (fun st =>
                  match user_stat u with
                  | Some us =>
                      match do_stat fd sudoers_cmnd st with
                      | Some ss => Some (us, ss)
                      | None => None
                      end
                  | None => None
                  end) ;;
          same <- match sb with
                  | Some (us, sudoers_stat) =>
                      iok <- gets (intercept_ok sudoers_cmnd intercepted sudoers_stat) ;;
                      if negb iok then ret false
                      else ret ((st_dev us =? st_dev sudoers_stat)
                                && (st_ino us =? st_ino sudoers_stat))
                  | None =>
                      (* Either user or sudoers command does not exist,
                         match by name. *)
                      ret (String.eqb (user_cmnd u) sudoers_cmnd)
                  end ;;
          if negb same then bad fd
          else
            am <- gets (command_args_match sudoers_cmnd sudoers_args) ;;
            if negb am then bad fd
            else
              dm <- gets (digest_matches W fd sudoers_cmnd digests) ;;
              if negb dm then bad fd
              else
                copied <- safe_cmnd_strdup sudoers_cmnd ;;
                if negb copied then bad fd
                else set_cmnd_fd fd rootfd ;;; ret true.

Definition command_matches_normal_name (sudoers_cmnd : string)
    (sudoers_args : option string) (rootfd : Z) (intercepted : bool)
    (digests : list command_digest) : M bool :=
  (* If it ends in '/' it is a directory spec. *)
  if Ascii.eqb (CStr.last sudoers_cmnd) "/" then
    command_matches_dir_name sudoers_cmnd (String.length sudoers_cmnd)
      rootfd intercepted digests
  else
    ucmnd <- gets (fun st => user_cmnd (sudo_user st)) ;;
    if String.eqb ucmnd sudoers_cmnd then
      am <- gets (command_args_match sudoers_cmnd sudoers_args) ;;
      if am then
        (* Open the file for fdexec or for digest matching. *)
        r <- open_cmnd ucmnd digests (-1) ;;
        let (ok, fd) := r in
        if negb ok then bad fd
        else
          dm <- gets (digest_matches W fd ucmnd digests) ;;
          if negb dm then bad fd
          else
            (* Successful match. *)
            copied <- safe_cmnd_strdup sudoers_cmnd ;;
            if negb copied then bad fd
            else set_cmnd_fd fd rootfd ;;; ret true
      else bad (-1)
    else bad (-1).

Definition command_matches_normal :=
  match mode with
  | InodeMatch => command_matches_normal_inode
  | NameMatch => command_matches_normal_name
  end.

(** *** Root pivot and user command resolution *)

Definition sys_open_dir (path : string) (dir : view -> string) : M (Z + errno_t) :=
  fun st =>
    let o := os st in
    match w_open W (cur o) path O_RDONLY_DIRECTORY with
    | None => install (DirAt (dir (cur o))) path O_RDONLY_DIRECTORY st
    | Some e => (inr e, set_os (log (EvOpen path O_RDONLY_DIRECTORY (-1)) o) st)
    end.

(** [chroot(path)]; the working directory stays where it is. *)
Definition sys_chroot (path : string) : M bool :=
  fun st =>
    let o := os st in
    match w_chroot W (cur o) path with
    | Some d =>
        (true, set_os (log (EvChroot path)
                 (set_cur {| v_root := d; v_cwd := v_cwd (cur o) |} o)) st)
    | None => (false, st)
    end.

(** [chdir("/")]. *)
Definition sys_chdir_root : M unit :=
  modify (fun st =>
    let o := os st in
    set_os (log (EvChdir "/")
      (set_cur {| v_root := v_root (cur o); v_cwd := v_root (cur o) |} o)) st).

(** [fchdir(fd)], then [chroot(".")] when [and_chroot]. *)
Definition sys_fchdir (fd : Z) (and_chroot : bool) : M unit :=
  fun st =>
    let o := os st in
    match fe_obj <$> fdtab o !! fd with
    | Some (DirAt d) =>
        let v := {| v_root := if and_chroot then d else v_root (cur o); v_cwd := d |} in
        let o := log (EvFchdir fd) (set_cur v o) in
        (tt, set_os (if and_chroot then log (EvChroot ".") o else o) st)
    | _ => (tt, st)
    end.

(** Modelled from the spec: pivot.c is outside the sources at hand.  The
    spec: [pivot_root(new_root)] captures two descriptors, one for the
    current root and one for the current working directory, by opening
    [/] and [.] with directory semantics, then changes root to [new_root]
    and its working directory to [/].  On any failure inside
    [pivot_root], no state is changed and the descriptors are closed. *)
Definition pivot_root (new_root : string) : M (bool * (Z * Z)) :=
  r0 <- sys_open_dir "/" v_root ;;
  match r0 with
  | inr _ => ret (false, (-1, -1))
  | inl old_root =>
      r1 <- sys_open_dir "." v_cwd ;;
      match r1 with
      | inr _ => sys_close old_root ;;; ret (false, (-1, -1))
      | inl old_cwd =>
          ok <- sys_chroot new_root ;;
          if ok then sys_chdir_root ;;; ret (true, (old_root, old_cwd))
          else sys_close old_root ;;; sys_close old_cwd ;;; ret (false, (-1, -1))
      end
  end.

(** Modelled from the spec: [unpivot_root] restores working directory and
    root from the saved descriptors and closes them.  Without saved
    descriptors there is nothing to restore. *)
Definition unpivot_root (fds : Z * Z) : M unit :=
  let (old_root, old_cwd) := fds in
  (if negb (old_root =? -1) then
     sys_fchdir old_root true ;;; sys_close old_root
   else ret tt) ;;;
  (if negb (old_cwd =? -1) then
     sys_fchdir old_cwd false ;;; sys_close old_cwd
   else ret tt).

(** Modelled from the spec: [set_cmnd_path] is in sudoers.c, outside the
    sources at hand.  The spec: it locates the user command on PATH,
    returns FOUND, NOT_FOUND or another status, and updates the
    process-wide user_cmnd, user_base, user_cmnd_dir and user_stat.  The
    stat is written through the [user_stat] pointer, when there is one. *)
Definition set_cmnd_path : M status_t :=
  fun st =>
    let r := w_set_cmnd_path W (cur (os st)) in
    let u := sudo_user st in
    (r_status r,
     set_sudo_user
       {| user_cmnd := r_cmnd r; user_base := r_base r;
          user_cmnd_dir := r_cmnd_dir r;
          user_stat := match user_stat u with
                       | Some _ => Some (r_stat r)
                       | None => None
                       end;
          user_args := user_args u;
          user_runchroot := user_runchroot u |} st).

(** *** The dispatcher *)

(** The chroot to pivot into and [reset_cmnd]; [None] on CHROOT mismatch. *)
Definition reconcile_chroot (runchroot : option string) (st : proc)
    : option (option string * bool) :=
  match user_runchroot (sudo_user st) with
  | Some urc =>
      match runchroot with
      | Some rc =>
          if negb (String.eqb rc "*") && negb (String.eqb rc urc) then
            (* CHROOT mismatch *)
            None
          else Some (Some urc, false)
      | None => Some (Some urc, false)
      end
  | None =>
      match runchroot with
      | None =>
          (* No rule-specific runchroot, use global. *)
          match def_runchroot (defs st) with
          | Some d => if negb (String.eqb d "*") then Some (Some d, false)
                      else Some (None, false)
          | None => Some (None, false)
          end
      | Some rc =>
          (* Rule-specific runchroot, must reset user_cmnd and user_stat. *)
          Some (Some rc, true)
      end
  end.

Definition set_user_cmnd_stat (c : string) (s : option stat) (st : proc) : proc :=
  let u := sudo_user st in
  set_sudo_user
    {| user_cmnd := c; user_base := user_base u;
       user_cmnd_dir := user_cmnd_dir u; user_stat := s;
       user_args := user_args u; user_runchroot := user_runchroot u |} st.

(** The [done:] label: restore root, then user_cmnd and user_stat. *)
Definition cm_done (runchroot : option string) (pivot_fds : Z * Z)
    (saved : option (string * option stat)) (info : option cmnd_info)
    (rc : bool) : M (bool * option cmnd_info) :=
  (* Restore root. *)
  (match runchroot with
   | Some _ => unpivot_root pivot_fds
   | None => ret tt
   end) ;;;
  (* Restore user_cmnd and user_stat. *)
  match saved with
  | Some (saved_user_cmnd, saved_user_stat) =>
      u <- gets sudo_user ;;
      let info :=
        match info with
        | Some i =>
            Some {| cmnd_stat := match user_stat u with
                                 | Some s => Some s
                                 | None => cmnd_stat i
                                 end;
                    cmnd_path := Some (user_cmnd u);
                    status := status i; intercepted := intercepted i |}
        | None => None
        end in
      modify (set_user_cmnd_stat saved_user_cmnd
                (match user_stat u with
                 | Some _ => saved_user_stat
                 | None => None
                 end)) ;;;
      ret (rc, info)
  | None => ret (rc, info)
  end.

(** The strategy selection, between the pivot and [done:]. *)
Definition cm_dispatch (sudoers_cmnd sudoers_args : option string)
    (rootfd : Z) (is_intercepted : bool) (digests : list command_digest) : M bool :=
  match sudoers_cmnd with
  | None => command_matches_all rootfd is_intercepted digests
  | Some sudoers_cmnd =>
      (* Check for regular expressions first. *)
      if Ascii.eqb (CStr.head sudoers_cmnd) "^" then
        command_matches_regex sudoers_cmnd sudoers_args rootfd is_intercepted digests
      (* Check for pseudo-commands *)
      else if negb (Ascii.eqb (CStr.head sudoers_cmnd) "/") then
        if String.eqb sudoers_cmnd "list" || String.eqb sudoers_cmnd "sudoedit" then
          ucmnd <- gets (fun st => user_cmnd (sudo_user st)) ;;
          am <- gets (command_args_match sudoers_cmnd sudoers_args) ;;
          (* No need to set safe_cmnd since user_cmnd == sudoers_cmnd *)
          ret (String.eqb ucmnd sudoers_cmnd && am)
        else ret false
      else if has_meta sudoers_cmnd then
        (* If sudoers_cmnd has meta characters in it, we need to use
           glob(3) and/or fnmatch(3) to do the matching. *)
        fast <- gets (fun st => def_fast_glob (defs st)) ;;
        if fast then
          command_matches_fnmatch sudoers_cmnd sudoers_args rootfd is_intercepted digests
        else
          command_matches_glob sudoers_cmnd sudoers_args rootfd is_intercepted digests
      else
        command_matches_normal sudoers_cmnd sudoers_args rootfd is_intercepted digests
  end.

(** The local variables of [command_matches] once the strategy is about
    to be selected. *)
Record cm_locals := {
  l_runchroot : option string;
  l_pivot_fds : Z * Z;
  l_saved : option (string * option stat);   (* saved_user_cmnd, saved_user_stat *)
  l_info : option cmnd_info
}.

(** From the entry of [command_matches] to the strategy selection: chroot
    reconciliation, pivot, and the reset of the user command.  The flag
    is false when the code jumps to [done:] instead. *)
Definition cm_enter (runchroot : option string) (info : option cmnd_info)
    : M (bool * cm_locals) :=
  rec <- gets (reconcile_chroot runchroot) ;;
  match rec with
  | None =>
      ret (false, {| l_runchroot := runchroot; l_pivot_fds := (-1, -1);
                     l_saved := None; l_info := info |})
  | Some (runchroot, reset_cmnd) =>
      (* Pivot root. *)
      pv <- match runchroot with
            | Some new_root => pivot_root new_root
            | None => ret (true, (-1, -1))
            end ;;
      let (pivoted, pivot_fds) := pv in
      if negb pivoted then
        ret (false, {| l_runchroot := runchroot; l_pivot_fds := pivot_fds;
                       l_saved := None; l_info := info |})
      else if reset_cmnd then
        (* Rule-specific runchroot, set user_cmnd and user_stat after
           pivot. *)
        u <- gets sudo_user ;;
        status <- set_cmnd_path ;;
        ret (true,
             {| l_runchroot := runchroot; l_pivot_fds := pivot_fds;
                l_saved := if is_FOUND status
                           then Some (user_cmnd u, user_stat u) else None;
                l_info := match info with
                          | Some i =>
                              Some {| cmnd_stat := cmnd_stat i;
                                      cmnd_path := cmnd_path i;
                                      status := status;
                                      intercepted := intercepted i |}
                          | None => None
                          end |})
      else
        ret (true, {| l_runchroot := runchroot; l_pivot_fds := pivot_fds;
                      l_saved := None; l_info := info |})
  end.

(** [command_matches]: the verdict and the caller's [info] after the call. *)
Definition command_matches (sudoers_cmnd sudoers_args runchroot : option string)
    (info : option cmnd_info) (digests : list command_digest)
    : M (bool * option cmnd_info) :=
  let is_intercepted :=
    match info with Some i => intercepted i | None => false end in
  e <- cm_enter runchroot info ;;
  let (entered, l) := e in
  rc <- (if entered then
           cm_dispatch sudoers_cmnd sudoers_args (fst (l_pivot_fds l))
             is_intercepted digests
         else ret false) ;;
  cm_done (l_runchroot l) (l_pivot_fds l) (l_saved l) (l_info l) rc.

(** The process as the selected strategy finds it. *)
Definition dispatch_state (runchroot : option string) (info : option cmnd_info)
    (st : proc) : proc :=
  snd (cm_enter runchroot info st).

End Match.

(** ** Command tags (parse.h) *)

(** The values of a tag. *)
Definition UNSPEC : Z := -1.
Definition DENY : Z := 0.
Definition ALLOW : Z := 1.
Definition IMPLIED : Z := 2.

(** [struct cmndtag]: eight signed bit-fields of three bits; each holds
    one of the four values above. *)
Record cmndtag := {
  follow : Z;
  intercept : Z;
  log_input : Z;
  log_output : Z;
  noexec : Z;
  nopasswd : Z;
  send_mail : Z;
  setenv : Z
}.

(** [TAGS_INIT(t)]: initialize all tags to UNSPEC. *)
Definition TAGS_INIT (t : cmndtag) : cmndtag :=
  {| follow := UNSPEC;
     intercept := UNSPEC;
     log_input := UNSPEC;
     log_output := UNSPEC;
     noexec := UNSPEC;
     nopasswd := UNSPEC;
     send_mail := UNSPEC;
     setenv := UNSPEC |}.

(** [TAGS_MERGE(t, t2)]: copy any tags set in [t2] into [t], overriding
    the value in [t]; the result is [t] after the statement. *)
Definition TAGS_MERGE (t t2 : cmndtag) : cmndtag :=
  {| follow := if negb (follow t2 =? UNSPEC) then follow t2 else follow t;
     intercept :=
       if negb (intercept t2 =? UNSPEC) then intercept t2 else intercept t;
     log_input :=
       if negb (log_input t2 =? UNSPEC) then log_input t2 else log_input t;
     log_output :=
       if negb (log_output t2 =? UNSPEC) then log_output t2 else log_output t;
     noexec := if negb (noexec t2 =? UNSPEC) then noexec t2 else noexec t;
     nopasswd :=
       if negb (nopasswd t2 =? UNSPEC) then nopasswd t2 else nopasswd t;
     send_mail :=
       if negb (send_mail t2 =? UNSPEC) then send_mail t2 else send_mail t;
     setenv := if negb (setenv t2 =? UNSPEC) then setenv t2 else setenv t |}.

(** [TAGS_SET(t)]: true if any tag is not UNSPEC. *)
Definition TAGS_SET (t : cmndtag) : bool :=
  negb (follow t =? UNSPEC) || negb (intercept t =? UNSPEC)
  || negb (log_input t =? UNSPEC) || negb (log_output t =? UNSPEC)
  || negb (noexec t =? UNSPEC) || negb (nopasswd t =? UNSPEC)
  || negb (send_mail t =? UNSPEC) || negb (setenv t =? UNSPEC).

(** [TAG_SET(tt)]: true if the tag is not UNSPEC or IMPLIED. *)
Definition TAG_SET (tt : Z) : bool :=
  negb (tt =? UNSPEC) && negb (tt =? IMPLIED).

(** [TAGS_CHANGED(ot, nt)]: true if any tags set in [nt] differ between
    [ot] and [nt]. *)
Definition TAGS_CHANGED (ot nt : cmndtag) : bool :=
  (TAG_SET (follow nt) && negb (follow nt =? follow ot))
  || (TAG_SET (intercept nt) && negb (intercept nt =? intercept ot))
  || (TAG_SET (log_input nt) && negb (log_input nt =? log_input ot))
  || (TAG_SET (log_output nt) && negb (log_output nt =? log_output ot))
  || (TAG_SET (noexec nt) && negb (noexec nt =? noexec ot))
  || (TAG_SET (nopasswd nt) && negb (nopasswd nt =? nopasswd ot))
  || (TAG_SET (setenv nt) && negb (setenv nt =? setenv ot))
  || (TAG_SET (send_mail nt) && negb (send_mail nt =? send_mail ot)).

(** No tag of [t] is IMPLIED. *)
Definition no_implied (t : cmndtag) : Prop :=
  follow t <> IMPLIED /\ intercept t <> IMPLIED /\ log_input t <> IMPLIED
  /\ log_output t <> IMPLIED /\ noexec t <> IMPLIED /\ nopasswd t <> IMPLIED
  /\ send_mail t <> IMPLIED /\ setenv t <> IMPLIED.

(** ** A small host for the examples *)

Module Demo.

Definition assoc {A} (tbl : list (string * A)) (key : string) : option A :=
  snd <$> find (fun kv => String.eqb (fst kv) key) tbl.

Definition mkstat (ino mode : Z) : stat :=
  {| st_dev := 1; st_ino := ino; st_mode := mode |}.

(** The files of the host: inode, mode and bytes. *)
Definition files : list (string * (stat * string)) :=
  [ ("/bin/ls", (mkstat 7 493, "ELF"));
    ("/bin//ls", (mkstat 7 493, "ELF"));
    ("/usr/local/bin/deploy", (mkstat 8 493, "#!/bin/sh"));
    ("/opt/a/tool", (mkstat 9 493, "tampered"));
    ("/opt/b/tool", (mkstat 11 493, "good"));
    ("/root/tool", (mkstat 10 448, "secret"));
    ("/usr/bin/passwd", (mkstat 14 2541, "ELF"));   (* mode 04755 *)
    ("/dev/fd/0", (mkstat 15 384, ""));
    ("/dev/fd/3", (mkstat 12 384, "")) ].

(** [/root/tool] exists but cannot be opened. *)
Definition open_result (path : string) : option errno_t :=
  if String.eqb path "/root/tool" then Some EACCES
  else match assoc files path with
       | Some _ => None
       | None => Some ENOENT
       end.

Definition globs : list (string * list string) :=
  [ ("/bin/l*", ["/bin/ls"]);
    ("/opt/*/tool", ["/opt/a/tool"; "/opt/b/tool"]) ].

Definition not_found : resolved :=
  {| r_status := NOT_FOUND; r_cmnd := "ls"; r_base := "ls";
     r_cmnd_dir := None; r_stat := mkstat 0 0 |}.

(** The host, where allocation succeeds or fails as [alloc_ok] says. *)
Definition world (alloc_ok : bool) : World :=
  {| w_open := fun _ path _ => open_result path;
     w_stat := fun _ path => fst <$> assoc files path;
     w_content := fun _ path => snd <$> assoc files path;
     w_glob := fun _ pattern => Some (default [] (assoc globs pattern));
     w_chroot := fun _ path => Some path;
     w_fnmatch := fun pattern s _ => String.eqb pattern "*" || String.eqb pattern s;
     w_regcomp := fun _ => true;
     w_regexec := fun pattern s => if String.eqb pattern ("^" ++ s ++ "$") then 0 else 1;
     w_strdup := fun _ => alloc_ok;
     w_canon_path := fun _ dir => assoc [("/bin/", "/bin"); ("/bin", "/bin")] dir;
     w_filedigest := fun _ bytes => Some bytes;
     w_digest_nofd := fun _ _ _ => false;
     w_set_cmnd_path := fun _ => not_found;
     PATH_MAX := 4096;
     have_O_EXEC := true |}.

Definition home : view := {| v_root := "/"; v_cwd := "/home/user" |}.

Definition defaults (fdexec : fdexec_t) : defaults_t :=
  {| def_fdexec := fdexec; def_fast_glob := false;
     def_intercept_allow_setid := false; def_runchroot := None |}.

(** A process about to match [cmnd], with nothing published yet and no
    descriptor open. *)
Definition process (cmnd base : string) (dir : option string) (ino : Z)
    (args chroot : option string) (fdexec : fdexec_t) : proc :=
  {| sudo_user := {| user_cmnd := cmnd; user_base := base; user_cmnd_dir := dir;
                     user_stat := Some (mkstat ino 493); user_args := args;
                     user_runchroot := chroot |};
     defs := defaults fdexec;
     safe_cmnd := None;
     cmnd_fd := -1;
     os := {| fdtab := ∅; cur := home; trace := [] |} |}.

(** [sudo ls -l], resolved to /bin/ls. *)
Definition ls_l : proc :=
  process "/bin/ls" "ls" (Some "/bin") 7 (Some "-l") None digest_only.

(** The same after an earlier rule published /usr/bin/id. *)
Definition ls_l_published : proc := set_safe_cmnd (Some "/usr/bin/id") ls_l.

(** [sudo /bin//ls] under [SUDOERS_NAME_MATCH]. *)
Definition ls_in_bin : proc :=
  process "/bin//ls" "ls" None 7 None None digest_only.

(** [sudo /opt/a/tool], a file whose bytes are not the expected ones; no
    stat of the user command is at hand. *)
Definition tool : proc :=
  set_sudo_user
    {| user_cmnd := "/opt/a/tool"; user_base := "tool"; user_cmnd_dir := None;
       user_stat := None; user_args := None; user_runchroot := None |}
    (process "/opt/a/tool" "tool" None 9 None None digest_only).

Definition tool_digest : list command_digest :=
  [ {| digest_type := 1; digest_str := "good" |} ].

(** [sudo --chroot=/srv/a ls]. *)
Definition ls_chroot : proc :=
  process "/bin/ls" "ls" (Some "/bin") 7 None (Some "/srv/a") digest_only.

(** [sudoedit], as the front end names it. *)
Definition sudoedit : proc :=
  process "sudoedit" "sudoedit" None 0 (Some "/etc/hosts") None digest_only.

(** [sudo cat]. *)
Definition cat : proc :=
  process "/bin/cat" "cat" (Some "/bin") 13 None None digest_only.

(** [sudo deploy] with fdexec=always, resolved to the script
    /usr/local/bin/deploy. *)
Definition deploy_always : proc :=
  process "/usr/local/bin/deploy" "deploy" None 8 None None always.

(** [passwd], about to be run by a child of an intercepted command. *)
Definition passwd : proc :=
  process "/usr/bin/passwd" "passwd" None 14 None None digest_only.

Definition intercepted_info : cmnd_info :=
  {| cmnd_stat := None; cmnd_path := None; status := FOUND; intercepted := true |}.

(** [sudo /root/tool] with fdexec=always. *)
Definition root_tool : proc :=
  process "/root/tool" "tool" None 10 None None always.

(** A process that holds descriptor 4 as [cmnd_fd] and has the script
    /usr/local/bin/deploy open as descriptor 3. *)
Definition deploy : proc :=
  let open_file path :=
    {| fe_obj := FileAt home path; fe_flag := O_RDONLY_NONBLOCK; fe_cloexec := true |} in
  let p := process "/usr/local/bin/deploy" "deploy" None 8 None None always in
  set_cmnd_fd_var 4
    (set_os {| fdtab := <[3 := open_file "/usr/local/bin/deploy"]>
                          (<[4 := open_file "/bin/ls"]> ∅);
               cur := home; trace := [] |} p).

End Demo.

(** ** Vocabulary of the statements *)

(** [wp m Q st]: running [m] from [st] ends in a result and a state that
    satisfy [Q]. *)
Definition wp {A} (m : M A) (Q : A -> proc -> Prop) (st : proc) : Prop :=
  Q (fst (m st)) (snd (m st)).

(** [preserves f m]: [m] never changes the part [f] of the process. *)
Definition preserves {A B} (f : proc -> B) (m : M A) : Prop :=
  forall st, f (snd (m st)) = f st.

(** [f] does not look at the operating system state, at [cmnd_fd], at
    [safe_cmnd], at the user command. *)
Definition os_indep {B} (f : proc -> B) : Prop :=
  forall o st, f (set_os o st) = f st.

Definition cmnd_fd_indep {B} (f : proc -> B) : Prop :=
  forall fd st, f (set_cmnd_fd_var fd st) = f st.

Definition safe_cmnd_indep {B} (f : proc -> B) : Prop :=
  forall s st, f (set_safe_cmnd s st) = f st.

Definition sudo_user_indep {B} (f : proc -> B) : Prop :=
  forall u st, f (set_sudo_user u st) = f st.

(** The root and working directory of the process. *)
Definition view_of (st : proc) : view := cur (os st).

Definition user_args_of (st : proc) : option string := user_args (sudo_user st).

(** The user's arguments as the matcher reads them: the empty string when
    there are none. *)
Definition args_or_empty (st : proc) : string :=
  match user_args (sudo_user st) with Some a => a | None => "" end.

(** The process once [set_cmnd_fd] has closed the descriptor it held. *)
Definition held_closed (st : proc) : proc := snd (close_fd (cmnd_fd st) st).

(** [only_fds st st']: from [st] to [st'] nothing changed but the descriptor
    table and the trace. *)
Definition only_fds (st st' : proc) : Prop :=
  sudo_user st' = sudo_user st /\ defs st' = defs st
  /\ safe_cmnd st' = safe_cmnd st /\ cmnd_fd st' = cmnd_fd st
  /\ view_of st' = view_of st.

(** The same environment with another allocator. *)
Definition with_strdup (alloc : string -> bool) (W : World) : World :=
  {| w_open := w_open W; w_stat := w_stat W; w_content := w_content W;
     w_glob := w_glob W; w_chroot := w_chroot W; w_fnmatch := w_fnmatch W;
     w_regcomp := w_regcomp W; w_regexec := w_regexec W;
     w_strdup := alloc;
     w_canon_path := w_canon_path W; w_filedigest := w_filedigest W;
     w_digest_nofd := w_digest_nofd W; w_set_cmnd_path := w_set_cmnd_path W;
     PATH_MAX := PATH_MAX W; have_O_EXEC := have_O_EXEC W |}.

(** The entry [cp], open as [fd], passed the stat, setid, identity and
    digest checks of the glob strategy in the process [st]. *)
Definition checked (W : World) (icpt : bool) (digests : list command_digest)
    (cp : string) (fd : Z) (st : proc) : Prop :=
  exists sb,
    do_stat W fd cp st = Some sb
    /\ intercept_ok cp icpt sb st = true
    /\ same_inode (user_stat (sudo_user st)) sb = true
    /\ digest_matches W fd cp digests st = true.

(** A pass over [pathv] ended without a candidate of its own: it ran out,
    or failed closed, or returned what the directory matcher said of an
    entry that ends in a slash. *)
Definition no_candidate (pathv : list string) (r : glob_pass) : Prop :=
  match r with
  | GlobDone (Some _) _ => False
  | GlobReturn _ => exists cp, In cp pathv /\ CStr.last cp = "/"%char
  | _ => True
  end.

(** ** Vocabulary of the further properties *)

(** The descriptor table of the process. *)
Definition fds_of (st : proc) : gmap Z fdent := fdtab (os st).

(** The table once [fd] went through [if (fd != -1) close(fd)]. *)
Definition closed_tab (fd : Z) (t : gmap Z fdent) : gmap Z fdent :=
  if negb (fd =? -1) then delete fd t else t.

(** The entry of a file that [open_cmnd] opened: close-on-exec is set. *)
Definition cmnd_entry (v : view) (path : string) (fl : oflag) : fdent :=
  {| fe_obj := FileAt v path; fe_flag := fl; fe_cloexec := true |}.

(** [holds st path fd st1]: since [st] the process has gained at most the
    descriptor [fd], which [open_cmnd] opened on [path] and which was free
    in [st]; [cmnd_fd], root and working directory are as they were. *)
Definition holds (st : proc) (path : string) (fd : Z) (st1 : proc) : Prop :=
  cmnd_fd st1 = cmnd_fd st
  /\ view_of st1 = view_of st
  /\ if fd =? -1 then fds_of st1 = fds_of st
     else fds_of st !! fd = None
          /\ exists fl, fds_of st1 = <[fd := cmnd_entry (view_of st) path fl]> (fds_of st).

(** Descriptor table, [cmnd_fd], root and working directory are the same
    in [st] and [st']. *)
Definition same_desc (st st' : proc) : Prop :=
  cmnd_fd st' = cmnd_fd st /\ view_of st' = view_of st /\ fds_of st' = fds_of st.

(** [cmnd_fd] does not dangle: it is -1 or an open descriptor. *)
Definition cmnd_fd_ok (st : proc) : Prop :=
  cmnd_fd st = -1 \/ is_Some (fds_of st !! cmnd_fd st).

(** From [st] to [st'] no descriptor changed but the one [cmnd_fd] named
    and the one it names now, and [cmnd_fd] does not dangle if it did not
    before. *)
Definition handed (st st' : proc) : Prop :=
  view_of st' = view_of st
  /\ (forall k, k <> cmnd_fd st -> k <> cmnd_fd st' ->
       fds_of st' !! k = fds_of st !! k)
  /\ (cmnd_fd_ok st -> cmnd_fd_ok st').

(** The descriptors after a strategy returned [b]: a rejection leaves
    them as they were. *)
Definition accounted (st : proc) (b : bool) (st' : proc) : Prop :=
  (b = false -> same_desc st st') /\ handed st st'.

(** How a pass over the glob results leaves the descriptors of the
    process that was [st] when the strategy was entered. *)
Definition pass_held (st : proc) (r : glob_pass) (st' : proc) : Prop :=
  match r with
  | GlobDone _ fd | GlobEnd fd _ => exists p, holds st p fd st'
  | GlobReturn _ => same_desc st st'
  end.

(** How the normal strategy of the inode build identified the file that
    is open as [fd] in [st1] with the user's command: by device and inode
    when both stats are at hand, after the setid check; by name
    otherwise. *)
Definition identified (W : World) (c : string) (icpt : bool) (fd : Z)
    (st st1 : proc) : Prop :=
  match user_stat (sudo_user st), do_stat W fd c st1 with
  | Some us, Some ss =>
      intercept_ok c icpt ss st1 = true
      /\ st_dev us = st_dev ss /\ st_ino us = st_ino ss
  | _, _ => user_cmnd (sudo_user st) = c
  end.

(** ** The file that was checked *)

(** [st] with [t] as its log of system calls. *)
Definition with_trace (t : list event) (st : proc) : proc :=
  set_os {| fdtab := fdtab (os st); cur := cur (os st); trace := t |} st.

(** [opened W digests st path fd st1]: [open_cmnd] on [path] succeeded,
    returned the descriptor [fd] and left the process [st1]; it was
    called in the process [st], whatever that had logged since. *)
Definition opened (W : World) (digests : list command_digest) (st : proc)
    (path : string) (fd : Z) (st1 : proc) : Prop :=
  exists t, open_cmnd W path digests (-1) (with_trace t st) = ((true, fd), st1).

(** The entry [cp] of [pathv] is the user's command or has its base
    name, and it passed the stat, setid, identity and digest checks of
    the glob strategy on the descriptor and in the process that
    [open_cmnd] on [cp] left. *)
Definition found (W : World) (sd : proc) (icpt : bool)
    (digests : list command_digest) (pathv : list string)
    (cp : string) (fd : Z) (st2 : proc) : Prop :=
  In cp pathv
  /\ (cp = user_cmnd (sudo_user sd)
      \/ user_base (sudo_user sd) = sudo_basename cp)
  /\ opened W digests sd cp fd st2
  /\ checked W icpt digests cp fd st2.

(** Between two entries of the expansion: the process is as the strategy
    found it, but for the descriptor [fd] that the last entry left open
    and the log. *)
Definition between (sd : proc) (fd : Z) (st : proc) : Prop :=
  only_fds sd st /\ exists p, holds sd p fd st.

(** How a pass over the entries [pathv] of the expansion ends, in the
    strategy that was entered with the process [sd]. *)
Definition pass_found (W : World) (sd : proc) (rootfd : Z) (icpt : bool)
    (digests : list command_digest) (pathv : list string)
    (r : glob_pass) (st' : proc) : Prop :=
  match r with
  | GlobDone (Some cp) fd =>
      w_strdup W cp = true
      /\ exists st2,
           found W sd icpt digests pathv cp fd st2
           /\ st' = set_safe_cmnd (Some cp) st2
  | GlobDone None fd =>
      between sd fd st'
      \/ exists cp st2,
           w_strdup W cp = false
           /\ found W sd icpt digests pathv cp fd st2
           /\ st' = set_safe_cmnd None st2
  | GlobReturn b =>
      b = true
      /\ exists cp t,
           In cp pathv /\ CStr.last cp = "/"%char
           /\ command_matches_dir_inode W cp (String.length cp) rootfd icpt
                digests (with_trace t sd) = (true, st')
  | GlobEnd fd _ => between sd fd st'
  end.

(** The entry [cp] of the expansion of [pattern] is the user's command or
    has its base name, and passed the checks of the glob strategy. *)
Definition glob_found (W : World) (icpt : bool) (digests : list command_digest)
    (sd : proc) (pattern cp : string) (fd : Z) (st2 : proc) : Prop :=
  exists pathv,
    w_glob W (view_of sd) pattern = Some pathv
    /\ found W sd icpt digests pathv cp fd st2.

(** The descriptor that [cmnd_fd] names after the hand-off of [fd], which
    was opened on [path]: it is [fd] or none, and if [cmnd_fd] did not
    dangle before, what it names refers to [path]. *)
Definition published (st : proc) (path : string) (fd : Z) (st' : proc) : Prop :=
  (cmnd_fd st' = fd \/ cmnd_fd st' = -1)
  /\ (cmnd_fd_ok st -> cmnd_fd st' <> -1 ->
      fe_obj <$> fds_of st' !! cmnd_fd st' = Some (FileAt (view_of st) path)).

(** The checks of the normal strategy on a rule [c] that is not a
    directory, up to the copy into [safe_cmnd]: the names agree, the
    arguments match, [open_cmnd] on [c] succeeded, and on the descriptor
    and in the process it left the file was identified with the user's
    command (inode build) and passed the digest check. *)
Definition normal_passed (W : World) (mode : match_mode) (c : string)
    (args : option string) (icpt : bool) (digests : list command_digest)
    (st : proc) : Prop :=
  let o := open_cmnd W c digests (-1) st in
  CStr.last c <> "/"%char
  /\ command_args_match W c args st = true
  /\ match mode with
     | InodeMatch => user_base (sudo_user st) = sudo_basename c
     | NameMatch => user_cmnd (sudo_user st) = c
     end
  /\ fst (fst o) = true
  /\ digest_matches W (snd (fst o)) c digests (snd o) = true
  /\ (mode = InodeMatch -> identified W c icpt (snd (fst o)) st (snd o)).

(** The checks of the pattern strategies on the user's command [cmnd],
    once the pattern matched it. *)
Definition pattern_passed (W : World) (mode : match_mode) (c : string)
    (args : option string) (cmnd : string) (icpt : bool)
    (digests : list command_digest) (st : proc) : Prop :=
  let o := open_cmnd W cmnd digests (-1) st in
  command_args_match W c args st = true
  /\ fst (fst o) = true
  /\ (mode = InodeMatch ->
      exists sb,
        do_stat W (snd (fst o)) cmnd (snd o) = Some sb
        /\ intercept_ok cmnd icpt sb (snd o) = true)
  /\ digest_matches W (snd (fst o)) cmnd digests (snd o) = true.

(** What a rejected match may have done to [safe_cmnd]: nothing; or
    lost it to a failed allocation of the copy of the path that passed
    the checks of the normal or of the glob strategy; or replaced it by
    an entry of the glob expansion that passed its checks before the
    arguments were looked at.  [st] is the process before the call, [sd]
    the process the strategy was entered with. *)
Definition reject_post (W : World) (mode : match_mode)
    (sudoers_cmnd sudoers_args : option string) (icpt : bool)
    (digests : list command_digest) (st sd st' : proc) : Prop :=
  safe_cmnd st' = safe_cmnd st
  \/ (exists c path,
        sudoers_cmnd = Some c /\ CStr.head c = "/"%char
        /\ w_strdup W path = false /\ safe_cmnd st' = None
        /\ if has_meta c
           then mode = InodeMatch /\ def_fast_glob (defs st) = false
                /\ exists fd st2, glob_found W icpt digests sd c path fd st2
           else path = c
                /\ normal_passed W mode c sudoers_args icpt digests sd)
  \/ (mode = InodeMatch
      /\ def_fast_glob (defs st) = false
      /\ exists pattern cp,
           sudoers_cmnd = Some pattern
           /\ CStr.head pattern = "/"%char
           /\ has_meta pattern = true
           /\ command_args_match W pattern sudoers_args st = false
           /\ w_strdup W cp = true
           /\ safe_cmnd st' = Some cp
           /\ exists fd st2, glob_found W icpt digests sd pattern cp fd st2).



(** ** Calls, environments and chroots *)

(** The calls of glob(3) that the process has made, oldest first. *)
Definition is_glob (e : event) : bool :=
  match e with EvGlob _ => true | _ => false end.

Definition glob_calls (st : proc) : list event :=
  List.filter is_glob (trace (os st)).

(** The same environment with another [canon_path]. *)
Definition with_canon_path (canon : view -> string -> option string)
    (W : World) : World :=
  {| w_open := w_open W; w_stat := w_stat W; w_content := w_content W;
     w_glob := w_glob W; w_chroot := w_chroot W; w_fnmatch := w_fnmatch W;
     w_regcomp := w_regcomp W; w_regexec := w_regexec W;
     w_strdup := w_strdup W;
     w_canon_path := canon; w_filedigest := w_filedigest W;
     w_digest_nofd := w_digest_nofd W; w_set_cmnd_path := w_set_cmnd_path W;
     PATH_MAX := PATH_MAX W; have_O_EXEC := have_O_EXEC W |}.

(** An entry of a glob expansion that is an absolute path and not a
    directory specification. *)
Definition absolute_file (cp : string) : Prop :=
  CStr.head cp = "/"%char /\ CStr.last cp <> "/"%char.

(** No chroot is in play: none from the command line, none from the rule,
    none from the defaults. *)
Definition no_chroot (runchroot : option string) (st : proc) : Prop :=
  user_runchroot (sudo_user st) = None
  /\ runchroot = None
  /\ def_runchroot (defs st) = None.

(** ** More processes on the example host *)

Module Cases.

(** The process [p] with /bin/ls open as descriptor 3, the way
    [open_cmnd] leaves it. *)
Definition with_ls_open (p : proc) : proc :=
  set_os {| fdtab := <[3 := cmnd_entry Demo.home "/bin/ls" O_RDONLY_NONBLOCK]> ∅;
            cur := Demo.home; trace := [] |} p.

(** [sudo ls -l] with fdexec=always and /bin/ls open. *)
Definition ls_always : proc :=
  with_ls_open
    (Demo.process "/bin/ls" "ls" (Some "/bin") 7 (Some "-l") None always).

(** The same with fdexec=never. *)
Definition ls_never : proc :=
  with_ls_open
    (Demo.process "/bin/ls" "ls" (Some "/bin") 7 (Some "-l") None never).

(** [sudo ls -l] with fdexec=always and nothing open. *)
Definition ls_fdexec : proc :=
  Demo.process "/bin/ls" "ls" (Some "/bin") 7 (Some "-l") None always.

(** [sudo ./ls], whose directory could not be resolved. *)
Definition ls_relative : proc :=
  Demo.process "./ls" "ls" None 7 None None digest_only.

(** [sudo /bin/ls], while /bin/ls is the inode 99 for the front end. *)
Definition ls_replaced : proc :=
  Demo.process "/bin/ls" "ls" (Some "/bin") 99 None None digest_only.

(** [sudo ls -l] with fdexec=always, after an earlier rule published
    /usr/bin/id. *)
Definition ls_fdexec_published : proc :=
  set_safe_cmnd (Some "/usr/bin/id") ls_fdexec.


(** A [canon_path] that resolves every directory but the empty string to
    a place where no command is. *)
Definition canon_elsewhere (v : view) (dir : string) : option string :=
  if String.eqb dir "" then w_canon_path (Demo.world true) v dir
  else Some "/nowhere".

End Cases.

(** * Proofs *)

(** ** C strings *)

Lemma strchr_nul (s : string) : exists n, CStr.strchr s zero = Some n.
Proof.
  induction s as [|c s [n IH]]; simpl.
  - exists 0%nat. reflexivity.
  - destruct (Ascii.eqb c zero); [exists 0%nat; reflexivity|].
    rewrite IH. exists (S n). reflexivity.
Qed.

Lemma last_cons (d e : ascii) (s : string) :
  CStr.last (String d (String e s)) = CStr.last (String e s).
Proof. reflexivity. Qed.

Lemma last_app_char (body : string) (c d : ascii) :
  CStr.last (String d (body ++ String c "")) = c.
Proof.
  revert d. induction body as [|e body IH]; intros d.
  - reflexivity.
  - change (String e body ++ String c "") with (String e (body ++ String c "")).
    rewrite last_cons. apply IH.
Qed.

Lemma last_inv (s : string) (c : ascii) :
  s <> "" -> CStr.last s = c -> exists body, s = body ++ String c "".
Proof.
  induction s as [|d s IH]; intros Hne Hl; [congruence|].
  destruct s as [|e s].
  - simpl in Hl. subst. exists "". reflexivity.
  - destruct IH as [body Hb]; [discriminate|exact Hl|].
    exists (String d body). rewrite Hb. reflexivity.
Qed.

(** A pattern is taken for a regular expression when it is of the form
    [^...$]. *)
Lemma anchored_iff (p : string) :
  Ascii.eqb (CStr.head p) "^"
    && ((0 <? String.length p)%nat && Ascii.eqb (CStr.last p) "$") = true
  <-> exists body, p = "^" ++ body ++ "$".
Proof.
  split.
  - intros H. apply andb_true_iff in H as [Hh H].
    apply andb_true_iff in H as [_ Hl].
    apply Ascii.eqb_eq in Hh, Hl.
    destruct p as [|c p]; simpl in Hh; [discriminate|]. subst c.
    destruct p as [|d p]; [simpl in Hl; discriminate|].
    destruct (last_inv (String d p) "$") as [body Hb]; [discriminate|exact Hl|].
    exists body. rewrite Hb. reflexivity.
  - intros [body ->].
    change ("^" ++ body ++ "$") with (String "^"%char (body ++ String "$"%char "")).
    rewrite last_app_char. reflexivity.
Qed.

(** ** Reasoning about the state monad *)

Section MonadRules.

Context {A B : Type}.

Lemma wp_ret (a : A) (Q : A -> proc -> Prop) st : Q a st -> wp (ret a) Q st.
Proof. exact id. Qed.

Lemma wp_gets (f : proc -> A) (Q : A -> proc -> Prop) st :
  Q (f st) st -> wp (gets f) Q st.
Proof. exact id. Qed.

Lemma wp_modify (f : proc -> proc) (Q : unit -> proc -> Prop) st :
  Q tt (f st) -> wp (modify f) Q st.
Proof. exact id. Qed.

Lemma wp_bind (m : M A) (k : A -> M B) (Q : B -> proc -> Prop) st :
  wp m (fun a => wp (k a) Q) st -> wp (bind m k) Q st.
Proof. unfold wp, bind. destruct (m st) as [a st']. exact id. Qed.

Lemma wp_mono (m : M A) (Q Q' : A -> proc -> Prop) st :
  (forall a st', Q a st' -> Q' a st') -> wp m Q st -> wp m Q' st.
Proof. unfold wp. auto. Qed.

Lemma wp_run (m : M A) (Q : A -> proc -> Prop) st :
  wp m Q st -> Q (fst (m st)) (snd (m st)).
Proof. exact id. Qed.

(** What is known after a step that preserves [f]: only that [f] is as
    before. *)
Lemma wp_frame {C} (f : proc -> C) (m : M A) (Q : A -> proc -> Prop) st :
  preserves f m -> (forall a st', f st' = f st -> Q a st') -> wp m Q st.
Proof. unfold wp. intros Hp HQ. apply HQ, Hp. Qed.

Lemma preserves_ret {C} (f : proc -> C) (a : A) : preserves f (ret a).
Proof. intros st. reflexivity. Qed.

Lemma preserves_gets {C} (f : proc -> C) (g : proc -> A) : preserves f (gets g).
Proof. intros st. reflexivity. Qed.

Lemma preserves_bind {C} (f : proc -> C) (m : M A) (k : A -> M B) :
  preserves f m -> (forall a, preserves f (k a)) -> preserves f (bind m k).
Proof.
  intros Hm Hk st. unfold bind. specialize (Hm st).
  destruct (m st) as [a st']. simpl in Hm. rewrite Hk. exact Hm.
Qed.

End MonadRules.

Create HintDb frame discriminated.

#[local] Hint Extern 1 (os_indep _) => (intros ? ?; reflexivity) : frame.

(** Walks through a computation, splitting on every test. *)
Ltac frame_step :=
  match goal with
  | |- preserves _ (ret _) => apply preserves_ret
  | |- preserves _ (gets _) => apply preserves_gets
  | |- preserves _ (bind _ _) => apply preserves_bind; [|intros ?]
  | |- preserves _ (if ?b then _ else _) => destruct b
  | |- preserves _ (match ?x with _ => _ end) => destruct x
  | |- preserves _ _ => solve [eauto with frame]
  end.

Ltac frame := repeat frame_step.

Section SyscallFrames.

Context (W : World) {C : Type} (f : proc -> C) (Hf : os_indep f).

Lemma install_preserves obj path fl : preserves f (install obj path fl).
Proof. intros st. apply Hf. Qed.

Lemma sys_open_preserves path fl : preserves f (sys_open W path fl).
Proof.
  intros st. unfold sys_open.
  destruct (w_open W (cur (os st)) path fl); [apply Hf|apply install_preserves].
Qed.

Lemma sys_close_preserves fd : preserves f (sys_close fd).
Proof. intros st. apply Hf. Qed.

Lemma sys_setfd_preserves fd b : preserves f (sys_setfd fd b).
Proof. intros st. apply Hf. Qed.

Lemma sys_glob_preserves pattern : preserves f (sys_glob W pattern).
Proof. intros st. apply Hf. Qed.

Lemma close_fd_preserves fd : preserves f (close_fd fd).
Proof. unfold close_fd. destruct (negb (fd =? -1)); [apply sys_close_preserves|apply preserves_ret]. Qed.

Lemma bad_preserves fd : preserves f (bad fd).
Proof. unfold bad. apply preserves_bind; [apply close_fd_preserves|intros; apply preserves_ret]. Qed.

Lemma open_cmnd_preserves path digests fd0 : preserves f (open_cmnd W path digests fd0).
Proof.
  pose proof sys_open_preserves. pose proof sys_setfd_preserves.
  unfold open_cmnd. frame.
Qed.

End SyscallFrames.

#[local] Hint Resolve sys_open_preserves sys_close_preserves sys_setfd_preserves
  sys_glob_preserves close_fd_preserves bad_preserves open_cmnd_preserves : frame.

Section ViewFrames.

Context (W : World).

Lemma sys_open_view path fl : preserves view_of (sys_open W path fl).
Proof.
  intros st. unfold sys_open.
  destruct (w_open W (cur (os st)) path fl); reflexivity.
Qed.

Lemma sys_close_view fd : preserves view_of (sys_close fd).
Proof. intros st. reflexivity. Qed.

Lemma sys_setfd_view fd b : preserves view_of (sys_setfd fd b).
Proof. intros st. reflexivity. Qed.

Lemma sys_glob_view pattern : preserves view_of (sys_glob W pattern).
Proof. intros st. reflexivity. Qed.

Lemma close_fd_view fd : preserves view_of (close_fd fd).
Proof. unfold close_fd. destruct (negb (fd =? -1)); [apply sys_close_view|apply preserves_ret]. Qed.

Lemma bad_view fd : preserves view_of (bad fd).
Proof. unfold bad. apply preserves_bind; [apply close_fd_view|intros; apply preserves_ret]. Qed.

Lemma open_cmnd_view path digests fd0 : preserves view_of (open_cmnd W path digests fd0).
Proof.
  pose proof sys_open_view. pose proof sys_setfd_view.
  unfold open_cmnd. frame.
Qed.

(** A failed [open_cmnd] leaves [*fdp] as it was. *)
Lemma open_cmnd_failed path digests fd0 st :
  fst (fst (open_cmnd W path digests fd0 st)) = false ->
  snd (fst (open_cmnd W path digests fd0 st)) = fd0.
Proof.
  unfold open_cmnd, bind, gets.
  destruct (negb (bool_decide (def_fdexec (defs st) = always)) && TAILQ_EMPTY digests);
    [reflexivity|].
  destruct (sys_open W path O_RDONLY_NONBLOCK st) as [[fd|[]] st1]; simpl;
    try discriminate; try reflexivity.
  destruct (have_O_EXEC W && TAILQ_EMPTY digests); simpl; [|reflexivity].
  destruct (sys_open W path O_EXEC st1) as [[fd|e] st2]; simpl;
    try discriminate; reflexivity.
Qed.

End ViewFrames.

#[local] Hint Resolve sys_open_view sys_close_view sys_setfd_view
  sys_glob_view close_fd_view bad_view open_cmnd_view : frame.

Lemma empty_args_token_not_anchored (body : string) :
  empty_args_token <> "^" ++ body ++ "$".
Proof. intros H. cbv in H. discriminate. Qed.

(** The argument matcher reads nothing of the process but [user_args]. *)
Lemma command_args_match_user_args (W : World) cmnd args (st1 st2 : proc) :
  user_args (sudo_user st1) = user_args (sudo_user st2) ->
  command_args_match W cmnd args st1 = command_args_match W cmnd args st2.
Proof. intros H. unfold command_args_match. rewrite H. reflexivity. Qed.

Section DispatcherFrames.

Context (W : World) {C : Type} (f : proc -> C) (Hf : os_indep f).

Lemma sys_open_dir_preserves path dir : preserves f (sys_open_dir W path dir).
Proof.
  intros st. unfold sys_open_dir.
  destruct (w_open W (cur (os st)) path O_RDONLY_DIRECTORY); [apply Hf|apply install_preserves, Hf].
Qed.

Lemma sys_chroot_preserves path : preserves f (sys_chroot W path).
Proof.
  intros st. unfold sys_chroot.
  destruct (w_chroot W (cur (os st)) path); [apply Hf|reflexivity].
Qed.

Lemma sys_chdir_root_preserves : preserves f sys_chdir_root.
Proof. intros st. apply Hf. Qed.

Lemma sys_fchdir_preserves fd b : preserves f (sys_fchdir fd b).
Proof.
  intros st. unfold sys_fchdir.
  destruct (fe_obj <$> fdtab (os st) !! fd) as [[]|]; try reflexivity. apply Hf.
Qed.

Lemma pivot_root_preserves new_root : preserves f (pivot_root W new_root).
Proof.
  pose proof sys_open_dir_preserves. pose proof sys_chroot_preserves.
  pose proof sys_chdir_root_preserves.
  unfold pivot_root. frame.
Qed.

Lemma unpivot_root_preserves fds : preserves f (unpivot_root fds).
Proof.
  pose proof sys_fchdir_preserves.
  unfold unpivot_root. destruct fds. frame.
Qed.

End DispatcherFrames.

#[local] Hint Resolve pivot_root_preserves unpivot_root_preserves : frame.

Lemma set_cmnd_path_user_args (W : World) : preserves user_args_of (set_cmnd_path W).
Proof. intros st. reflexivity. Qed.

#[local] Hint Resolve set_cmnd_path_user_args : frame.

Lemma cm_enter_user_args (W : World) runchroot info :
  preserves user_args_of (cm_enter W runchroot info).
Proof. unfold cm_enter. frame. Qed.

(** [done:] returns the verdict it is given. *)
Lemma cm_done_verdict runchroot fds saved info rc st :
  fst (fst (cm_done runchroot fds saved info rc st)) = rc.
Proof.
  unfold cm_done, bind, gets, modify, ret.
  destruct (match runchroot with Some _ => unpivot_root fds | None => _ end st) as [[] st1].
  destruct saved as [[c s]|]; reflexivity.
Qed.


(** A descriptor that [is_script] can read is open. *)
Lemma is_script_open (W : World) fd st :
  is_script W fd st = true -> is_Some (fdtab (os st) !! fd).
Proof.
  unfold is_script, sys_pread2, fd_bytes.
  destruct (fdtab (os st) !! fd); [eauto|discriminate].
Qed.


(** ** Descriptors *)

Lemma lowest_free_ge (t : gmap Z fdent) (fuel : nat) (k : Z) :
  k <= lowest_free t fuel k.
Proof.
  revert k. induction fuel as [|fuel IH]; intros k; simpl; [lia|].
  destruct (t !! k); [|lia]. specialize (IH (k + 1)). lia.
Qed.

Lemma fresh_fd_nonneg (t : gmap Z fdent) : 0 <= fresh_fd t.
Proof. apply lowest_free_ge. Qed.

Lemma lowest_free_delete (t : gmap Z fdent) (fuel : nat) (j k : Z) :
  j < k -> lowest_free (delete j t) fuel k = lowest_free t fuel k.
Proof.
  revert k. induction fuel as [|fuel IH]; intros k Hjk; simpl; [reflexivity|].
  rewrite lookup_delete_ne by lia.
  destruct (t !! k); [|reflexivity]. apply IH. lia.
Qed.

Lemma lowest_free_is_free (fuel : nat) :
  forall (t : gmap Z fdent) (k : Z),
    (size t <= fuel)%nat -> t !! lowest_free t fuel k = None.
Proof.
  induction fuel as [|fuel IH]; intros t k Hsize; simpl.
  - assert (t = ∅) as -> by (apply map_size_empty_iff; lia).
    apply lookup_empty.
  - destruct (t !! k) as [e|] eqn:Ek; [|exact Ek].
    rewrite <- (lowest_free_delete t fuel k (k + 1)) by lia.
    pose proof (lowest_free_ge (delete k t) fuel (k + 1)) as Hge.
    specialize (IH (delete k t) (k + 1)).
    rewrite lookup_delete_ne in IH by lia.
    apply IH.
    pose proof (map_size_delete_Some k t (mk_is_Some _ _ Ek)). lia.
Qed.

Lemma lowest_free_below (t : gmap Z fdent) (fuel : nat) :
  forall k j, k <= j < lowest_free t fuel k -> is_Some (t !! j).
Proof.
  induction fuel as [|fuel IH]; intros k j Hj; simpl in Hj; [lia|].
  destruct (t !! k) as [e|] eqn:Ek; [|lia].
  destruct (decide (j = k)) as [->|Hne]; [eauto|].
  apply (IH (k + 1)). lia.
Qed.

(** The descriptor that open(2) hands out was not open, and every smaller
    one was. *)
Lemma fresh_fd_free (t : gmap Z fdent) : t !! fresh_fd t = None.
Proof. apply lowest_free_is_free. lia. Qed.

Lemma fresh_fd_lowest (t : gmap Z fdent) (j : Z) :
  0 <= j < fresh_fd t -> is_Some (t !! j).
Proof. apply lowest_free_below. Qed.

Lemma only_fds_refl st : only_fds st st.
Proof. repeat split. Qed.

Lemma only_fds_trans st1 st2 st3 :
  only_fds st1 st2 -> only_fds st2 st3 -> only_fds st1 st3.
Proof.
  unfold only_fds. intros (?&?&?&?&?) (?&?&?&?&?). repeat split; congruence.
Qed.

Lemma only_fds_intro {A} (m : M A) st :
  (forall C (f : proc -> C), os_indep f -> preserves f m) ->
  preserves view_of m -> only_fds st (snd (m st)).
Proof.
  intros H Hv. repeat split; try apply Hv; apply H; intros ? ?; reflexivity.
Qed.

Lemma close_fd_only_fds fd st : only_fds st (snd (close_fd fd st)).
Proof. apply only_fds_intro; eauto with frame. Qed.

Lemma open_cmnd_only_fds W path digests fd0 st :
  only_fds st (snd (open_cmnd W path digests fd0 st)).
Proof. apply only_fds_intro; eauto with frame. Qed.

(** With a digest to check, a file that can be opened for reading is
    opened for reading. *)
Lemma open_cmnd_opens (W : World) path digests fd0 st :
  digests <> [] ->
  w_open W (view_of st) path O_RDONLY_NONBLOCK = None ->
  exists fd,
    fst (open_cmnd W path digests fd0 st) = (true, fd)
    /\ fd <> -1
    /\ fdtab (os (snd (open_cmnd W path digests fd0 st))) !! fd
       = Some {| fe_obj := FileAt (view_of st) path;
                 fe_flag := O_RDONLY_NONBLOCK; fe_cloexec := true |}.
Proof.
  intros Hd Hopen. unfold open_cmnd, bind, gets, sys_open.
  destruct digests as [|d ds]; [congruence|].
  rewrite andb_false_r. unfold view_of in Hopen. rewrite Hopen.
  cbn. exists (fresh_fd (fdtab (os st))). split; [reflexivity|]. split.
  - pose proof (fresh_fd_nonneg (fdtab (os st))). lia.
  - rewrite lookup_alter_eq, lookup_insert_eq. reflexivity.
Qed.

Lemma intercept_ok_defs path icpt sb st1 st2 :
  defs st1 = defs st2 ->
  intercept_ok path icpt sb st1 = intercept_ok path icpt sb st2.
Proof. intros H. unfold intercept_ok. rewrite H. reflexivity. Qed.

(** ** The exact-path pass after a digest mismatch *)

Section Poison.

Context (W : World) (is_intercepted : bool) (digests : list command_digest).
Context (st0 : proc) (sb : stat).

Hypothesis Hdigests : digests <> [].
Hypothesis Hopen :
  w_open W (view_of st0) (user_cmnd (sudo_user st0)) O_RDONLY_NONBLOCK = None.
Hypothesis Hstat : w_stat W (view_of st0) (user_cmnd (sudo_user st0)) = Some sb.
Hypothesis Hsetid :
  intercept_ok (user_cmnd (sudo_user st0)) is_intercepted sb st0 = true.
Hypothesis Hinode : same_inode (user_stat (sudo_user st0)) sb = true.
Hypothesis Hmismatch :
  bytes_match W (w_content W (view_of st0) (user_cmnd (sudo_user st0))) digests = false.

(** Every entry is passed over: the ones that differ from user_cmnd
    because they differ, the others because their digest is wrong. *)
Lemma glob_exact_poisoned (pathv : list string) :
  forall (fd0 : Z) (bad_digest : bool) (st : proc),
    only_fds st0 st ->
    exists fd st',
      glob_exact W pathv fd0 bad_digest is_intercepted digests st
      = (GlobEnd fd (bad_digest || existsb (String.eqb (user_cmnd (sudo_user st0))) pathv), st')
      /\ only_fds st0 st'.
Proof.
  induction pathv as [|cp ap IH]; intros fd0 bad_digest st Hst.
  - exists fd0, st. cbn. rewrite orb_false_r. auto.
  - cbn [glob_exact existsb]. unfold bind at 1.
    pose proof (close_fd_only_fds fd0 st) as Hc.
    destruct (close_fd fd0 st) as [[] sta]. cbn [snd] in Hc.
    pose proof (only_fds_trans _ _ _ Hst Hc) as Ha.
    unfold bind at 1, gets at 1.
    destruct Ha as (Hu & Hd & Hs & Hf & Hv).
    rewrite Hu.
    destruct (String.eqb cp (user_cmnd (sudo_user st0))) eqn:Ecp; cbn [negb].
    + apply String.eqb_eq in Ecp. subst cp. rewrite String.eqb_refl. cbn [orb].
      rewrite orb_true_r.
      assert (Hopen' : w_open W (view_of sta) (user_cmnd (sudo_user st0))
                         O_RDONLY_NONBLOCK = None) by (rewrite Hv; exact Hopen).
      destruct (open_cmnd_opens W _ digests (-1) sta Hdigests Hopen')
        as (fd & Hres & Hfd & Hent).
      pose proof (open_cmnd_only_fds W (user_cmnd (sudo_user st0)) digests (-1) sta) as Ho.
      unfold bind at 1.
      destruct (open_cmnd W (user_cmnd (sudo_user st0)) digests (-1) sta)
        as [r stb]. cbn [fst snd] in Hres, Hent, Ho. subst r. cbn [negb].
      assert (Hb : only_fds st0 stb).
      { eapply only_fds_trans; [|exact Ho]. repeat split; assumption. }
      unfold bind at 1, gets at 1.
      assert (Estat : do_stat W fd (user_cmnd (sudo_user st0)) stb = Some sb).
      { unfold do_stat. apply Z.eqb_neq in Hfd. rewrite Hfd. cbn [negb].
        unfold sys_fstat. rewrite Hent. cbn. rewrite Hv. exact Hstat. }
      rewrite Estat.
      unfold bind at 1, gets at 1.
      destruct Hb as (Hu' & Hd' & Hs' & Hf' & Hv').
      rewrite (intercept_ok_defs _ _ _ stb st0 Hd'), Hsetid. cbn [negb].
      unfold bind at 1, gets at 1. rewrite Hu', Hinode.
      unfold bind at 1, gets at 1.
      assert (Edig : digest_matches W fd (user_cmnd (sudo_user st0)) digests stb = false).
      { unfold digest_matches. destruct digests as [|d ds]; [congruence|].
        apply Z.eqb_neq in Hfd. rewrite Hfd.
        unfold fd_bytes. rewrite Hent. cbn [fe_obj fe_flag]. rewrite Hv. exact Hmismatch. }
      rewrite Edig. cbn [negb].
      destruct (IH fd true stb) as (fd' & st' & Hrun & Hst'); [repeat split; assumption|].
      exists fd', st'. rewrite Hrun. auto.
    + assert (Ecp' : String.eqb (user_cmnd (sudo_user st0)) cp = false).
      { rewrite String.eqb_sym. exact Ecp. }
      rewrite Ecp'. cbn [orb].
      apply IH. repeat split; assumption.
Qed.

End Poison.

Lemma sys_glob_only_fds W pattern st : only_fds st (snd (sys_glob W pattern st)).
Proof. apply only_fds_intro; eauto with frame. Qed.

(** ** What the strategies leave alone *)

#[local] Hint Extern 1 (cmnd_fd_indep _) => (intros ? ?; reflexivity) : frame.
#[local] Hint Extern 1 (safe_cmnd_indep _) => (intros ? ?; reflexivity) : frame.

Section StrategyFrames.

Context (W : World) {C : Type} (f : proc -> C).
Context (Hos : os_indep f) (Hfd : cmnd_fd_indep f).

Lemma set_cmnd_fd_preserves fd rootfd : preserves f (set_cmnd_fd W fd rootfd).
Proof.
  assert (forall fd, preserves f (modify (set_cmnd_fd_var fd)))
    by (intros ? ?; apply Hfd).
  unfold set_cmnd_fd. frame.
Qed.

#[local] Hint Resolve set_cmnd_fd_preserves : frame.

Lemma command_matches_dir_name_preserves dir dlen rootfd icpt digests :
  preserves f (command_matches_dir_name W dir dlen rootfd icpt digests).
Proof. unfold command_matches_dir_name. frame. Qed.

Lemma command_matches_all_preserves mode rootfd icpt digests :
  preserves f (command_matches_all W mode rootfd icpt digests).
Proof. unfold command_matches_all. frame. Qed.

Lemma pattern_matched_preserves mode cmnd args path rootfd icpt digests :
  preserves f (pattern_matched W mode cmnd args path rootfd icpt digests).
Proof. unfold pattern_matched. frame. Qed.

#[local] Hint Resolve pattern_matched_preserves : frame.

Lemma command_matches_fnmatch_preserves mode cmnd args rootfd icpt digests :
  preserves f (command_matches_fnmatch W mode cmnd args rootfd icpt digests).
Proof. unfold command_matches_fnmatch. frame. Qed.

Lemma command_matches_regex_preserves mode cmnd args rootfd icpt digests :
  preserves f (command_matches_regex W mode cmnd args rootfd icpt digests).
Proof. unfold command_matches_regex. frame. Qed.

Context (Hsafe : safe_cmnd_indep f).

Lemma safe_cmnd_strdup_preserves path : preserves f (safe_cmnd_strdup W path).
Proof.
  intros st. unfold safe_cmnd_strdup. destruct (w_strdup W path); apply Hsafe.
Qed.

#[local] Hint Resolve safe_cmnd_strdup_preserves : frame.

Lemma command_matches_dir_inode_preserves dir dlen rootfd icpt digests :
  preserves f (command_matches_dir_inode W dir dlen rootfd icpt digests).
Proof. unfold command_matches_dir_inode. frame. Qed.

#[local] Hint Resolve command_matches_dir_inode_preserves : frame.

Lemma glob_exact_preserves pathv : forall fd bad icpt digests,
  preserves f (glob_exact W pathv fd bad icpt digests).
Proof.
  induction pathv as [|cp ap IH]; intros; cbn [glob_exact]; frame.
Qed.

Lemma glob_base_preserves pathv : forall fd rootfd icpt digests,
  preserves f (glob_base W pathv fd rootfd icpt digests).
Proof.
  induction pathv as [|cp ap IH]; intros; cbn [glob_base]; frame.
Qed.

#[local] Hint Resolve glob_exact_preserves glob_base_preserves : frame.

Lemma command_matches_glob_inode_preserves cmnd args rootfd icpt digests :
  preserves f (command_matches_glob_inode W cmnd args rootfd icpt digests).
Proof. unfold command_matches_glob_inode. frame. Qed.

Lemma command_matches_normal_inode_preserves cmnd args rootfd icpt digests :
  preserves f (command_matches_normal_inode W cmnd args rootfd icpt digests).
Proof. unfold command_matches_normal_inode. frame. Qed.

Lemma command_matches_normal_name_preserves cmnd args rootfd icpt digests :
  preserves f (command_matches_normal_name W cmnd args rootfd icpt digests).
Proof.
  pose proof command_matches_dir_name_preserves.
  unfold command_matches_normal_name. frame.
Qed.

Lemma cm_dispatch_preserves mode cmnd args rootfd icpt digests :
  preserves f (cm_dispatch W mode cmnd args rootfd icpt digests).
Proof.
  unfold cm_dispatch, command_matches_glob, command_matches_normal.
  destruct mode; frame;
    auto using command_matches_all_preserves, command_matches_regex_preserves,
      command_matches_fnmatch_preserves, command_matches_glob_inode_preserves,
      command_matches_normal_inode_preserves, command_matches_normal_name_preserves.
Qed.

End StrategyFrames.

#[local] Hint Resolve set_cmnd_fd_preserves command_matches_dir_name_preserves
  command_matches_all_preserves pattern_matched_preserves
  command_matches_fnmatch_preserves command_matches_regex_preserves
  safe_cmnd_strdup_preserves command_matches_dir_inode_preserves
  glob_exact_preserves glob_base_preserves
  command_matches_glob_inode_preserves command_matches_normal_inode_preserves
  command_matches_normal_name_preserves cm_dispatch_preserves : frame.

(** ** Where [safe_cmnd] is replaced *)

(** [bad] keeps [safe_cmnd] and returns false. *)
Lemma wp_bad (fd : Z) (Q : bool -> proc -> Prop) st :
  (forall st', safe_cmnd st' = safe_cmnd st -> Q false st') -> wp (bad fd) Q st.
Proof.
  intros H. unfold bad. apply wp_bind.
  eapply (wp_frame safe_cmnd); [solve [eauto with frame]|].
  intros [] st' Hs. apply wp_ret. auto.
Qed.

(** One step of a walk through a computation: the monad's own steps, the
    tests, and the steps that are known to keep [safe_cmnd]. *)
Ltac wp_step :=
  lazymatch goal with
  | |- wp (ret _) _ _ => apply wp_ret
  | |- wp (gets _) _ _ => apply wp_gets
  | |- wp (bind _ _) _ _ => apply wp_bind
  | |- wp (if ?b then _ else _) _ _ => destruct b eqn:?
  | |- wp (match ?x with _ => _ end) _ _ => destruct x eqn:?
  | |- wp (bad _) _ _ => apply wp_bad; intros ? ?
  | |- wp _ _ _ =>
      eapply (wp_frame safe_cmnd); [solve [eauto with frame]|intros ? ? ?]
  end.

Ltac wp_walk := repeat wp_step.

Lemma wp_any {A} (m : M A) (Q : A -> proc -> Prop) st :
  (forall a st', Q a st') -> wp m Q st.
Proof. unfold wp. auto. Qed.

(** The copy into [safe_cmnd], by cases on the allocation. *)
Lemma wp_safe_cmnd_strdup (W : World) path (Q : bool -> proc -> Prop) st :
  (w_strdup W path = true -> Q true (set_safe_cmnd (Some path) st)) ->
  (w_strdup W path = false -> Q false (set_safe_cmnd None st)) ->
  wp (safe_cmnd_strdup W path) Q st.
Proof.
  unfold wp, safe_cmnd_strdup. destruct (w_strdup W path); auto.
Qed.

Section SafeCmnd.

Context (W : World) (s0 : option string).

Lemma command_matches_dir_inode_keeps dir dlen rootfd icpt digests st :
  safe_cmnd st = s0 ->
  wp (command_matches_dir_inode W dir dlen rootfd icpt digests)
     (fun matched st' => matched = false -> safe_cmnd st' = s0) st.
Proof.
  intros Hs. unfold command_matches_dir_inode. wp_walk.
  all: try congruence.
  apply wp_any. intros. wp_walk. discriminate.
Qed.

End SafeCmnd.

(** ** Steps that only act on descriptors *)

(** What is known after a step that only acts on descriptors. *)
Lemma wp_only_fds {A} (m : M A) (Q : A -> proc -> Prop) st :
  (forall st0, only_fds st0 (snd (m st0))) ->
  (forall a st', only_fds st st' -> Q a st') -> wp m Q st.
Proof. unfold wp. auto. Qed.

Lemma bad_only_fds fd st : only_fds st (snd (bad fd st)).
Proof. apply only_fds_intro; eauto with frame. Qed.

Lemma wp_bad_fds (fd : Z) (Q : bool -> proc -> Prop) st :
  (forall st', only_fds st st' -> Q false st') -> wp (bad fd) Q st.
Proof.
  intros H. unfold wp.
  replace (fst (bad fd st)) with false
    by (unfold bad, bind, ret; destruct (close_fd fd st); reflexivity).
  apply H, bad_only_fds.
Qed.

Create HintDb fds.
#[local] Hint Resolve close_fd_only_fds open_cmnd_only_fds sys_glob_only_fds
  bad_only_fds : fds.

Ltac fds_step :=
  lazymatch goal with
  | |- wp (ret _) _ _ => apply wp_ret
  | |- wp (gets _) _ _ => apply wp_gets
  | |- wp (bind _ _) _ _ => apply wp_bind
  | |- wp (if ?b then _ else _) _ _ => destruct b eqn:?
  | |- wp (match ?x with _ => _ end) _ _ => destruct x eqn:?
  | |- wp (bad _) _ _ => apply wp_bad_fds; intros ? ?
  | |- wp _ _ _ => eapply wp_only_fds; [solve [eauto with fds]|intros ? ? ?]
  end.

Ltac fds_walk := repeat fds_step.

(** Closes a chain of [only_fds] steps. *)
Ltac fds_chain := solve [eauto 8 using only_fds_trans, only_fds_refl].

Section DescriptorSteps.

Context (W : World).

Lemma command_matches_dir_inode_only_fds dir dlen rootfd icpt digests st :
  wp (command_matches_dir_inode W dir dlen rootfd icpt digests)
     (fun matched st' => matched = false -> only_fds st st') st.
Proof.
  unfold command_matches_dir_inode. fds_walk.
  all: try (intros _; fds_chain).
  apply wp_any. intros. fds_walk. discriminate.
Qed.

Lemma only_fds_safe_cmnd st st' : only_fds st st' -> safe_cmnd st' = safe_cmnd st.
Proof. intros (_ & _ & H & _). exact H. Qed.

End DescriptorSteps.

(** ** The dispatcher and [safe_cmnd] *)

#[local] Hint Extern 1 (sudo_user_indep _) => (intros ? ?; reflexivity) : frame.

Section EnterDone.

Context (W : World) {C : Type} (f : proc -> C).
Context (Hos : os_indep f) (Huser : sudo_user_indep f).

Lemma set_cmnd_path_preserves : preserves f (set_cmnd_path W).
Proof. intros st. apply Huser. Qed.

Lemma cm_enter_preserves runchroot info : preserves f (cm_enter W runchroot info).
Proof. pose proof set_cmnd_path_preserves. unfold cm_enter. frame. Qed.

Lemma cm_done_preserves runchroot fds saved info rc :
  preserves f (cm_done runchroot fds saved info rc).
Proof.
  assert (forall c s, preserves f (modify (set_user_cmnd_stat c s)))
    by (intros ? ? ?; apply Huser).
  unfold cm_done. frame.
Qed.

End EnterDone.


(** * The claims *)

(** ** Allocation failure while publishing safe_cmnd *)

(** C2 at the failing input: in the inode build the rule [/bin/] against
    /bin/ls is accepted although the copy of the matched path could not be
    allocated; [safe_cmnd] is left null. *)
Theorem dir_matcher_accepts_after_failed_copy :
  let r := command_matches (Demo.world false) InodeMatch (Some "/bin/")
             None None None [] Demo.ls_l_published in
  w_strdup (Demo.world false) "/bin//ls" = false
  /\ fst (fst r) = true
  /\ safe_cmnd (snd r) = None.
Proof. vm_compute. repeat split. Qed.

(** The verdict of the inode-build directory matcher is the same whether
    or not the copy of the matched path can be allocated. *)
Lemma command_matches_dir_inode_ignores_alloc (W : World) (alloc : string -> bool)
    dir dlen rootfd icpt digests st :
  fst (command_matches_dir_inode (with_strdup alloc W) dir dlen rootfd icpt digests st)
  = fst (command_matches_dir_inode W dir dlen rootfd icpt digests st).
Proof.
  unfold command_matches_dir_inode, bind, gets.
  change (canon_dir_ok (with_strdup alloc W)) with (canon_dir_ok W).
  change (PATH_MAX (with_strdup alloc W)) with (PATH_MAX W).
  change (open_cmnd (with_strdup alloc W)) with (open_cmnd W).
  destruct (negb (canon_dir_ok W dir st)); [reflexivity|].
  destruct (PATH_MAX W <=? _)%nat; [reflexivity|].
  destruct (open_cmnd W _ digests (-1) st) as [[ok fd] st1].
  destruct (negb ok); [reflexivity|].
  change (do_stat (with_strdup alloc W)) with (do_stat W).
  change (digest_matches (with_strdup alloc W)) with (digest_matches W).
  destruct (do_stat W fd _ st1) as [sb|]; [|reflexivity].
  destruct (negb (intercept_ok _ icpt sb st1)); [reflexivity|].
  destruct (same_inode _ sb); [|reflexivity].
  destruct (negb (digest_matches W fd _ digests st1)); [reflexivity|].
  unfold safe_cmnd_strdup, ret. cbn [w_strdup with_strdup].
  destruct (alloc _), (w_strdup W _); cbn;
    repeat match goal with |- context [close_fd ?fd ?s] => destruct (close_fd fd s) end;
    reflexivity.
Qed.

(** The normal strategy fails closed when the copy cannot be allocated. *)
Lemma command_matches_normal_fails_closed (W : World) mode cmnd args rootfd
    icpt digests st :
  CStr.last cmnd <> "/"%char ->
  w_strdup W cmnd = false ->
  fst (command_matches_normal W mode cmnd args rootfd icpt digests st) = false.
Proof.
  intros Hlast Hdup. apply Ascii.eqb_neq in Hlast.
  apply (wp_run (command_matches_normal W mode cmnd args rootfd icpt digests)
           (fun matched _ => matched = false)).
  unfold command_matches_normal, command_matches_normal_inode,
    command_matches_normal_name.
  destruct mode; rewrite Hlast; wp_walk; try reflexivity.
  all: apply wp_safe_cmnd_strdup; intros Hd; [congruence|]; cbn [negb];
    wp_walk; reflexivity.
Qed.

(** The glob strategy fails closed when the copy cannot be allocated: no
    pass ends with a candidate.  What is left is the directory matcher,
    which the basename pass calls for the entries that end in a slash. *)
Section GlobFailsClosed.

Context (W : World) (Hnomem : forall path, w_strdup W path = false).

Lemma glob_exact_no_candidate pathv icpt digests :
  forall fd bad st,
    wp (glob_exact W pathv fd bad icpt digests)
       (fun r _ => no_candidate [] r) st.
Proof.
  induction pathv as [|cp ap IH]; intros fd bad st; cbn [glob_exact].
  - apply wp_ret. exact I.
  - wp_walk; try apply IH; try exact I.
    apply wp_safe_cmnd_strdup; intros Hdup; [rewrite Hnomem in Hdup; discriminate|].
    apply wp_ret. exact I.
Qed.

Lemma glob_base_no_candidate pathv rootfd icpt digests :
  forall fd st,
    wp (glob_base W pathv fd rootfd icpt digests)
       (fun r _ => no_candidate pathv r) st.
Proof.
  induction pathv as [|cp ap IH]; intros fd st; cbn [glob_base].
  - apply wp_ret. exact I.
  - assert (Hweak : forall fd st,
              wp (glob_base W ap fd rootfd icpt digests)
                 (fun r _ => no_candidate (cp :: ap) r) st).
    { intros fd' st'. eapply wp_mono; [|apply IH].
      intros [[c|] f|b|f b] _; cbn; auto.
      intros (c & Hin & Hl). exists c. auto. }
    apply wp_bind. eapply (wp_frame safe_cmnd); [solve [eauto with frame]|].
    intros [] st1 _.
    destruct (Ascii.eqb (CStr.last cp) "/") eqn:Elast.
    { apply Ascii.eqb_eq in Elast. apply wp_bind.
      eapply (wp_frame (fun _ => tt)); [intros ?; reflexivity|].
      intros [] st2 _.
      - apply wp_ret. exists cp. split; [left; reflexivity|exact Elast].
      - apply Hweak. }
    wp_walk; try apply Hweak; try exact I.
    apply wp_safe_cmnd_strdup; intros Hdup; [rewrite Hnomem in Hdup; discriminate|].
    apply wp_ret. exact I.
Qed.

Lemma command_matches_glob_inode_fails_closed cmnd args rootfd icpt digests st :
  fst (command_matches_glob_inode W cmnd args rootfd icpt digests st) = true ->
  exists pathv cp,
    w_glob W (view_of st) cmnd = Some pathv
    /\ In cp pathv /\ CStr.last cp = "/"%char.
Proof.
  apply (wp_run (command_matches_glob_inode W cmnd args rootfd icpt digests)
           (fun matched _ => matched = true -> _)).
  unfold command_matches_glob_inode.
  apply wp_bind, wp_gets. destruct (glob_avoided cmnd st).
  { apply wp_ret. discriminate. }
  apply wp_bind. unfold wp at 1, sys_glob at 1 2. cbn [fst snd].
  fold (view_of st).
  destruct (w_glob W (view_of st) cmnd) as [[|p0 pathv]|];
    try (apply wp_ret; discriminate).
  apply wp_bind, wp_gets. apply wp_bind.
  eapply wp_mono with (Q := fun r _ => no_candidate [] r).
  2:{ match goal with |- wp (if ?b then _ else _) _ _ => destruct b end;
        [apply glob_exact_no_candidate|apply wp_ret; exact I]. }
  intros p1 st1 H1. apply wp_bind.
  eapply wp_mono with (Q := fun r _ => no_candidate (p0 :: pathv) r).
  2:{ destruct p1 as [[c|] f|b|f [|]]; cbn in H1; cbn beta iota.
      - destruct H1.
      - apply wp_ret. exact I.
      - destruct H1 as (c & [] & _).
      - apply wp_ret. exact I.
      - apply glob_base_no_candidate. }
  intros p2 st2 H2.
  destruct p2 as [[c|] f|b|f b]; cbn in H2.
  - destruct H2.
  - wp_walk. discriminate.
  - apply wp_ret. intros _. destruct H2 as (c & Hin & Hl). eauto.
  - wp_walk. discriminate.
Qed.

End GlobFailsClosed.

(** ** The directory matcher under SUDOERS_NAME_MATCH *)

(** The name-match directory matcher never accepts: looking for NUL in the
    remainder of user_cmnd always finds the terminator. *)
Lemma command_matches_dir_name_rejects (W : World) dir dlen rootfd icpt digests st :
  command_matches_dir W NameMatch dir dlen rootfd icpt digests st = (false, st).
Proof.
  unfold command_matches_dir, command_matches_dir_name, bind, gets.
  destruct (negb (CStr.strncmp_eq (user_cmnd (sudo_user st)) dir dlen)
            || negb (Ascii.eqb (CStr.nth dlen (user_cmnd (sudo_user st))) "/"));
    [reflexivity|].
  destruct (strchr_nul (CStr.drop (dlen + 1) (user_cmnd (sudo_user st)))) as [n ->].
  reflexivity.
Qed.

(** C3 at the failing input: under [SUDOERS_NAME_MATCH] the rule [/bin/]
    against the user command /bin//ls satisfies every condition of the
    claim, and the directory matcher returns false. *)
Theorem dir_name_rejects_direct_child :
  let D := "/bin/" in
  let ucmnd := user_cmnd (sudo_user Demo.ls_in_bin) in
  let dlen := String.length D in
  (* user_cmnd starts with D followed by a slash *)
  CStr.strncmp_eq ucmnd D dlen = true
  /\ CStr.nth dlen ucmnd = "/"%char
  (* no further slash in the remainder *)
  /\ CStr.strchr (CStr.drop (dlen + 1) ucmnd) "/" = None
  (* the open and digest checks succeed *)
  /\ fst (fst (open_cmnd (Demo.world true) ucmnd [] (-1) Demo.ls_in_bin)) = true
  /\ digest_matches (Demo.world true) (-1) ucmnd [] Demo.ls_in_bin = true
  (* and yet the matcher fails *)
  /\ fst (command_matches_dir (Demo.world true) NameMatch D dlen (-1) false []
            Demo.ls_in_bin) = false.
Proof. vm_compute. repeat split. Qed.

(** ** A digest mismatch in the exact-path pass *)

(** C4.  In the inode-build glob strategy, let [user_cmnd] be absolute and
    among the glob results, and let the exact-path pass get as far as the
    digest check on it (it can be opened, its stat succeeds, the setid
    guard lets it pass, its inode is the user's) and find the digest wrong.
    Then the exact-path pass ends with [bad_digest] set and no candidate,
    whatever the other entries are; the basename pass is not run (the
    process after the strategy is the one the exact-path pass left, with
    its last descriptor closed); the strategy returns false; [safe_cmnd]
    and [cmnd_fd] are as before. *)
Theorem glob_digest_mismatch_poisons (W : World) (sudoers_cmnd : string)
    (sudoers_args : option string) (rootfd : Z) (is_intercepted : bool)
    (digests : list command_digest) (st : proc) (pathv : list string)
    (sb : stat) :
  glob_avoided sudoers_cmnd st = false ->
  w_glob W (view_of st) sudoers_cmnd = Some pathv ->
  CStr.head (user_cmnd (sudo_user st)) = "/"%char ->
  In (user_cmnd (sudo_user st)) pathv ->
  digests <> [] ->
  w_open W (view_of st) (user_cmnd (sudo_user st)) O_RDONLY_NONBLOCK = None ->
  w_stat W (view_of st) (user_cmnd (sudo_user st)) = Some sb ->
  intercept_ok (user_cmnd (sudo_user st)) is_intercepted sb st = true ->
  same_inode (user_stat (sudo_user st)) sb = true ->
  bytes_match W (w_content W (view_of st) (user_cmnd (sudo_user st))) digests = false ->
  exists fd st1,
    glob_exact W pathv (-1) false is_intercepted digests
      (snd (sys_glob W sudoers_cmnd st)) = (GlobEnd fd true, st1)
    /\ command_matches_glob W InodeMatch sudoers_cmnd sudoers_args rootfd
         is_intercepted digests st = (false, snd (close_fd fd st1))
    /\ safe_cmnd (snd (close_fd fd st1)) = safe_cmnd st
    /\ cmnd_fd (snd (close_fd fd st1)) = cmnd_fd st.
Proof.
  intros Havoid Hglob Habs Hin Hdigests Hopen Hstat Hsetid Hinode Hmismatch.
  destruct (glob_exact_poisoned W is_intercepted digests st sb Hdigests Hopen
              Hstat Hsetid Hinode Hmismatch pathv (-1) false
              (snd (sys_glob W sudoers_cmnd st)) (sys_glob_only_fds W _ st))
    as (fd & st1 & Hrun & Hst1).
  assert (Hex : existsb (String.eqb (user_cmnd (sudo_user st))) pathv = true).
  { apply existsb_exists. exists (user_cmnd (sudo_user st)).
    split; [exact Hin|apply String.eqb_refl]. }
  rewrite Hex in Hrun. cbn [orb] in Hrun.
  exists fd, st1. split; [exact Hrun|].
  pose proof (close_fd_only_fds fd st1) as Hc.
  pose proof (only_fds_trans _ _ _ Hst1 Hc) as (_ & _ & Hs & Hf & _).
  split; [|split; assumption].
  unfold command_matches_glob, command_matches_glob_inode.
  unfold bind at 1, gets at 1. rewrite Havoid.
  unfold bind at 1.
  revert Hrun. unfold sys_glob at 1 2. cbn [snd]. unfold view_of in Hglob.
  rewrite Hglob. intros Hrun.
  destruct pathv as [|p0 pathv]; [destruct Hin|].
  unfold bind at 1, gets at 1. cbn [sudo_user set_os].
  apply Ascii.eqb_eq in Habs. rewrite Habs.
  unfold bind at 1. rewrite Hrun.
  unfold bind at 1, ret at 1.
  unfold bad, bind, ret. destruct (close_fd fd st1). reflexivity.
Qed.

Lemma glob_digest_mismatch_poisons_witness :
  exists fd st1,
    glob_exact (Demo.world true) ["/opt/a/tool"; "/opt/b/tool"] (-1) false
      false Demo.tool_digest
      (snd (sys_glob (Demo.world true) "/opt/*/tool" Demo.tool))
    = (GlobEnd fd true, st1)
    /\ command_matches_glob (Demo.world true) InodeMatch "/opt/*/tool" None
         (-1) false Demo.tool_digest Demo.tool
       = (false, snd (close_fd fd st1))
    /\ safe_cmnd (snd (close_fd fd st1)) = safe_cmnd Demo.tool
    /\ cmnd_fd (snd (close_fd fd st1)) = cmnd_fd Demo.tool.
Proof.
  apply (glob_digest_mismatch_poisons (Demo.world true) "/opt/*/tool" None (-1)
           false Demo.tool_digest Demo.tool ["/opt/a/tool"; "/opt/b/tool"]
           (Demo.mkstat 9 493)).
  - reflexivity.
  - reflexivity.
  - reflexivity.
  - left. reflexivity.
  - discriminate.
  - reflexivity.
  - reflexivity.
  - reflexivity.
  - reflexivity.
  - reflexivity.
Defined.

(** Left to itself, the basename pass would have accepted the later entry
    /opt/b/tool, whose digest is the expected one. *)
Example basename_pass_would_accept :
  fst (glob_base (Demo.world true) ["/opt/a/tool"; "/opt/b/tool"] (-1) (-1)
         false Demo.tool_digest Demo.tool)
  = GlobDone (Some "/opt/b/tool") 0.
Proof. vm_compute. reflexivity. Qed.

(** ** Chroot conflict *)

(** C5.  When the user supplied a chroot and the rule's chroot is neither
    the star nor equal to the user's, [command_matches] returns false, the
    caller's [info] is untouched and the process is exactly as before: no
    system call was made, so the root and the working directory were never
    changed and [pivot_root] was not entered. *)
Theorem chroot_conflict_no_pivot (W : World) (mode : match_mode)
    (sudoers_cmnd sudoers_args : option string) (info : option cmnd_info)
    (digests : list command_digest) (st : proc) (user_root rule_root : string) :
  user_runchroot (sudo_user st) = Some user_root ->
  rule_root <> "*" ->
  rule_root <> user_root ->
  command_matches W mode sudoers_cmnd sudoers_args (Some rule_root) info
    digests st = ((false, info), st).
Proof.
  intros Huser Hstar Hne.
  apply String.eqb_neq in Hstar, Hne.
  unfold command_matches, cm_enter, bind, gets, reconcile_chroot.
  rewrite Huser, Hstar, Hne. reflexivity.
Qed.

Lemma chroot_conflict_no_pivot_witness :
  command_matches (Demo.world true) InodeMatch (Some "/bin/ls") None
    (Some "/srv/b") None [] Demo.ls_chroot
  = ((false, None), Demo.ls_chroot).
Proof.
  apply (chroot_conflict_no_pivot (Demo.world true) InodeMatch (Some "/bin/ls")
           None None [] Demo.ls_chroot "/srv/a" "/srv/b").
  - reflexivity.
  - discriminate.
  - discriminate.
Defined.

(** ** Pseudo-commands *)

(** Unless the rule's own chroot is in force, the strategy finds the user
    command as the caller left it. *)
Lemma dispatch_state_user (W : World) runchroot info st :
  user_runchroot (sudo_user st) <> None \/ runchroot = None ->
  sudo_user (dispatch_state W runchroot info st) = sudo_user st.
Proof.
  intros H. unfold dispatch_state.
  assert (Hp : forall new_root, preserves sudo_user (pivot_root W new_root))
    by (intros; apply pivot_root_preserves; intros ? ?; reflexivity).
  unfold cm_enter, bind, gets, reconcile_chroot. cbn [fst snd].
  destruct (user_runchroot (sudo_user st)) as [urc|] eqn:Eu.
  - destruct runchroot as [rc|].
    + destruct (negb (String.eqb rc "*") && negb (String.eqb rc urc)); [reflexivity|].
      specialize (Hp urc st).
      destruct (pivot_root W urc st) as [[[] fds] st1]; exact Hp.
    + specialize (Hp urc st).
      destruct (pivot_root W urc st) as [[[] fds] st1]; exact Hp.
  - destruct H as [H| ->]; [congruence|].
    destruct (def_runchroot (defs st)) as [d|]; [|reflexivity].
    destruct (negb (String.eqb d "*")); [|reflexivity].
    specialize (Hp d st).
    destruct (pivot_root W d st) as [[[] fds] st1]; exact Hp.
Qed.

(** C6.  For a rule command that starts neither with a caret nor with a
    slash, [command_matches] returns true only if the rule command is
    [list] or [sudoedit], [user_cmnd] (as the strategy selection finds it)
    is equal to the rule command, and the argument matcher succeeds. *)
Theorem pseudo_command_closure (W : World) (mode : match_mode)
    (sudoers_cmnd : string) (sudoers_args runchroot : option string)
    (info : option cmnd_info) (digests : list command_digest) (st : proc) :
  CStr.head sudoers_cmnd <> "^"%char ->
  CStr.head sudoers_cmnd <> "/"%char ->
  fst (fst (command_matches W mode (Some sudoers_cmnd) sudoers_args runchroot
              info digests st)) = true ->
  (sudoers_cmnd = "list" \/ sudoers_cmnd = "sudoedit")
  /\ user_cmnd (sudo_user (dispatch_state W runchroot info st)) = sudoers_cmnd
  /\ command_args_match W sudoers_cmnd sudoers_args st = true.
Proof.
  intros Hre Hslash.
  apply Ascii.eqb_neq in Hre, Hslash.
  pose proof (cm_enter_user_args W runchroot info st) as Hargs.
  unfold dispatch_state, command_matches, bind.
  destruct (cm_enter W runchroot info st) as [[entered l] st1].
  cbn [snd] in *.
  destruct entered.
  - unfold cm_dispatch. rewrite Hre, Hslash. cbn [negb].
    destruct (String.eqb sudoers_cmnd "list" || String.eqb sudoers_cmnd "sudoedit") eqn:Epseudo.
    + unfold bind, gets, ret. rewrite cm_done_verdict.
      intros H. apply andb_true_iff in H as [Hcmnd Hmatch].
      apply String.eqb_eq in Hcmnd.
      apply orb_true_iff in Epseudo.
      rewrite !String.eqb_eq in Epseudo.
      rewrite <- (command_args_match_user_args W _ _ st1 st Hargs).
      auto.
    + unfold ret. rewrite cm_done_verdict. discriminate.
  - unfold ret. rewrite cm_done_verdict. discriminate.
Qed.

Lemma pseudo_command_closure_witness :
  ("sudoedit" = "list" \/ "sudoedit" = "sudoedit")
  /\ user_cmnd (sudo_user (dispatch_state (Demo.world true) None None Demo.sudoedit))
     = "sudoedit"
  /\ command_args_match (Demo.world true) "sudoedit" (Some "*") Demo.sudoedit = true.
Proof.
  apply (pseudo_command_closure (Demo.world true) InodeMatch "sudoedit"
           (Some "*") None None [] Demo.sudoedit).
  - discriminate.
  - discriminate.
  - reflexivity.
Defined.

(** ** The argument matcher *)

(** C7.  The argument matcher returns true iff one of: the rule has no
    args pattern; the pattern is the two-quote token and the user supplied
    no args; the pattern is of the form [^...$], compiles as a regular
    expression and matches the user's args (the empty string when there are
    none); or the pattern is none of these and fnmatch accepts the user's
    args, with the pathname flag set exactly when the rule command is
    [sudoedit]. *)
Theorem command_args_match_iff (W : World) (sudoers_cmnd : string)
    (sudoers_args : option string) (st : proc) :
  command_args_match W sudoers_cmnd sudoers_args st = true <->
    sudoers_args = None
    \/ (sudoers_args = Some empty_args_token /\ user_args (sudo_user st) = None)
    \/ (exists body,
          sudoers_args = Some ("^" ++ body ++ "$")
          /\ w_regcomp W ("^" ++ body ++ "$") = true
          /\ w_regexec W ("^" ++ body ++ "$") (args_or_empty st) = 0)
    \/ (exists pattern pathname,
          sudoers_args = Some pattern
          /\ pattern <> empty_args_token
          /\ (forall body, pattern <> "^" ++ body ++ "$")
          /\ (pathname = true <-> sudoers_cmnd = "sudoedit")
          /\ w_fnmatch W pattern (args_or_empty st) pathname = true).
Proof.
  unfold command_args_match, args_or_empty, regex_matches.
  destruct sudoers_args as [sa|]; [|intuition].
  destruct (String.eqb empty_args_token sa) eqn:Etok.
  - apply String.eqb_eq in Etok. subst sa. split.
    + destruct (user_args (sudo_user st)); [discriminate|]. auto.
    + intros [H|[[_ ->]|[(body & H & _)|(p & pn & H & Hne & _)]]];
        try discriminate; try reflexivity.
      congruence.
  - apply String.eqb_neq in Etok.
    destruct (Ascii.eqb (CStr.head sa) "^"
              && ((0 <? String.length sa)%nat && Ascii.eqb (CStr.last sa) "$")) eqn:Eanch.
    + apply anchored_iff in Eanch as [body ->]. split.
      * intros H. right. right. left. exists body.
        destruct (w_regcomp W ("^" ++ body ++ "$")); [|discriminate].
        simpl in H. apply Z.eqb_eq in H. auto.
      * intros [H|[[H _]|[(b & H & Hc & Hx)|(p & pn & H & _ & Hb & _)]]];
          try discriminate.
        -- assert (Hb : "^" ++ b ++ "$" = "^" ++ body ++ "$") by congruence.
           rewrite Hb in Hc, Hx. rewrite Hc, Hx. reflexivity.
        -- exfalso. apply (Hb body). congruence.
    + assert (Hna : forall body, sa <> "^" ++ body ++ "$").
      { intros body Hb. assert (Ha : exists b, sa = "^" ++ b ++ "$") by eauto.
        apply anchored_iff in Ha. congruence. }
      split.
      * intros H. right. right. right.
        exists sa, (String.eqb sudoers_cmnd "sudoedit").
        repeat split; auto.
        -- apply String.eqb_eq.
        -- intros ->. apply String.eqb_refl.
      * intros [H|[[H _]|[(b & H & _)|(p & pn & H & _ & _ & Hpn & Hm)]]];
          try discriminate.
        -- congruence.
        -- exfalso. apply (Hna b). congruence.
        -- assert (p = sa) by congruence. subst p.
           replace (String.eqb sudoers_cmnd "sudoedit") with pn; [exact Hm|].
           destruct pn.
           ++ symmetry. apply String.eqb_eq. apply Hpn. reflexivity.
           ++ symmetry. apply String.eqb_neq. intros E. apply Hpn in E. discriminate.
Qed.

(** ** Scripts and /dev/fd *)





(** After a pivot the probe is relative to the old root: on the example
    host, where the relative path does not resolve, the script's
    descriptor is closed and none is published. *)
Example script_after_pivot_without_dev_fd :
  let W := Demo.world true in
  let st := set_os {| fdtab := <[5 := {| fe_obj := DirAt "/";
                                         fe_flag := O_RDONLY_DIRECTORY;
                                         fe_cloexec := false |}]>
                                 (fdtab (os Demo.deploy));
                      cur := {| v_root := "/srv/a"; v_cwd := "/srv/a" |};
                      trace := [] |} Demo.deploy in
  let st' := snd (set_cmnd_fd W 3 5 st) in
  w_stat W {| v_root := "/srv/a"; v_cwd := "/" |} "dev/fd/3" = None
  /\ cmnd_fd st' = -1
  /\ fds_of st' !! 3 = None
  /\ trace (os st') = [EvClose 4; EvClose 3].
Proof. vm_compute. repeat split. Qed.

(** ** The glob short circuit *)

(** C9.  In the inode-build glob strategy, when the rule pattern does not
    end in a slash and its basename has no meta characters and differs from
    [user_base], the strategy returns false and leaves the process exactly
    as it was: glob(3) is not called (the trace has no new entry). *)
Theorem glob_short_circuit (W : World) (sudoers_cmnd : string)
    (sudoers_args : option string) (rootfd : Z) (is_intercepted : bool)
    (digests : list command_digest) (st : proc) :
  CStr.last sudoers_cmnd <> "/"%char ->
  has_meta (sudo_basename sudoers_cmnd) = false ->
  user_base (sudo_user st) <> sudo_basename sudoers_cmnd ->
  command_matches_glob W InodeMatch sudoers_cmnd sudoers_args rootfd
    is_intercepted digests st = (false, st).
Proof.
  intros Hlast Hmeta Hbase.
  unfold command_matches_glob, command_matches_glob_inode, glob_avoided, bind, gets.
  apply Ascii.eqb_neq in Hlast. apply String.eqb_neq in Hbase.
  rewrite Hlast, Hmeta, Hbase. reflexivity.
Qed.

Lemma glob_short_circuit_witness :
  command_matches_glob (Demo.world true) InodeMatch "/usr/*/ls" None (-1)
    false [] Demo.cat = (false, Demo.cat).
Proof.
  apply (glob_short_circuit (Demo.world true) "/usr/*/ls" None (-1) false []
           Demo.cat).
  - discriminate.
  - reflexivity.
  - discriminate.
Defined.

(** ** ALL and files that cannot be opened *)

(** C10.  In the inode build, when [user_cmnd] contains a slash, the open
    attempt of the ALL strategy failed and the stat of [user_cmnd]
    succeeds, the strategy returns false, whatever the digest list, the
    empty list included.  (Read backwards: an open failure is only
    tolerated for a file that cannot be stat'ed.) *)
Theorem all_rejects_unopenable_file (W : World) (rootfd : Z)
    (is_intercepted : bool) (digests : list command_digest) (st : proc)
    (sb : stat) :
  CStr.strchr (user_cmnd (sudo_user st)) "/" <> None ->
  fst (fst (open_cmnd W (user_cmnd (sudo_user st)) digests (-1) st)) = false ->
  sys_stat W (user_cmnd (sudo_user st)) st = Some sb ->
  fst (command_matches_all W InodeMatch rootfd is_intercepted digests st) = false.
Proof.
  intros Hslash Hopen Hstat.
  pose proof (open_cmnd_failed W _ _ _ _ Hopen) as Hfd.
  pose proof (open_cmnd_view W (user_cmnd (sudo_user st)) digests (-1) st) as Hview.
  unfold command_matches_all, bind, gets. cbn [fst snd].
  destruct (CStr.strchr (user_cmnd (sudo_user st)) "/"); [|congruence].
  destruct (open_cmnd W (user_cmnd (sudo_user st)) digests (-1) st)
    as [[ok fd] st1].
  cbn [fst snd] in *. subst ok fd.
  unfold do_stat. cbn [Z.eqb negb].
  unfold sys_stat in *. unfold view_of in Hview. rewrite Hview, Hstat.
  reflexivity.
Qed.

Lemma all_rejects_unopenable_file_witness :
  fst (command_matches_all (Demo.world true) InodeMatch (-1) false []
         Demo.root_tool) = false.
Proof.
  apply (all_rejects_unopenable_file (Demo.world true) (-1) false []
           Demo.root_tool (Demo.mkstat 10 448)).
  - discriminate.
  - reflexivity.
  - reflexivity.
Defined.

(** A file that can neither be opened nor be found does not stop ALL. *)
Lemma all_tolerates_missing_file (W : World) rootfd icpt st :
  fst (fst (open_cmnd W (user_cmnd (sudo_user st)) [] (-1) st)) = false ->
  sys_stat W (user_cmnd (sudo_user st)) st = None ->
  fst (command_matches_all W InodeMatch rootfd icpt [] st) = true.
Proof.
  intros Hopen Hstat.
  pose proof (open_cmnd_failed W _ _ _ _ Hopen) as Hfd.
  pose proof (open_cmnd_view W (user_cmnd (sudo_user st)) [] (-1) st) as Hview.
  unfold command_matches_all, bind, gets. cbn [fst snd].
  destruct (CStr.strchr (user_cmnd (sudo_user st)) "/").
  - destruct (open_cmnd W (user_cmnd (sudo_user st)) [] (-1) st) as [[ok fd] st1].
    cbn [fst snd] in *. subst ok fd.
    assert (Hds : do_stat W (-1) (user_cmnd (sudo_user st)) st1 = None).
    { unfold do_stat, sys_stat in *. cbn. unfold view_of in Hview.
      rewrite Hview. exact Hstat. }
    rewrite Hds.
    cbv beta iota delta [digest_matches negb ret].
    destruct (set_cmnd_fd W (-1) rootfd st1). reflexivity.
  - cbv beta iota delta [digest_matches negb ret].
    destruct (set_cmnd_fd W (-1) rootfd st). reflexivity.
Qed.

(** * Scenarios of the specification, run on the example host *)

(** Literal match: the rule /bin/ls against [ls -l] resolved to /bin/ls,
    no digest.  The match succeeds, /bin/ls is published, and without
    fdexec=always no descriptor is. *)
Example scenario_literal_match :
  let r := command_matches (Demo.world true) InodeMatch (Some "/bin/ls") None
             None None [] Demo.ls_l in
  fst (fst r) = true
  /\ safe_cmnd (snd r) = Some "/bin/ls"
  /\ cmnd_fd (snd r) = -1.
Proof. vm_compute. repeat split. Qed.

(** Glob with basename mismatch: the rule /bin/*.sh against /bin/ls is
    rejected.  The basename of the pattern has a meta character, so it is
    the expansion that rejects it, not the short circuit: glob(3) is
    called. *)
Example scenario_glob_basename_mismatch :
  let r := command_matches (Demo.world true) InodeMatch (Some "/bin/*.sh") None
             None None [] Demo.ls_l in
  glob_avoided "/bin/*.sh" Demo.ls_l = false
  /\ fst (fst r) = false
  /\ trace (os (snd r)) = [EvGlob "/bin/*.sh"].
Proof. vm_compute. repeat split. Qed.

(** Intercepted setid guard: ALL against the setuid /usr/bin/passwd, for an
    intercepted exec, with intercept_allow_setid off. *)
Example scenario_intercepted_setid :
  fst (fst (command_matches (Demo.world true) InodeMatch None None None
              (Some Demo.intercepted_info) [] Demo.passwd)) = false.
Proof. vm_compute. reflexivity. Qed.

(** Script descriptor exec: fdexec=always and a rule for a script, where
    /dev/fd exists.  The descriptor is published with close-on-exec
    cleared. *)
Example scenario_script_descriptor :
  let r := command_matches (Demo.world true) InodeMatch
             (Some "/usr/local/bin/deploy") None None None []
             Demo.deploy_always in
  fst (fst r) = true
  /\ safe_cmnd (snd r) = Some "/usr/local/bin/deploy"
  /\ cmnd_fd (snd r) = 0
  /\ fe_cloexec <$> fdtab (os (snd r)) !! 0 = Some false.
Proof. vm_compute. repeat split. Qed.

(** * Further properties of the code *)

(** ** Command tags *)

(** Decides the tests on tag values. *)
Ltac tag_cases :=
  unfold TAG_SET, UNSPEC, IMPLIED in *;
  repeat match goal with
         | |- context [?a =? ?b] => destruct (Z.eqb_spec a b)
         | H : context [?a =? ?b] |- _ => destruct (Z.eqb_spec a b)
         end;
  cbn in *; try congruence; try lia.

Lemma tag_unset (a : Z) : negb (a =? UNSPEC) = false -> a = UNSPEC.
Proof. tag_cases. Qed.

Lemma tag_unchanged (n o : Z) :
  n <> IMPLIED -> TAG_SET n && negb (n =? o) = false ->
  (if negb (n =? UNSPEC) then n else o) = o.
Proof. tag_cases. Qed.

Lemma tag_merged_unchanged (n o : Z) :
  TAG_SET n && negb (n =? (if negb (n =? UNSPEC) then n else o)) = false.
Proof. tag_cases. Qed.

(** X1. [TAGS_MERGE] is associative, and tags that are all UNSPEC, as
    [TAGS_INIT] leaves them, are its identity on both sides: merging them
    changes nothing, merging into them copies. *)
Theorem TAGS_MERGE_monoid (a b c x : cmndtag) :
  TAGS_MERGE (TAGS_MERGE a b) c = TAGS_MERGE a (TAGS_MERGE b c)
  /\ TAGS_MERGE a (TAGS_INIT x) = a
  /\ TAGS_MERGE (TAGS_INIT x) a = a.
Proof.
  destruct a, b, c. unfold TAGS_MERGE, TAGS_INIT. cbn.
  split; [|split]; f_equal; tag_cases.
Qed.

Lemma merged_tag_set (a b : Z) :
  negb ((if negb (b =? UNSPEC) then b else a) =? UNSPEC)
  = negb (a =? UNSPEC) || negb (b =? UNSPEC).
Proof. tag_cases. Qed.

Lemma orb_pairs (a1 a2 b1 b2 c1 c2 d1 d2 e1 e2 f1 f2 g1 g2 h1 h2 : bool) :
  (a1 || a2) || (b1 || b2) || (c1 || c2) || (d1 || d2)
  || (e1 || e2) || (f1 || f2) || (g1 || g2) || (h1 || h2)
  = (a1 || b1 || c1 || d1 || e1 || f1 || g1 || h1)
    || (a2 || b2 || c2 || d2 || e2 || f2 || g2 || h2).
Proof.
  destruct a1, b1, c1, d1, e1, f1, g1, h1; cbn [orb];
    rewrite ?orb_true_r, ?orb_true_l; reflexivity.
Qed.

(** X2. After a merge some tag is set exactly when some tag was set in
    one of the two operands; and no tag is set exactly in the tags that
    [TAGS_INIT] produces. *)
Theorem TAGS_SET_merge (t t2 : cmndtag) :
  TAGS_SET (TAGS_MERGE t t2) = TAGS_SET t || TAGS_SET t2
  /\ (TAGS_SET t = false <-> t = TAGS_INIT t).
Proof.
  split.
  - unfold TAGS_SET, TAGS_MERGE. cbn [follow intercept log_input log_output
      noexec nopasswd send_mail setenv].
    rewrite !merged_tag_set.
    apply orb_pairs.
  - destruct t. unfold TAGS_SET, TAGS_INIT. cbn. split.
    + intros H. repeat (apply orb_false_iff in H; destruct H as [H ?]).
      f_equal; apply tag_unset; assumption.
    + intros H. injection H as -> -> -> -> -> -> -> ->. reflexivity.
Qed.

(** X3. Once [nt] has been merged into [ot], [TAGS_CHANGED] finds no
    difference between the result and [nt]; and when it finds none between
    [ot] and an [nt] without IMPLIED tags, merging [nt] into [ot] changes
    nothing. *)
Theorem TAGS_CHANGED_merge (ot nt : cmndtag) :
  TAGS_CHANGED (TAGS_MERGE ot nt) nt = false
  /\ (no_implied nt -> TAGS_CHANGED ot nt = false -> TAGS_MERGE ot nt = ot).
Proof.
  destruct ot, nt. unfold TAGS_CHANGED, TAGS_MERGE, no_implied. cbn. split.
  - rewrite !tag_merged_unchanged. reflexivity.
  - intros (I1 & I2 & I3 & I4 & I5 & I6 & I7 & I8) Hc.
    repeat (apply orb_false_iff in Hc; destruct Hc as [Hc ?]).
    f_equal; apply tag_unchanged; assumption.
Qed.

Lemma TAGS_CHANGED_merge_witness :
  let ot := {| follow := ALLOW; intercept := UNSPEC; log_input := DENY;
               log_output := UNSPEC; noexec := UNSPEC; nopasswd := ALLOW;
               send_mail := UNSPEC; setenv := IMPLIED |} in
  let nt := {| follow := ALLOW; intercept := UNSPEC; log_input := UNSPEC;
               log_output := UNSPEC; noexec := UNSPEC; nopasswd := ALLOW;
               send_mail := UNSPEC; setenv := UNSPEC |} in
  TAGS_MERGE ot nt = ot.
Proof.
  intros ot nt. apply (TAGS_CHANGED_merge ot nt).
  - unfold no_implied, IMPLIED. cbn. repeat split; discriminate.
  - reflexivity.
Defined.

(** ** The safe opener *)

Lemma fresh_fd_not_minus_one (t : gmap Z fdent) : (fresh_fd t =? -1) = false.
Proof. pose proof (fresh_fd_nonneg t). apply Z.eqb_neq. lia. Qed.

Lemma open_cmnd_cases (W : World) (path : string)
    (digests : list command_digest) (fd0 : Z) (st : proc) :
  let r := open_cmnd W path digests fd0 st in
  match fst r with
  | (false, fd) => fd = fd0 /\ fds_of (snd r) = fds_of st
  | (true, fd) =>
      (fd = fd0 /\ snd r = st
       /\ def_fdexec (defs st) <> always /\ digests = [])
      \/ (fd = fresh_fd (fds_of st)
          /\ exists fl,
               fds_of (snd r)
               = <[fd := cmnd_entry (view_of st) path fl]> (fds_of st)
               /\ (fl = O_RDONLY_NONBLOCK
                   \/ (fl = O_EXEC /\ digests = []
                       /\ w_open W (view_of st) path O_RDONLY_NONBLOCK
                          = Some EACCES)))
  end.
Proof.
  intros r. assert (Hr : r = open_cmnd W path digests fd0 st) by reflexivity.
  clearbody r. revert Hr.
  unfold open_cmnd, bind, gets, fds_of, view_of.
  destruct (bool_decide (def_fdexec (defs st) = always)) eqn:Eexec;
    destruct digests as [|d ds]; cbn [negb andb TAILQ_EMPTY].
  3:{ apply bool_decide_eq_false in Eexec. intros ->. cbn. left. auto. }
  all: unfold sys_open at 1;
    destruct (w_open W (cur (os st)) path O_RDONLY_NONBLOCK) as [e|] eqn:Eopen.
  all: try (intros ->; cbn; right; split; [reflexivity|];
            exists O_RDONLY_NONBLOCK;
            split; [rewrite alter_insert_eq; reflexivity|left; reflexivity]).
  all: destruct e; rewrite ?andb_false_r, ?andb_true_r;
    try (intros ->; cbn; split; reflexivity).
  all: destruct (have_O_EXEC W); try (intros ->; cbn; split; reflexivity).
  all: unfold sys_open; cbn [os set_os cur log set_fdtab];
    destruct (w_open W (cur (os st)) path O_EXEC);
    [intros ->; cbn; split; reflexivity|].
  all: intros ->; cbn; right; split; [reflexivity|]; exists O_EXEC;
    split; [rewrite alter_insert_eq; reflexivity|right; auto].
Qed.

(** X4. What [open_cmnd] leaves behind.  When it reports failure, [*fdp]
    and the descriptor table are as before.  When it reports success,
    either nothing was opened (fdexec is not [always] and there are no
    digests), or the lowest free descriptor now refers to [path] with
    close-on-exec set; that descriptor is execute-only only if there are
    no digests and the read-only open was refused with EACCES. *)
Theorem open_cmnd_outcome (W : World) (path : string)
    (digests : list command_digest) (fd0 : Z) (st : proc) :
  let r := open_cmnd W path digests fd0 st in
  match fst r with
  | (false, fd) => fd = fd0 /\ fds_of (snd r) = fds_of st
  | (true, fd) =>
      (fd = fd0 /\ snd r = st
       /\ def_fdexec (defs st) <> always /\ digests = [])
      \/ (fd = fresh_fd (fds_of st)
          /\ exists fl,
               fds_of (snd r)
               = <[fd := cmnd_entry (view_of st) path fl]> (fds_of st)
               /\ (fl = O_RDONLY_NONBLOCK
                   \/ (fl = O_EXEC /\ digests = []
                       /\ w_open W (view_of st) path O_RDONLY_NONBLOCK
                          = Some EACCES)))
  end.
Proof. exact (open_cmnd_cases W path digests fd0 st). Qed.

(** ** Who owns a descriptor *)

Lemma close_fd_fds (fd : Z) (st : proc) :
  fds_of (snd (close_fd fd st)) = closed_tab fd (fds_of st).
Proof. unfold close_fd, closed_tab. destruct (negb (fd =? -1)); reflexivity. Qed.

Lemma close_fd_cmnd_fd (fd : Z) (st : proc) :
  cmnd_fd (snd (close_fd fd st)) = cmnd_fd st.
Proof. apply close_fd_preserves. intros ? ?; reflexivity. Qed.

Lemma holds_nothing (st : proc) (path : string) : holds st path (-1) st.
Proof. repeat split. Qed.

(** Closing the descriptor that is held gives the table back. *)
Lemma holds_closed (st : proc) path fd st1 :
  holds st path fd st1 ->
  fds_of (snd (close_fd fd st1)) = fds_of st
  /\ cmnd_fd (snd (close_fd fd st1)) = cmnd_fd st.
Proof.
  intros (Hc & Hv & Ht). rewrite close_fd_fds, close_fd_cmnd_fd.
  split; [|exact Hc]. unfold closed_tab.
  destruct (fd =? -1); cbn [negb]; [exact Ht|].
  destruct Ht as (Hfree & fl & ->). apply delete_insert_id, Hfree.
Qed.

(** [open_cmnd] called with no descriptor at hand holds what it returns. *)
Lemma open_cmnd_holds (W : World) path digests st :
  holds st path (snd (fst (open_cmnd W path digests (-1) st)))
    (snd (open_cmnd W path digests (-1) st)).
Proof.
  pose proof (open_cmnd_cases W path digests (-1) st) as H. cbn zeta in H.
  split; [apply open_cmnd_preserves; intros ? ?; reflexivity|].
  split; [apply open_cmnd_view|].
  destruct (open_cmnd W path digests (-1) st) as [[[] fd] st1];
    cbn [fst snd] in *.
  - destruct H as [(-> & -> & _)|(-> & fl & Hfl & _)]; [reflexivity|].
    rewrite fresh_fd_not_minus_one. split; [apply fresh_fd_free|eauto].
  - destruct H as [-> H]. exact H.
Qed.

(** ** The hand-off of the descriptor *)

Lemma closed_tab_lookup_ne (fd k : Z) (t : gmap Z fdent) :
  k <> fd -> closed_tab fd t !! k = t !! k.
Proof.
  intros H. unfold closed_tab. destruct (negb (fd =? -1)); [|reflexivity].
  apply lookup_delete_ne. congruence.
Qed.

Lemma closed_tab_lookup_eq (fd : Z) (t : gmap Z fdent) :
  fd <> -1 -> closed_tab fd t !! fd = None.
Proof.
  intros H. unfold closed_tab. apply Z.eqb_neq in H. rewrite H.
  apply lookup_delete_eq.
Qed.

Lemma set_cmnd_fd_effect (W : World) (fd rootfd : Z) (st : proc) :
  let st' := snd (set_cmnd_fd W fd rootfd st) in
  (cmnd_fd st' = fd \/ cmnd_fd st' = -1)
  /\ (cmnd_fd st' = -1 -> fd <> -1 -> fds_of st' !! fd = None)
  /\ (cmnd_fd st <> -1 -> cmnd_fd st <> fd -> fds_of st' !! cmnd_fd st = None)
  /\ (forall k, k <> fd -> k <> cmnd_fd st -> fds_of st' !! k = fds_of st !! k)
  /\ (cmnd_fd st' = fd -> cmnd_fd st <> fd ->
      fe_obj <$> fds_of st' !! fd = fe_obj <$> fds_of st !! fd).
Proof.
  intros st'.
  assert (Hst : st' = snd (set_cmnd_fd W fd rootfd st)) by reflexivity.
  clearbody st'. revert Hst.
  unfold set_cmnd_fd, bind, gets, modify.
  pose proof (close_fd_fds (cmnd_fd st) st) as Ht.
  pose proof (close_fd_cmnd_fd (cmnd_fd st) st) as Hc.
  destruct (close_fd (cmnd_fd st) st) as [[] st1]. cbn [snd] in Ht, Hc.
  set (held := cmnd_fd st) in *.
  assert (Hne : forall k, k <> held -> fds_of st1 !! k = fds_of st !! k).
  { intros k Hk. rewrite Ht. apply closed_tab_lookup_ne, Hk. }
  assert (Hheld : held <> -1 -> fds_of st1 !! held = None).
  { intros Hk. rewrite Ht. apply closed_tab_lookup_eq, Hk. }
  unfold fds_of in *.
  destruct (fd =? -1) eqn:Efd; cbn [negb].
  { apply Z.eqb_eq in Efd. subst fd. intros ->. cbn.
    repeat split; auto; try congruence.
    intros _ H. rewrite Hne by congruence. reflexivity. }
  apply Z.eqb_neq in Efd.
  destruct (bool_decide (def_fdexec (defs st1) = never)).
  { intros ->. cbn. repeat split; auto.
    - intros _ _. apply lookup_delete_eq.
    - intros H1 H2. rewrite lookup_delete_ne by congruence. auto.
    - intros k H1 H2. rewrite lookup_delete_ne by congruence. auto.
    - congruence. }
  destruct (is_script W fd st1).
  2:{ intros ->. cbn. repeat split; auto; try congruence.
      intros _ H. rewrite Hne by congruence. reflexivity. }
  destruct (dev_fd_stat W fd rootfd st1).
  - intros ->. cbn. repeat split; auto; try congruence.
    + intros H1 H2. rewrite lookup_alter_ne by congruence. auto.
    + intros k H1 H2. rewrite lookup_alter_ne by congruence. auto.
    + intros _ H. rewrite lookup_alter_eq, <- Hne by congruence.
      destruct (fdtab (os st1) !! fd); reflexivity.
  - intros ->. cbn. repeat split; auto.
    + intros _ _. apply lookup_delete_eq.
    + intros H1 H2. rewrite lookup_delete_ne by congruence. auto.
    + intros k H1 H2. rewrite lookup_delete_ne by congruence. auto.
    + congruence.
Qed.

(** X5. [set_cmnd_fd] takes the descriptor over.  Afterwards [cmnd_fd] is
    [fd] or -1; when it is -1, [fd] has been closed; the descriptor that
    was held before is closed; every other descriptor is as it was; and a
    descriptor that is handed over still refers to the same file. *)
Theorem set_cmnd_fd_takes_over (W : World) (fd rootfd : Z) (st : proc) :
  let st' := snd (set_cmnd_fd W fd rootfd st) in
  (cmnd_fd st' = fd \/ cmnd_fd st' = -1)
  /\ (cmnd_fd st' = -1 -> fd <> -1 -> fds_of st' !! fd = None)
  /\ (cmnd_fd st <> -1 -> cmnd_fd st <> fd -> fds_of st' !! cmnd_fd st = None)
  /\ (forall k, k <> fd -> k <> cmnd_fd st -> fds_of st' !! k = fds_of st !! k)
  /\ (cmnd_fd st' = fd -> cmnd_fd st <> fd ->
      fe_obj <$> fds_of st' !! fd = fe_obj <$> fds_of st !! fd).
Proof. exact (set_cmnd_fd_effect W fd rootfd st). Qed.

(** X6. With fdexec=never no descriptor is handed over: [cmnd_fd] is -1
    after [set_cmnd_fd], and the descriptor it was given is closed. *)
Theorem set_cmnd_fd_never (W : World) (fd rootfd : Z) (st : proc) :
  def_fdexec (defs st) = never ->
  let st' := snd (set_cmnd_fd W fd rootfd st) in
  cmnd_fd st' = -1 /\ (fd <> -1 -> fds_of st' !! fd = None).
Proof.
  intros Hnever st'. subst st'.
  assert (Hdefs : defs (snd (close_fd (cmnd_fd st) st)) = defs st)
    by (apply close_fd_preserves; intros ? ?; reflexivity).
  unfold set_cmnd_fd, bind, gets, modify, fds_of.
  destruct (close_fd (cmnd_fd st) st) as [[] st1]. cbn [snd] in Hdefs.
  destruct (fd =? -1) eqn:Efd; cbn [negb].
  - apply Z.eqb_eq in Efd. subst fd. cbn. split; [reflexivity|congruence].
  - rewrite Hdefs, bool_decide_eq_true_2 by exact Hnever. cbn.
    split; [reflexivity|]. intros _. apply lookup_delete_eq.
Qed.

Lemma set_cmnd_fd_never_witness :
  cmnd_fd (snd (set_cmnd_fd (Demo.world true) 3 (-1) Cases.ls_never)) = -1
  /\ (3 <> -1 ->
      fds_of (snd (set_cmnd_fd (Demo.world true) 3 (-1) Cases.ls_never)) !! 3
      = None).
Proof.
  apply (set_cmnd_fd_never (Demo.world true) 3 (-1) Cases.ls_never).
  reflexivity.
Defined.

(** X7. A descriptor that is not a script is handed over as it is: with
    fdexec other than [never], [cmnd_fd] becomes [fd] and nothing is done
    to the operating system beyond closing the descriptor that was held;
    the close-on-exec flag that [open_cmnd] set stays. *)
Theorem set_cmnd_fd_plain (W : World) (fd rootfd : Z) (st : proc) :
  fd <> -1 ->
  def_fdexec (defs st) <> never ->
  is_script W fd (held_closed st) = false ->
  let st' := snd (set_cmnd_fd W fd rootfd st) in
  cmnd_fd st' = fd /\ os st' = os (held_closed st).
Proof.
  intros Hfd Hexec Hscript st'. subst st'.
  assert (Hdefs : defs (held_closed st) = defs st)
    by (apply (close_fd_preserves defs); intros ? ?; reflexivity).
  revert Hscript Hdefs. unfold held_closed, set_cmnd_fd, bind, gets, modify.
  destruct (close_fd (cmnd_fd st) st) as [[] st1]. cbn [snd].
  intros Hscript Hdefs.
  apply Z.eqb_neq in Hfd. rewrite Hfd. cbn [negb].
  rewrite Hdefs, bool_decide_eq_false_2 by exact Hexec.
  rewrite Hscript. cbn. auto.
Qed.

Lemma set_cmnd_fd_plain_witness :
  cmnd_fd (snd (set_cmnd_fd (Demo.world true) 3 (-1) Cases.ls_always)) = 3
  /\ os (snd (set_cmnd_fd (Demo.world true) 3 (-1) Cases.ls_always))
     = os (held_closed Cases.ls_always).
Proof.
  apply (set_cmnd_fd_plain (Demo.world true) 3 (-1) Cases.ls_always).
  - lia.
  - discriminate.
  - reflexivity.
Defined.

(** ** Accounting for descriptors *)

Lemma same_desc_refl st : same_desc st st.
Proof. repeat split. Qed.

Lemma same_desc_holds st st' path : same_desc st st' -> holds st path (-1) st'.
Proof. intros (? & ? & ?). repeat split; assumption. Qed.

Lemma holds_same_desc st st' path : holds st path (-1) st' -> same_desc st st'.
Proof. intros (? & ? & ?). repeat split; assumption. Qed.

Lemma holds_rebase st sa sb path fd :
  same_desc st sa -> holds sa path fd sb -> holds st path fd sb.
Proof.
  unfold holds. intros (Hc & Hv & Ht) (Hc' & Hv' & Ht').
  rewrite Hc, Hv, Ht in *. auto.
Qed.

Lemma holds_close st path fd stk :
  holds st path fd stk -> same_desc st (snd (close_fd fd stk)).
Proof.
  intros H. destruct (holds_closed _ _ _ _ H) as [Ht Hc].
  split; [exact Hc|]. split; [|exact Ht].
  rewrite (close_fd_view fd stk). apply H.
Qed.

Lemma set_cmnd_fd_view (W : World) fd rootfd :
  preserves view_of (set_cmnd_fd W fd rootfd).
Proof.
  assert (forall k, preserves view_of (modify (set_cmnd_fd_var k)))
    by (intros ? ?; reflexivity).
  unfold set_cmnd_fd. frame.
Qed.

Lemma same_desc_handed st st' : same_desc st st' -> handed st st'.
Proof.
  intros (Hc & Hv & Ht). split; [exact Hv|]. split.
  - intros. rewrite Ht. reflexivity.
  - unfold cmnd_fd_ok. rewrite Hc, Ht. auto.
Qed.

(** [set_cmnd_fd] on a descriptor that is held. *)
Lemma holds_handed (W : World) st path fd rootfd stk :
  holds st path fd stk -> handed st (snd (set_cmnd_fd W fd rootfd stk)).
Proof.
  intros (Hc & Hv & Ht).
  pose proof (set_cmnd_fd_effect W fd rootfd stk) as (Ha & Hb & _ & Hd & He).
  pose proof (set_cmnd_fd_view W fd rootfd stk) as Hv'.
  set (st' := snd (set_cmnd_fd W fd rootfd stk)) in *.
  rewrite Hc in *. split; [congruence|].
  destruct (fd =? -1) eqn:Efd.
  - apply Z.eqb_eq in Efd. subst fd. split.
    + intros k H1 H2. rewrite <- Ht. apply Hd; [|exact H1].
      destruct Ha as [Ha|Ha]; congruence.
    + intros _. left. destruct Ha as [Ha|Ha]; exact Ha.
  - apply Z.eqb_neq in Efd. destruct Ht as (Hfree & fl & Ht). split.
    + intros k H1 H2. destruct (decide (k = fd)) as [->|Hk].
      * rewrite Hfree. apply Hb; [|exact Efd].
        destruct Ha as [Ha|Ha]; congruence.
      * rewrite Hd, Ht by assumption. apply lookup_insert_ne. congruence.
    + intros Hok. destruct Ha as [Ha|Ha]; [|left; exact Ha]. right.
      assert (Hne : cmnd_fd st <> fd).
      { destruct Hok as [Hok|[e Hok]]; [congruence|]. congruence. }
      specialize (He Ha Hne). rewrite Ha.
      rewrite Ht, lookup_insert_eq in He.
      destruct (fds_of st' !! fd); [eauto|discriminate].
Qed.

Lemma accounted_same st st' b : same_desc st st' -> accounted st b st'.
Proof. intros H. split; [auto|apply same_desc_handed, H]. Qed.

Lemma accounted_handed st st' : handed st st' -> accounted st true st'.
Proof. intros H. split; [discriminate|exact H]. Qed.

Section HeldRules.

Context (W : World) (st : proc) (path : string) (fd : Z) (stk : proc).
Context (Hheld : holds st path fd stk).

Lemma wp_close_held (Q : unit -> proc -> Prop) :
  (forall st', holds st path (-1) st' -> Q tt st') -> wp (close_fd fd) Q stk.
Proof.
  intros H. unfold wp. destruct (fst (close_fd fd stk)).
  apply H, same_desc_holds, (holds_close _ _ _ _ Hheld).
Qed.

Lemma wp_bad_held (Q : bool -> proc -> Prop) :
  (forall st', same_desc st st' -> Q false st') -> wp (bad fd) Q stk.
Proof.
  intros H. unfold wp.
  replace (bad fd stk) with (false, snd (close_fd fd stk))
    by (unfold bad, bind, ret; destruct (close_fd fd stk); reflexivity).
  apply H, (holds_close _ _ _ _ Hheld).
Qed.

Lemma wp_strdup_held p (Q : bool -> proc -> Prop) :
  (forall b st', holds st path fd st' -> Q b st') ->
  wp (safe_cmnd_strdup W p) Q stk.
Proof.
  intros H. unfold wp, safe_cmnd_strdup.
  destruct (w_strdup W p); apply H, Hheld.
Qed.

Lemma wp_handover rootfd (Q : unit -> proc -> Prop) :
  (forall st', handed st st' -> Q tt st') -> wp (set_cmnd_fd W fd rootfd) Q stk.
Proof.
  intros H. unfold wp. destruct (fst (set_cmnd_fd W fd rootfd stk)).
  apply H, (holds_handed W st path), Hheld.
Qed.

Lemma wp_glob_held pattern (Q : option (list string) -> proc -> Prop) :
  (forall gl st', holds st path fd st' -> Q gl st') ->
  wp (sys_glob W pattern) Q stk.
Proof. intros H. apply H, Hheld. Qed.

End HeldRules.

Lemma wp_open_held (W : World) st p0 stk path digests
    (Q : bool * Z -> proc -> Prop) :
  holds st p0 (-1) stk ->
  (forall ok fd st', holds st path fd st' -> Q (ok, fd) st') ->
  wp (open_cmnd W path digests (-1)) Q stk.
Proof.
  intros Hs H. unfold wp.
  pose proof (open_cmnd_holds W path digests stk) as Ho.
  destruct (open_cmnd W path digests (-1) stk) as [[ok fd] st1].
  apply H. eapply holds_rebase; [eapply holds_same_desc, Hs|exact Ho].
Qed.

(** Walks through a strategy, keeping track of the descriptor it holds. *)
Ltac held_step :=
  lazymatch goal with
  | |- wp (ret _) _ _ => apply wp_ret; cbn beta iota
  | |- wp (gets _) _ _ => apply wp_gets
  | |- wp (bind _ _) _ _ => apply wp_bind
  | |- wp (if ?b then _ else _) _ _ => destruct b eqn:?
  | |- wp (match ?x with _ => _ end) _ _ => destruct x eqn:?
  | H : holds _ _ ?fd ?stk |- wp (bad ?fd) _ ?stk =>
      apply (wp_bad_held _ _ _ _ H); intros ? ?
  | H : holds _ _ ?fd ?stk |- wp (close_fd ?fd) _ ?stk =>
      apply (wp_close_held _ _ _ _ H); intros ? ?
  | H : holds _ _ (-1) ?stk |- wp (open_cmnd _ _ _ (-1)) _ ?stk =>
      apply (wp_open_held _ _ _ _ _ _ _ H); intros ? ? ? ?; cbn beta iota
  | H : holds _ _ ?fd ?stk |- wp (safe_cmnd_strdup _ _) _ ?stk =>
      apply (wp_strdup_held _ _ _ _ _ H); intros ? ? ?
  | H : holds _ _ ?fd ?stk |- wp (set_cmnd_fd _ ?fd _) _ ?stk =>
      apply (wp_handover _ _ _ _ _ H); intros ? ?
  | H : holds _ _ ?fd ?stk |- wp (sys_glob _ _) _ ?stk =>
      apply (wp_glob_held _ _ _ _ _ H); intros ? ? ?
  end.

Ltac held_walk := repeat held_step.

(** Closes the leaves of a walk. *)
Ltac held_done :=
  solve [ apply accounted_same; assumption
        | apply accounted_handed; assumption
        | apply accounted_same; eapply holds_same_desc; eassumption ].

Section Accounting.

Context (W : World) (st : proc).

Lemma command_matches_dir_inode_tidy dir dlen rootfd icpt digests :
  same_desc st
    (snd (command_matches_dir_inode W dir dlen rootfd icpt digests st)).
Proof.
  apply (wp_run (command_matches_dir_inode W dir dlen rootfd icpt digests)
           (fun _ st' => same_desc st st')).
  pose proof (holds_nothing st "") as H0.
  unfold command_matches_dir_inode.
  apply wp_bind, wp_gets. destruct (negb (canon_dir_ok W dir st)).
  { apply wp_ret, same_desc_refl. }
  apply wp_bind, wp_gets.
  destruct (PATH_MAX W <=? _)%nat.
  { apply wp_ret, same_desc_refl. }
  apply wp_bind. held_step.
  apply wp_bind.
  apply wp_mono with (Q := fun _ st'' => holds st
    (dir ++ "/" ++ user_base (sudo_user st)) fd st'').
  - intros res st2 H2. held_walk. eapply holds_same_desc; eassumption.
  - held_walk; assumption.
Qed.

End Accounting.

Lemma wp_dir_inode_held (W : World) st p0 stk dir dlen rootfd icpt digests
    (Q : bool -> proc -> Prop) :
  holds st p0 (-1) stk ->
  (forall b st', holds st p0 (-1) st' -> Q b st') ->
  wp (command_matches_dir_inode W dir dlen rootfd icpt digests) Q stk.
Proof.
  intros Hs H. apply H, same_desc_holds.
  apply holds_same_desc in Hs.
  pose proof (command_matches_dir_inode_tidy W stk dir dlen rootfd icpt digests)
    as Hd.
  destruct Hs as (? & ? & ?), Hd as (? & ? & ?). repeat split; congruence.
Qed.

Ltac held_start st :=
  let H := fresh "Hst" in pose proof (holds_nothing st "") as H.

Section StrategyAccounting.

Context (W : World) (st : proc).

Lemma command_matches_dir_name_accounted dir dlen rootfd icpt digests :
  wp (command_matches_dir_name W dir dlen rootfd icpt digests) (accounted st) st.
Proof.
  held_start st. unfold command_matches_dir_name. held_walk; held_done.
Qed.

Lemma command_matches_all_accounted mode rootfd icpt digests :
  wp (command_matches_all W mode rootfd icpt digests) (accounted st) st.
Proof.
  held_start st. unfold command_matches_all. held_walk; held_done.
Qed.

Lemma pattern_matched_accounted mode cmnd args path rootfd icpt digests :
  wp (pattern_matched W mode cmnd args path rootfd icpt digests) (accounted st) st.
Proof.
  held_start st. unfold pattern_matched. held_walk; held_done.
Qed.

Lemma command_matches_fnmatch_accounted mode cmnd args rootfd icpt digests :
  wp (command_matches_fnmatch W mode cmnd args rootfd icpt digests)
     (accounted st) st.
Proof.
  unfold command_matches_fnmatch. held_walk;
    try apply pattern_matched_accounted; apply accounted_same, same_desc_refl.
Qed.

Lemma command_matches_regex_accounted mode cmnd args rootfd icpt digests :
  wp (command_matches_regex W mode cmnd args rootfd icpt digests)
     (accounted st) st.
Proof.
  unfold command_matches_regex. held_walk;
    try apply pattern_matched_accounted; apply accounted_same, same_desc_refl.
Qed.

Lemma command_matches_normal_inode_accounted cmnd args rootfd icpt digests :
  wp (command_matches_normal_inode W cmnd args rootfd icpt digests)
     (accounted st) st.
Proof.
  held_start st. unfold command_matches_normal_inode.
  destruct (Ascii.eqb (CStr.last cmnd) "/").
  { apply (wp_dir_inode_held W st "" st); [assumption|].
    intros b st' H. apply accounted_same. eapply holds_same_desc, H. }
  held_walk; held_done.
Qed.

Lemma command_matches_normal_name_accounted cmnd args rootfd icpt digests :
  wp (command_matches_normal_name W cmnd args rootfd icpt digests)
     (accounted st) st.
Proof.
  held_start st. unfold command_matches_normal_name.
  destruct (Ascii.eqb (CStr.last cmnd) "/").
  { apply command_matches_dir_name_accounted. }
  held_walk; held_done.
Qed.

Lemma glob_exact_held pathv icpt digests :
  forall fd bad_digest p stk,
    holds st p fd stk ->
    wp (glob_exact W pathv fd bad_digest icpt digests) (pass_held st) stk.
Proof.
  induction pathv as [|cp ap IH]; intros fd bad_digest p stk Hs;
    cbn [glob_exact].
  - apply wp_ret. exists p. exact Hs.
  - held_walk; try (eapply IH; eassumption); cbn; eauto.
Qed.

Lemma glob_base_held pathv rootfd icpt digests :
  forall fd p stk,
    holds st p fd stk ->
    wp (glob_base W pathv fd rootfd icpt digests) (pass_held st) stk.
Proof.
  induction pathv as [|cp ap IH]; intros fd p stk Hs; cbn [glob_base].
  - apply wp_ret. exists p. exact Hs.
  - apply wp_bind. held_step.
    destruct (Ascii.eqb (CStr.last cp) "/").
    { apply wp_bind.
      eapply wp_dir_inode_held; [eassumption|].
      intros [] st2 H2; cbn beta iota.
      - apply wp_ret. cbn. eapply holds_same_desc, H2.
      - eapply IH, H2. }
    held_walk; try (eapply IH; eassumption); cbn; eauto.
Qed.

Lemma command_matches_glob_inode_accounted cmnd args rootfd icpt digests :
  wp (command_matches_glob_inode W cmnd args rootfd icpt digests)
     (accounted st) st.
Proof.
  held_start st. unfold command_matches_glob_inode.
  apply wp_bind, wp_gets. destruct (glob_avoided cmnd st).
  { apply wp_ret. held_done. }
  apply wp_bind. held_step.
  destruct gl as [[|p0 pathv]|]; try (apply wp_ret; held_done).
  apply wp_bind, wp_gets.
  apply wp_bind.
  apply wp_mono with (Q := pass_held st).
  2:{ destruct (Ascii.eqb (CStr.head (user_cmnd (sudo_user st'))) "/").
      - eapply glob_exact_held; eassumption.
      - apply wp_ret. cbn. eauto. }
  intros p1 st1 H1. apply wp_bind.
  apply wp_mono with (Q := pass_held st).
  2:{ destruct p1 as [cp fd|b|fd [|]]; try (apply wp_ret; exact H1).
      destruct H1 as [p H1]. eapply glob_base_held; eassumption. }
  intros p2 st2 H2.
  destruct p2 as [[cp|] fd|b|fd bd]; cbn [pass_held] in H2.
  - destruct H2 as [p H2]. held_walk; held_done.
  - destruct H2 as [p H2]. held_walk; held_done.
  - apply wp_ret. held_done.
  - destruct H2 as [p H2]. held_walk; held_done.
Qed.

Lemma cm_dispatch_accounted mode cmnd args rootfd icpt digests :
  wp (cm_dispatch W mode cmnd args rootfd icpt digests) (accounted st) st.
Proof.
  unfold cm_dispatch, command_matches_glob, command_matches_normal.
  destruct cmnd as [c|]; [|apply command_matches_all_accounted].
  destruct (Ascii.eqb (CStr.head c) "^");
    [apply command_matches_regex_accounted|].
  destruct (negb (Ascii.eqb (CStr.head c) "/")).
  { held_walk; apply accounted_same, same_desc_refl. }
  destruct (has_meta c).
  - apply wp_bind, wp_gets. destruct (def_fast_glob (defs st));
      [apply command_matches_fnmatch_accounted|].
    destruct mode;
      [apply command_matches_glob_inode_accounted
      |apply command_matches_fnmatch_accounted].
  - destruct mode;
      [apply command_matches_normal_inode_accounted
      |apply command_matches_normal_name_accounted].
Qed.

End StrategyAccounting.

(** Without a chroot [command_matches] is the strategy selection. *)
Lemma command_matches_no_chroot (W : World) mode cmnd args runchroot info
    digests st :
  no_chroot runchroot st ->
  command_matches W mode cmnd args runchroot info digests st
  = (let r := cm_dispatch W mode cmnd args (-1)
                match info with Some i => intercepted i | None => false end
                digests st in
     ((fst r, info), snd r)).
Proof.
  intros (Hu & -> & Hd).
  unfold command_matches, cm_enter, reconcile_chroot, bind, gets, ret.
  rewrite Hu, Hd. cbn.
  destruct (cm_dispatch W mode cmnd args (-1) _ digests st) as [rc st1].
  reflexivity.
Qed.

(** X8. A rejected match leaves no descriptor behind.  When no chroot is
    in play and [command_matches] returns false, the descriptor table,
    [cmnd_fd], root and working directory are exactly as before the
    call: whatever was opened has been closed again, and the descriptor
    that was held is still held. *)
Theorem command_matches_reject_restores (W : World) (mode : match_mode)
    (sudoers_cmnd sudoers_args runchroot : option string)
    (info : option cmnd_info) (digests : list command_digest) (st : proc) :
  no_chroot runchroot st ->
  fst (fst (command_matches W mode sudoers_cmnd sudoers_args runchroot info
              digests st)) = false ->
  let st' := snd (command_matches W mode sudoers_cmnd sudoers_args runchroot
                    info digests st) in
  cmnd_fd st' = cmnd_fd st /\ view_of st' = view_of st
  /\ fds_of st' = fds_of st.
Proof.
  intros Hno. rewrite (command_matches_no_chroot _ _ _ _ _ _ _ _ Hno).
  cbn zeta. cbn [fst snd]. intros Hrc.
  apply (wp_run _ _ _ (cm_dispatch_accounted W st mode sudoers_cmnd
                         sudoers_args (-1) _ digests)).
  exact Hrc.
Qed.

Lemma command_matches_reject_restores_witness :
  let st := Cases.ls_fdexec in
  let st' := snd (command_matches (Demo.world true) InodeMatch (Some "/bin/ls")
                    (Some "-a") None None [] st) in
  cmnd_fd st' = cmnd_fd st /\ view_of st' = view_of st
  /\ fds_of st' = fds_of st.
Proof.
  apply (command_matches_reject_restores (Demo.world true) InodeMatch
           (Some "/bin/ls") (Some "-a") None None [] Cases.ls_fdexec).
  - repeat split.
  - vm_compute. reflexivity.
Defined.

(** X9. The directory matcher of the inode build gives back every
    descriptor it opened and never publishes one: whatever it returns,
    [cmnd_fd], root, working directory and descriptor table are as it
    found them. *)
Theorem command_matches_dir_inode_same_desc (W : World) (st : proc)
    dir dlen rootfd icpt digests :
  let st' := snd (command_matches_dir_inode W dir dlen rootfd icpt digests st) in
  cmnd_fd st' = cmnd_fd st /\ view_of st' = view_of st
  /\ fds_of st' = fds_of st.
Proof. exact (command_matches_dir_inode_tidy W st dir dlen rootfd icpt digests). Qed.

(** X10. No descriptor leaks and [cmnd_fd] never dangles.  When no chroot
    is in play, whatever [command_matches] returns, every descriptor
    other than the one [cmnd_fd] named before and the one it names
    afterwards is as it was; and if [cmnd_fd] was -1 or an open
    descriptor before the call, it is -1 or an open descriptor after
    it. *)
Theorem command_matches_descriptors (W : World) (mode : match_mode)
    (sudoers_cmnd sudoers_args runchroot : option string)
    (info : option cmnd_info) (digests : list command_digest) (st : proc) :
  no_chroot runchroot st ->
  let st' := snd (command_matches W mode sudoers_cmnd sudoers_args runchroot
                    info digests st) in
  (forall k, k <> cmnd_fd st -> k <> cmnd_fd st' ->
     fds_of st' !! k = fds_of st !! k)
  /\ (cmnd_fd_ok st -> cmnd_fd_ok st').
Proof.
  intros Hno. rewrite (command_matches_no_chroot _ _ _ _ _ _ _ _ Hno).
  cbn zeta. cbn [fst snd].
  apply (wp_run _ _ _ (cm_dispatch_accounted W st mode sudoers_cmnd
                         sudoers_args (-1) _ digests)).
Qed.

Lemma command_matches_descriptors_witness :
  let st := Cases.ls_fdexec in
  let st' := snd (command_matches (Demo.world true) InodeMatch (Some "/bin/ls")
                    (Some "-l") None None [] st) in
  (forall k, k <> cmnd_fd st -> k <> cmnd_fd st' ->
     fds_of st' !! k = fds_of st !! k)
  /\ (cmnd_fd_ok st -> cmnd_fd_ok st').
Proof.
  apply (command_matches_descriptors (Demo.world true) InodeMatch
           (Some "/bin/ls") (Some "-l") None None [] Cases.ls_fdexec).
  repeat split.
Defined.

(** ** What an accepted match has checked *)

(** The verdict of [bad] and of the [done:] part of the directory
    matcher. *)
Lemma bad_false fd st : fst (bad fd st) = false.
Proof. unfold bad, bind, ret. destruct (close_fd fd st). reflexivity. Qed.

Lemma close_fd_safe_cmnd fd st : safe_cmnd (snd (close_fd fd st)) = safe_cmnd st.
Proof. apply close_fd_preserves. intros ? ?; reflexivity. Qed.

(** The directory matcher of the inode build, as a list of its checks. *)
Lemma command_matches_dir_inode_checks (W : World) dir dlen rootfd icpt
    digests st :
  let path := dir ++ "/" ++ user_base (sudo_user st) in
  let o := open_cmnd W path digests (-1) st in
  let st' := snd (command_matches_dir_inode W dir dlen rootfd icpt digests st) in
  (fst (command_matches_dir_inode W dir dlen rootfd icpt digests st) = true
   <-> canon_dir_ok W dir st = true
       /\ (String.length path < PATH_MAX W)%nat
       /\ fst (fst o) = true
       /\ checked W icpt digests path (snd (fst o)) (snd o))
  /\ (fst (command_matches_dir_inode W dir dlen rootfd icpt digests st) = true ->
      safe_cmnd st' = (if w_strdup W path then Some path else None)).
Proof.
  intros path o st'. subst st'.
  apply (wp_run (command_matches_dir_inode W dir dlen rootfd icpt digests)
           (fun b st' =>
              (b = true
               <-> canon_dir_ok W dir st = true
                   /\ (String.length path < PATH_MAX W)%nat
                   /\ fst (fst o) = true
                   /\ checked W icpt digests path (snd (fst o)) (snd o))
              /\ (b = true ->
                  safe_cmnd st' = (if w_strdup W path then Some path else None)))).
  assert (Hu : sudo_user (snd o) = sudo_user st)
    by (apply open_cmnd_preserves; intros ? ?; reflexivity).
  unfold command_matches_dir_inode.
  apply wp_bind, wp_gets.
  destruct (canon_dir_ok W dir st); cbn [negb].
  2:{ apply wp_ret. split; [|congruence].
      split; [congruence|]. intros (H & _). discriminate. }
  apply wp_bind, wp_gets. cbn zeta. fold path.
  destruct (PATH_MAX W <=? String.length path)%nat eqn:Elen.
  { apply Nat.leb_le in Elen. apply wp_ret. split; [|congruence].
    split; [congruence|]. intros (_ & H & _). lia. }
  apply Nat.leb_gt in Elen.
  apply wp_bind. unfold wp at 1. fold o.
  destruct o as [[ok fd] st1]. cbn [fst snd] in *. unfold checked.
  apply wp_bind.
  destruct ok; cbn [negb].
  2:{ wp_walk. split; [|congruence]. split; [congruence|].
      intros (_ & _ & Hc & _). discriminate. }
  apply wp_bind, wp_gets.
  destruct (do_stat W fd path st1) as [sb|] eqn:Estat.
  2:{ wp_walk. split; [|congruence]. split; [congruence|].
      intros (_ & _ & _ & sb & Hc & _). discriminate. }
  apply wp_bind, wp_gets.
  destruct (intercept_ok path icpt sb st1) eqn:Eok; cbn [negb].
  2:{ wp_walk. split; [|congruence]. split; [congruence|].
      intros (_ & _ & _ & sb' & Hc & Hc' & _). congruence. }
  apply wp_bind, wp_gets. rewrite Hu.
  destruct (same_inode (user_stat (sudo_user st)) sb) eqn:Esame.
  2:{ wp_walk. split; [|congruence]. split; [congruence|].
      intros (_ & _ & _ & sb' & Hc & _ & Hc' & _). congruence. }
  apply wp_bind, wp_gets.
  destruct (digest_matches W fd path digests st1) eqn:Edig; cbn [negb].
  2:{ wp_walk. split; [|congruence]. split; [congruence|].
      intros (_ & _ & _ & sb' & Hc1 & _ & _ & Hc). congruence. }
  apply wp_bind.
  apply wp_safe_cmnd_strdup; intros Hdup; rewrite Hdup; wp_walk.
  all: split; [|intros _; cbn in *; congruence].
  all: split; [intros _|reflexivity].
  all: repeat split; try assumption; exists sb; auto.
Qed.

(** X11. The directory matcher of the inode build accepts exactly when
    the canonical directories agree as far as they are known, the path
    [dir/user_base] fits in PATH_MAX, [open_cmnd] succeeds on it, and the
    file passes the stat, setid, inode and digest checks.  Whether the
    path could be copied into [safe_cmnd] plays no part in the verdict;
    it decides only whether [safe_cmnd] is the path or null afterwards. *)
Theorem command_matches_dir_inode_iff (W : World) dir dlen rootfd icpt
    digests st :
  let path := dir ++ "/" ++ user_base (sudo_user st) in
  let o := open_cmnd W path digests (-1) st in
  let st' := snd (command_matches_dir_inode W dir dlen rootfd icpt digests st) in
  (fst (command_matches_dir_inode W dir dlen rootfd icpt digests st) = true
   <-> canon_dir_ok W dir st = true
       /\ (String.length path < PATH_MAX W)%nat
       /\ fst (fst o) = true
       /\ checked W icpt digests path (snd (fst o)) (snd o))
  /\ (fst (command_matches_dir_inode W dir dlen rootfd icpt digests st) = true ->
      safe_cmnd st' = (if w_strdup W path then Some path else None)).
Proof. exact (command_matches_dir_inode_checks W dir dlen rootfd icpt digests st). Qed.

(** [set_cmnd_fd] keeps [safe_cmnd] and publishes the descriptor it was
    given, or none. *)
Lemma wp_set_cmnd_fd_keeps (W : World) fd rootfd (Q : unit -> proc -> Prop) st :
  (forall st',
     safe_cmnd st' = safe_cmnd st ->
     cmnd_fd st' = fd \/ cmnd_fd st' = -1 ->
     Q tt st') ->
  wp (set_cmnd_fd W fd rootfd) Q st.
Proof.
  intros H. unfold wp. destruct (fst (set_cmnd_fd W fd rootfd st)).
  apply H.
  - apply set_cmnd_fd_preserves; intros ? ?; reflexivity.
  - apply (set_cmnd_fd_effect W fd rootfd st).
Qed.

(** A walk that keeps track of [only_fds] and goes through the copy into
    [safe_cmnd] and the hand-off of the descriptor. *)
Ltac acc_step :=
  lazymatch goal with
  | |- wp (safe_cmnd_strdup _ _) _ _ =>
      apply wp_safe_cmnd_strdup; intros ?
  | |- wp (set_cmnd_fd _ _ _) _ _ =>
      apply wp_set_cmnd_fd_keeps; intros ? ? ?
  | _ => fds_step
  end.

Ltac acc_walk := repeat acc_step.

Ltac reflect_checks :=
  repeat match goal with
         | H : negb _ = false |- _ => apply negb_false_iff in H
         | H : negb _ = true |- _ => apply negb_true_iff in H
         | H : String.eqb _ _ = true |- _ => apply String.eqb_eq in H
         | H : _ && _ = true |- _ => apply andb_true_iff in H; destruct H
         | H : (_ =? _) = true |- _ => apply Z.eqb_eq in H
         end.

Lemma only_fds_args (W : World) c args st st1 :
  only_fds st st1 ->
  command_args_match W c args st1 = command_args_match W c args st.
Proof.
  intros (Hu & _). apply command_args_match_user_args.
  unfold user_args_of. rewrite Hu. reflexivity.
Qed.

(** *** The file that was checked *)


(** A process whose descriptors are as in [sd], and that differs from it
    in nothing else, is [sd] but for the log. *)
Lemma at_rest (sd st : proc) :
  only_fds sd st -> same_desc sd st -> st = with_trace (trace (os st)) sd.
Proof.
  destruct sd as [u d s c [t v l]], st as [u' d' s' c' [t' v' l']].
  unfold only_fds, same_desc, with_trace, view_of, fds_of, set_os. cbn.
  intros (-> & -> & -> & -> & ->) (_ & _ & ->). reflexivity.
Qed.

Lemma same_desc_with_trace (t : list event) (st : proc) :
  same_desc st (with_trace t st).
Proof. repeat split. Qed.

Lemma only_fds_with_trace (t : list event) (st : proc) :
  only_fds st (with_trace t st).
Proof. repeat split. Qed.

Lemma between_start (sd st : proc) :
  only_fds sd st -> same_desc sd st -> between sd (-1) st.
Proof.
  intros Ho Hs. split; [exact Ho|]. exists "". apply same_desc_holds, Hs.
Qed.

Lemma between_closed (sd : proc) (fd : Z) (st : proc) :
  between sd fd st ->
  only_fds sd (snd (close_fd fd st)) /\ same_desc sd (snd (close_fd fd st)).
Proof.
  intros (Ho & p & Hh). split.
  - eapply only_fds_trans; [exact Ho|apply close_fd_only_fds].
  - apply (holds_close _ _ _ _ Hh).
Qed.

(** What [open_cmnd] returned is held, whatever it reported. *)
Lemma between_open (W : World) (sd : proc) path digests st ok fd st1 :
  only_fds sd st -> same_desc sd st ->
  open_cmnd W path digests (-1) st = ((ok, fd), st1) ->
  between sd fd st1.
Proof.
  intros Ho Hs E. split.
  - eapply only_fds_trans; [exact Ho|].
    pose proof (open_cmnd_only_fds W path digests (-1) st) as H.
    rewrite E in H. exact H.
  - exists path. eapply holds_rebase; [exact Hs|].
    pose proof (open_cmnd_holds W path digests st) as H.
    rewrite E in H. exact H.
Qed.

Lemma opened_at_rest (W : World) (sd : proc) path digests st fd st1 :
  only_fds sd st -> same_desc sd st ->
  open_cmnd W path digests (-1) st = ((true, fd), st1) ->
  opened W digests sd path fd st1.
Proof.
  intros Ho Hs E. exists (trace (os st)).
  rewrite <- (at_rest sd st Ho Hs). exact E.
Qed.

(** A file that was opened is held, on its path. *)
Lemma opened_holds (W : World) (sd : proc) path digests fd st1 :
  opened W digests sd path fd st1 -> only_fds sd st1 /\ holds sd path fd st1.
Proof.
  intros [t E]. split.
  - eapply only_fds_trans; [apply (only_fds_with_trace t)|].
    pose proof (open_cmnd_only_fds W path digests (-1) (with_trace t sd)) as H.
    rewrite E in H. exact H.
  - eapply holds_rebase; [apply (same_desc_with_trace t)|].
    pose proof (open_cmnd_holds W path digests (with_trace t sd)) as H.
    rewrite E in H. exact H.
Qed.

Lemma holds_set_safe_cmnd st path fd st1 s :
  holds st path fd st1 -> holds st path fd (set_safe_cmnd s st1).
Proof. intros H. exact H. Qed.

Lemma pass_found_incl W sd rootfd icpt digests pathv all r st' :
  incl pathv all ->
  pass_found W sd rootfd icpt digests pathv r st' ->
  pass_found W sd rootfd icpt digests all r st'.
Proof.
  intros Hi. unfold pass_found, found.
  destruct r as [[c|] fd|b|fd bd]; auto.
  - intros (Hd & st2 & (Hin & H) & Hs). split; [exact Hd|].
    exists st2. split; [|exact Hs]. split; [apply Hi, Hin|exact H].
  - intros [H|(cp & st2 & Hd & (Hin & H) & Hs)]; [left; exact H|].
    right. exists cp, st2. split; [exact Hd|]. split; [|exact Hs].
    split; [apply Hi, Hin|exact H].
  - intros (Hb & cp & t & Hin & H). split; [exact Hb|].
    exists cp, t. split; [apply Hi, Hin|exact H].
Qed.

Section GlobFound.

Context (W : World) (sd : proc) (rootfd : Z) (icpt : bool)
  (digests : list command_digest).

(** The checks of one entry, from [open_cmnd] on, in either pass:
    [again] is the rest of the pass. *)
Lemma entry_checked (pathv : list string) (cp : string) (st : proc)
    (again : Z -> bool -> M glob_pass) (mismatch : Z -> M glob_pass) :
  In cp pathv ->
  (cp = user_cmnd (sudo_user sd) \/ user_base (sudo_user sd) = sudo_basename cp) ->
  only_fds sd st -> same_desc sd st ->
  (forall fd b st1, between sd fd st1 ->
     wp (again fd b) (pass_found W sd rootfd icpt digests pathv) st1) ->
  (forall fd st1, between sd fd st1 ->
     wp (mismatch fd) (pass_found W sd rootfd icpt digests pathv) st1) ->
  wp (r <- open_cmnd W cp digests (-1) ;;
      let (ok, fd) := r in
      if negb ok then again fd false
      else
        sb <- gets (do_stat W fd cp) ;;
        match sb with
        | None => again fd false
        | Some sudoers_stat =>
            iok <- gets (intercept_ok cp icpt sudoers_stat) ;;
            if negb iok then again fd false
            else
              ustat <- gets (fun st => user_stat (sudo_user st)) ;;
              if same_inode ustat sudoers_stat then
                dm <- gets (digest_matches W fd cp digests) ;;
                if negb dm then again fd true
                else
                  copied <- safe_cmnd_strdup W cp ;;
                  ret (GlobDone (if copied then Some cp else None) fd)
              else mismatch fd
        end)
     (pass_found W sd rootfd icpt digests pathv) st.
Proof.
  intros Hin Hname Ho Hs Hagain Hmis.
  apply wp_bind. unfold wp at 1.
  destruct (open_cmnd W cp digests (-1) st) as [[ok fd] st1] eqn:Eopen.
  cbn [fst snd].
  pose proof (between_open W sd cp digests st ok fd st1 Ho Hs Eopen) as Hb.
  destruct ok; cbn [negb]; [|apply Hagain, Hb].
  pose proof (opened_at_rest W sd cp digests st fd st1 Ho Hs Eopen) as Hop.
  apply wp_bind, wp_gets.
  destruct (do_stat W fd cp st1) as [sb|] eqn:Estat; [|apply Hagain, Hb].
  apply wp_bind, wp_gets.
  destruct (intercept_ok cp icpt sb st1) eqn:Eok; cbn [negb];
    [|apply Hagain, Hb].
  apply wp_bind, wp_gets.
  destruct (same_inode (user_stat (sudo_user st1)) sb) eqn:Esame;
    [|apply Hmis, Hb].
  apply wp_bind, wp_gets.
  destruct (digest_matches W fd cp digests st1) eqn:Edig; cbn [negb];
    [|apply Hagain, Hb].
  assert (Hf : found W sd icpt digests pathv cp fd st1).
  { split; [exact Hin|]. split; [exact Hname|]. split; [exact Hop|].
    exists sb. auto. }
  apply wp_bind, wp_safe_cmnd_strdup; intros Hdup; apply wp_ret; cbn.
  - split; [exact Hdup|]. exists st1. auto.
  - right. exists cp, st1. auto.
Qed.

Lemma glob_exact_found (all pathv : list string) :
  incl pathv all ->
  forall fd bad_digest st,
    between sd fd st ->
    wp (glob_exact W pathv fd bad_digest icpt digests)
       (pass_found W sd rootfd icpt digests all) st.
Proof.
  induction pathv as [|cp ap IH]; intros Hincl fd bad_digest st Hb;
    cbn [glob_exact].
  - apply wp_ret. exact Hb.
  - assert (Hin : In cp all) by (apply Hincl; left; reflexivity).
    assert (Hap : incl ap all) by (intros x Hx; apply Hincl; right; exact Hx).
    specialize (IH Hap).
    destruct (between_closed sd fd st Hb) as [Ho Hs].
    apply wp_bind. unfold wp at 1. destruct (fst (close_fd fd st)).
    set (s1 := snd (close_fd fd st)) in *.
    apply wp_bind, wp_gets.
    assert (Hu : sudo_user s1 = sudo_user sd) by apply Ho.
    rewrite Hu.
    destruct (String.eqb cp (user_cmnd (sudo_user sd))) eqn:Ecp; cbn [negb].
    2:{ apply IH, between_start; assumption. }
    apply String.eqb_eq in Ecp.
    apply (entry_checked all cp s1
             (fun fd b => glob_exact W ap fd (b || bad_digest) icpt digests)
             (fun fd => ret (GlobDone None fd))); auto.
    intros fd1 st1 Hb1. apply wp_ret. left. exact Hb1.
Qed.

Lemma glob_base_found (all pathv : list string) :
  incl pathv all ->
  forall fd st,
    between sd fd st ->
    wp (glob_base W pathv fd rootfd icpt digests)
       (pass_found W sd rootfd icpt digests all) st.
Proof.
  induction pathv as [|cp ap IH]; intros Hincl fd st Hb; cbn [glob_base].
  - apply wp_ret. exact Hb.
  - assert (Hin : In cp all) by (apply Hincl; left; reflexivity).
    assert (Hap : incl ap all) by (intros x Hx; apply Hincl; right; exact Hx).
    specialize (IH Hap).
    destruct (between_closed sd fd st Hb) as [Ho Hs].
    apply wp_bind. unfold wp at 1. destruct (fst (close_fd fd st)).
    set (s1 := snd (close_fd fd st)) in *.
    destruct (Ascii.eqb (CStr.last cp) "/") eqn:Elast.
    { apply Ascii.eqb_eq in Elast.
      apply wp_bind. unfold wp at 1.
      pose proof (command_matches_dir_inode_only_fds W cp (String.length cp)
                    rootfd icpt digests s1) as Hdir.
      pose proof (command_matches_dir_inode_tidy W s1 cp (String.length cp)
                    rootfd icpt digests) as Htidy.
      unfold wp in Hdir.
      destruct (command_matches_dir_inode W cp (String.length cp) rootfd icpt
                  digests s1) as [[] s2] eqn:Erun; cbn [fst snd] in *.
      - apply wp_ret. split; [reflexivity|].
        exists cp, (trace (os s1)). split; [exact Hin|]. split; [exact Elast|].
        rewrite <- (at_rest sd s1 Ho Hs). exact Erun.
      - apply IH, between_start.
        + eapply only_fds_trans; [exact Ho|apply Hdir; reflexivity].
        + destruct Hs as (? & ? & ?), Htidy as (? & ? & ?).
          repeat split; congruence. }
    apply wp_bind, wp_gets.
    assert (Hu : sudo_user s1 = sudo_user sd) by apply Ho.
    rewrite Hu.
    destruct (String.eqb (user_base (sudo_user sd)) (sudo_basename cp))
      eqn:Ebase; cbn [negb].
    2:{ apply IH, between_start; assumption. }
    apply String.eqb_eq in Ebase.
    apply wp_bind, wp_gets.
    match goal with
    | |- wp (if negb ?b then _ else _) _ _ => destruct b; cbn [negb]
    end.
    2:{ apply IH, between_start; assumption. }
    apply (entry_checked all cp s1
             (fun fd _ => glob_base W ap fd rootfd icpt digests)
             (fun fd => glob_base W ap fd rootfd icpt digests)); auto.
Qed.

End GlobFound.

(** The hand-off of a descriptor that is held. *)
Lemma wp_publish (W : World) (sd : proc) path fd rootfd (stk : proc)
    (Q : unit -> proc -> Prop) :
  holds sd path fd stk ->
  (forall st', safe_cmnd st' = safe_cmnd stk -> published sd path fd st' ->
     Q tt st') ->
  wp (set_cmnd_fd W fd rootfd) Q stk.
Proof.
  intros Hh H. unfold wp. destruct (fst (set_cmnd_fd W fd rootfd stk)).
  apply H.
  { apply set_cmnd_fd_preserves; intros ? ?; reflexivity. }
  pose proof (set_cmnd_fd_effect W fd rootfd stk) as (Ha & _ & _ & _ & He).
  cbn zeta in Ha, He.
  split; [exact Ha|]. intros Hok Hne.
  destruct Ha as [Ha|Ha]; [|congruence].
  rewrite Ha in Hne |- *.
  destruct Hh as (Hc & Hv & Ht).
  apply Z.eqb_neq in Hne. rewrite Hne in Ht. apply Z.eqb_neq in Hne.
  destruct Ht as (Hfree & fl & Ht).
  rewrite He, Ht, lookup_insert_eq; [reflexivity|exact Ha|].
  rewrite Hc. destruct Hok as [Hok|[e Hok]]; congruence.
Qed.

Lemma sys_glob_at_rest (W : World) pattern (st : proc) :
  fst (sys_glob W pattern st) = w_glob W (view_of st) pattern
  /\ only_fds st (snd (sys_glob W pattern st))
  /\ same_desc st (snd (sys_glob W pattern st)).
Proof. repeat split. Qed.

(** The glob strategy of the inode build, accepted or rejected. *)
Lemma command_matches_glob_inode_run (W : World) cmnd args rootfd icpt
    digests sd :
  wp (command_matches_glob_inode W cmnd args rootfd icpt digests)
     (fun b st' =>
        (b = true ->
         exists pathv cp,
           w_glob W (view_of sd) cmnd = Some pathv /\ In cp pathv
           /\ ((command_args_match W cmnd args sd = true
                /\ w_strdup W cp = true
                /\ safe_cmnd st' = Some cp
                /\ exists fd st2,
                     found W sd icpt digests pathv cp fd st2
                     /\ published sd cp fd st')
               \/ (CStr.last cp = "/"%char
                   /\ exists t,
                        command_matches_dir_inode W cp (String.length cp)
                          rootfd icpt digests (with_trace t sd) = (true, st'))))
        /\ (b = false ->
            safe_cmnd st' = safe_cmnd sd
            \/ exists cp fd st2,
                 glob_found W icpt digests sd cmnd cp fd st2
                 /\ ((w_strdup W cp = false /\ safe_cmnd st' = None)
                     \/ (w_strdup W cp = true
                         /\ command_args_match W cmnd args sd = false
                         /\ safe_cmnd st' = Some cp)))) sd.
Proof.
  unfold command_matches_glob_inode.
  apply wp_bind, wp_gets. destruct (glob_avoided cmnd sd).
  { apply wp_ret. split; [discriminate|]. auto. }
  apply wp_bind. unfold wp at 1.
  destruct (sys_glob_at_rest W cmnd sd) as (Egl & Hgo & Hgs).
  destruct (sys_glob W cmnd sd) as [gl stg]. cbn [fst snd] in *. subst gl.
  destruct (w_glob W (view_of sd) cmnd) as [[|p0 pathv]|] eqn:Eglob;
    try (apply wp_ret; split; [discriminate|];
         intros _; left; apply only_fds_safe_cmnd, Hgo).
  set (pv := p0 :: pathv) in *.
  pose proof (between_start sd stg Hgo Hgs) as Hb0.
  apply wp_bind, wp_gets.
  (* the exact-path pass *)
  apply wp_bind.
  apply wp_mono with (Q := pass_found W sd rootfd icpt digests pv).
  2:{ destruct (Ascii.eqb (CStr.head (user_cmnd (sudo_user stg))) "/").
      - apply glob_exact_found; [apply incl_refl|exact Hb0].
      - apply wp_ret. exact Hb0. }
  intros p1 st1 H1.
  (* the basename pass *)
  apply wp_bind.
  apply wp_mono with (Q := pass_found W sd rootfd icpt digests pv).
  2:{ destruct p1 as [cp fd|b|fd [|]]; try (apply wp_ret; exact H1).
      apply glob_base_found; [apply incl_refl|exact H1]. }
  intros p2 st2 H2.
  destruct p2 as [[cp|] fd|b|fd bd]; cbn [pass_found] in H2.
  - destruct H2 as (Hdup & stc & Hf & ->).
    assert (Hfc := Hf). destruct Hfc as (Hin & Hname & Hop & Hck).
    destruct (opened_holds W sd cp digests fd stc Hop) as [Hoc Hhc].
    assert (Eargs : command_args_match W cmnd args (set_safe_cmnd (Some cp) stc)
                    = command_args_match W cmnd args sd).
    { apply command_args_match_user_args. unfold user_args_of. cbn.
      destruct Hoc as (-> & _). reflexivity. }
    apply wp_bind, wp_gets. rewrite Eargs.
    destruct (command_args_match W cmnd args sd) eqn:Eam.
    + apply wp_bind. apply (wp_publish W sd cp fd rootfd); [exact Hhc|].
      intros st' Hsafe Hpub. apply wp_ret. split; [|discriminate].
      intros _. exists pv, cp. split; [reflexivity|]. split; [exact Hin|].
      left. split; [reflexivity|]. split; [exact Hdup|].
      split; [rewrite Hsafe; reflexivity|]. exists fd, stc. auto.
    + apply wp_bad. intros st' Hsafe. split; [discriminate|].
      intros _. right. exists cp, fd, stc. split; [exists pv; auto|].
      right. split; [exact Hdup|]. split; [reflexivity|].
      rewrite Hsafe. reflexivity.
  - apply wp_bad. intros st' Hsafe. split; [discriminate|]. intros _.
    destruct H2 as [[Ho _]|(cp & stc & Hdup & Hf & ->)].
    + left. rewrite Hsafe. apply only_fds_safe_cmnd, Ho.
    + right. exists cp, fd, stc. split; [exists pv; auto|].
      left. split; [exact Hdup|]. rewrite Hsafe. reflexivity.
  - apply wp_ret. destruct H2 as (-> & cp & t & Hin & Hl & Hrun).
    split; [|discriminate]. intros _. exists pv, cp.
    split; [reflexivity|]. split; [exact Hin|]. right. eauto.
  - apply wp_bad. intros st' Hsafe. split; [discriminate|]. intros _.
    left. rewrite Hsafe. apply only_fds_safe_cmnd, H2.
Qed.

Section Runs.

Context (W : World) (st : proc).

Lemma command_matches_normal_inode_run c args rootfd icpt digests :
  CStr.last c <> "/"%char ->
  wp (command_matches_normal_inode W c args rootfd icpt digests)
     (fun b st' =>
        (b = true ->
         normal_passed W InodeMatch c args icpt digests st
         /\ w_strdup W c = true /\ safe_cmnd st' = Some c
         /\ published st c (snd (fst (open_cmnd W c digests (-1) st))) st')
        /\ (b = false ->
            safe_cmnd st' = safe_cmnd st
            \/ (normal_passed W InodeMatch c args icpt digests st
                /\ w_strdup W c = false /\ safe_cmnd st' = None))) st.
Proof.
  intros Hlast. unfold command_matches_normal_inode, normal_passed.
  destruct (Ascii.eqb (CStr.last c) "/") eqn:E;
    [apply Ascii.eqb_eq in E; contradiction|]. clear E.
  apply wp_bind, wp_gets.
  destruct (String.eqb (user_base (sudo_user st)) (sudo_basename c)) eqn:Ebase;
    cbn [negb].
  2:{ apply wp_ret. split; [discriminate|auto]. }
  apply String.eqb_eq in Ebase.
  apply wp_bind, wp_gets.
  match goal with
  | |- wp (if negb ?b then _ else _) _ _ => destruct b
  end; cbn [negb].
  2:{ apply wp_bad. intros st' Hs. split; [discriminate|auto]. }
  apply wp_bind. unfold wp at 1.
  pose proof (open_cmnd_holds W c digests st) as Hh.
  pose proof (open_cmnd_only_fds W c digests (-1) st) as Ho.
  destruct (open_cmnd W c digests (-1) st) as [[ok fd] st1].
  cbn [fst snd] in *.
  assert (Hkeep : forall st', safe_cmnd st' = safe_cmnd st1 ->
                              safe_cmnd st' = safe_cmnd st).
  { intros st' ->. apply only_fds_safe_cmnd, Ho. }
  destruct ok; cbn [negb].
  2:{ apply wp_bad. intros st' Hs. split; [discriminate|auto]. }
  assert (Eargs : command_args_match W c args st1 = command_args_match W c args st)
    by (apply only_fds_args, Ho).
  apply wp_bind, wp_gets. apply wp_bind.
  apply wp_mono
    with (Q := fun same s => s = st1 /\ (same = true -> identified W c icpt fd st st1)).
  2:{ unfold identified.
      destruct (user_stat (sudo_user st)) as [us|];
        [destruct (do_stat W fd c st1) as [ss|]|].
      - apply wp_bind, wp_gets.
        destruct (intercept_ok c icpt ss st1); cbn [negb]; apply wp_ret;
          (split; [reflexivity|]); [|discriminate].
        intros H. apply andb_true_iff in H as [H1 H2].
        apply Z.eqb_eq in H1, H2. auto.
      - apply wp_ret. split; [reflexivity|]. apply String.eqb_eq.
      - apply wp_ret. split; [reflexivity|]. apply String.eqb_eq. }
  intros same s [-> Hid]. destruct same; cbn [negb].
  2:{ apply wp_bad. intros st' Hs. split; [discriminate|auto]. }
  specialize (Hid eq_refl).
  apply wp_bind, wp_gets. rewrite Eargs.
  destruct (command_args_match W c args st) eqn:Eam; cbn [negb].
  2:{ apply wp_bad. intros st' Hs. split; [discriminate|auto]. }
  apply wp_bind, wp_gets.
  destruct (digest_matches W fd c digests st1) eqn:Edig; cbn [negb].
  2:{ apply wp_bad. intros st' Hs. split; [discriminate|auto]. }
  apply wp_bind, wp_safe_cmnd_strdup; intros Hdup; cbn [negb].
  - apply wp_bind.
    apply (wp_publish W st c fd rootfd);
      [apply holds_set_safe_cmnd, Hh|].
    intros st' Hs Hpub. apply wp_ret. split; [|discriminate].
    intros _.
    split; [|split; [exact Hdup|split; [exact Hs|exact Hpub]]].
    repeat split; auto.
  - apply wp_bad. intros st' Hs. split; [discriminate|]. intros _.
    right. repeat split; auto.
Qed.

Lemma command_matches_normal_name_run c args rootfd icpt digests :
  CStr.last c <> "/"%char ->
  wp (command_matches_normal_name W c args rootfd icpt digests)
     (fun b st' =>
        (b = true ->
         normal_passed W NameMatch c args icpt digests st
         /\ w_strdup W c = true /\ safe_cmnd st' = Some c
         /\ published st c (snd (fst (open_cmnd W c digests (-1) st))) st')
        /\ (b = false ->
            safe_cmnd st' = safe_cmnd st
            \/ (normal_passed W NameMatch c args icpt digests st
                /\ w_strdup W c = false /\ safe_cmnd st' = None))) st.
Proof.
  intros Hlast. unfold command_matches_normal_name, normal_passed.
  destruct (Ascii.eqb (CStr.last c) "/") eqn:E;
    [apply Ascii.eqb_eq in E; contradiction|]. clear E.
  apply wp_bind, wp_gets.
  destruct (String.eqb (user_cmnd (sudo_user st)) c) eqn:Ecmnd.
  2:{ apply wp_bad. intros st' Hs. split; [discriminate|auto]. }
  apply String.eqb_eq in Ecmnd. rewrite Ecmnd.
  apply wp_bind, wp_gets.
  destruct (command_args_match W c args st) eqn:Eam.
  2:{ apply wp_bad. intros st' Hs. split; [discriminate|auto]. }
  apply wp_bind. unfold wp at 1.
  pose proof (open_cmnd_holds W c digests st) as Hh.
  pose proof (open_cmnd_only_fds W c digests (-1) st) as Ho.
  destruct (open_cmnd W c digests (-1) st) as [[ok fd] st1].
  cbn [fst snd] in *.
  assert (Hkeep : forall st', safe_cmnd st' = safe_cmnd st1 ->
                              safe_cmnd st' = safe_cmnd st).
  { intros st' ->. apply only_fds_safe_cmnd, Ho. }
  destruct ok; cbn [negb].
  2:{ apply wp_bad. intros st' Hs. split; [discriminate|auto]. }
  apply wp_bind, wp_gets.
  destruct (digest_matches W fd c digests st1) eqn:Edig; cbn [negb].
  2:{ apply wp_bad. intros st' Hs. split; [discriminate|auto]. }
  apply wp_bind, wp_safe_cmnd_strdup; intros Hdup; cbn [negb].
  - apply wp_bind.
    apply (wp_publish W st c fd rootfd);
      [apply holds_set_safe_cmnd, Hh|].
    intros st' Hs Hpub. apply wp_ret. split; [|discriminate].
    intros _.
    split; [|split; [exact Hdup|split; [exact Hs|exact Hpub]]].
    repeat split; auto; discriminate.
  - apply wp_bad. intros st' Hs. split; [discriminate|]. intros _.
    right. repeat split; auto; discriminate.
Qed.

(** Both pattern strategies, once the pattern matched [cmnd]. *)
Lemma pattern_matched_run mode c args cmnd rootfd icpt digests :
  wp (pattern_matched W mode c args cmnd rootfd icpt digests)
     (fun b st' =>
        b = true ->
        pattern_passed W mode c args cmnd icpt digests st
        /\ safe_cmnd st' = safe_cmnd st
        /\ published st cmnd (snd (fst (open_cmnd W cmnd digests (-1) st))) st')
     st.
Proof.
  unfold pattern_matched, pattern_passed.
  apply wp_bind, wp_gets.
  destruct (command_args_match W c args st) eqn:Eam;
    [|apply wp_ret; discriminate].
  apply wp_bind. unfold wp at 1.
  pose proof (open_cmnd_holds W cmnd digests st) as Hh.
  pose proof (open_cmnd_only_fds W cmnd digests (-1) st) as Ho.
  destruct (open_cmnd W cmnd digests (-1) st) as [[ok fd] st1].
  cbn [fst snd] in *.
  destruct ok; cbn [negb]; [|apply wp_bad; intros; discriminate].
  apply wp_bind.
  apply wp_mono
    with (Q := fun sok s =>
                 s = st1
                 /\ (sok = true -> mode = InodeMatch ->
                     exists sb, do_stat W fd cmnd st1 = Some sb
                                /\ intercept_ok cmnd icpt sb st1 = true)).
  2:{ destruct mode.
      - apply wp_bind, wp_gets.
        destruct (do_stat W fd cmnd st1) as [sb|].
        + apply wp_gets. split; [reflexivity|]. eauto.
        + apply wp_ret. split; [reflexivity|]. discriminate.
      - apply wp_ret. split; [reflexivity|]. discriminate. }
  intros sok s [-> Hsok]. destruct sok; cbn [negb];
    [|apply wp_bad; intros; discriminate].
  specialize (Hsok eq_refl).
  apply wp_bind, wp_gets.
  destruct (digest_matches W fd cmnd digests st1) eqn:Edig; cbn [negb];
    [|apply wp_bad; intros; discriminate].
  apply wp_bind. apply (wp_publish W st cmnd fd rootfd); [exact Hh|].
  intros st' Hs Hpub. apply wp_ret. intros _.
  split; [repeat split; auto|]. split; [|exact Hpub].
  rewrite Hs. apply only_fds_safe_cmnd, Ho.
Qed.


End Runs.

Section PatternRuns.

Context (W : World) (st : proc) (mode : match_mode) (c : string)
  (args : option string) (rootfd : Z) (icpt : bool)
  (digests : list command_digest).

Lemma command_matches_fnmatch_run :
  wp (command_matches_fnmatch W mode c args rootfd icpt digests)
     (fun b st' =>
        b = true ->
        exists cmnd,
          qualified_cmnd W st = Some cmnd /\ w_fnmatch W c cmnd true = true
          /\ pattern_passed W mode c args cmnd icpt digests st
          /\ safe_cmnd st' = safe_cmnd st
          /\ published st cmnd
               (snd (fst (open_cmnd W cmnd digests (-1) st))) st') st.
Proof.
  unfold command_matches_fnmatch. apply wp_bind, wp_gets.
  destruct (qualified_cmnd W st) as [cmnd|]; [|apply wp_ret; discriminate].
  destruct (w_fnmatch W c cmnd true) eqn:Em; cbn [negb];
    [|apply wp_ret; discriminate].
  eapply wp_mono; [|apply pattern_matched_run].
  cbn beta. intros b st' H Hb. exists cmnd. auto.
Qed.

Lemma command_matches_regex_run :
  wp (command_matches_regex W mode c args rootfd icpt digests)
     (fun b st' =>
        b = true ->
        exists cmnd,
          qualified_cmnd W st = Some cmnd /\ regex_matches W c cmnd = true
          /\ pattern_passed W mode c args cmnd icpt digests st
          /\ safe_cmnd st' = safe_cmnd st
          /\ published st cmnd
               (snd (fst (open_cmnd W cmnd digests (-1) st))) st') st.
Proof.
  unfold command_matches_regex. apply wp_bind, wp_gets.
  destruct (qualified_cmnd W st) as [cmnd|]; [|apply wp_ret; discriminate].
  destruct (regex_matches W c cmnd) eqn:Em; cbn [negb];
    [|apply wp_ret; discriminate].
  eapply wp_mono; [|apply pattern_matched_run].
  cbn beta. intros b st' H Hb. exists cmnd. auto.
Qed.

End PatternRuns.

(** *** The glob strategy *)

(** X12. When the glob strategy of the inode build accepts, glob(3)
    returned a list for the rule's command, and one of two things
    happened.  Either an entry of that list is the user's command or has
    its base name, [open_cmnd] succeeded on it, it passed the stat,
    setid, inode and digest checks on the descriptor and in the process
    that [open_cmnd] left, the arguments matched, the entry was copied
    into [safe_cmnd], and [cmnd_fd] is that descriptor or -1; if
    [cmnd_fd] did not dangle before, what it names afterwards refers to
    the entry.  Or the acceptance is the verdict of the directory matcher
    on an entry of the list that ends in a slash. *)
Theorem command_matches_glob_sound (W : World) cmnd args rootfd icpt
    digests st :
  fst (command_matches_glob W InodeMatch cmnd args rootfd icpt digests st)
  = true ->
  let st' := snd (command_matches_glob W InodeMatch cmnd args rootfd icpt
                    digests st) in
  exists pathv cp,
    w_glob W (view_of st) cmnd = Some pathv /\ In cp pathv
    /\ ((command_args_match W cmnd args st = true
         /\ w_strdup W cp = true
         /\ safe_cmnd st' = Some cp
         /\ (cp = user_cmnd (sudo_user st)
             \/ user_base (sudo_user st) = sudo_basename cp)
         /\ exists fd st2,
              opened W digests st cp fd st2
              /\ checked W icpt digests cp fd st2
              /\ (cmnd_fd st' = fd \/ cmnd_fd st' = -1)
              /\ (cmnd_fd_ok st -> cmnd_fd st' <> -1 ->
                  fe_obj <$> fds_of st' !! cmnd_fd st'
                  = Some (FileAt (view_of st) cp)))
        \/ (CStr.last cp = "/"%char
            /\ exists t,
                 command_matches_dir_inode W cp (String.length cp) rootfd
                   icpt digests (with_trace t st) = (true, st'))).
Proof.
  intros Hacc. cbn zeta.
  destruct (wp_run _ _ _ (command_matches_glob_inode_run W cmnd args rootfd
                            icpt digests st)) as [H _].
  destruct (H Hacc)
    as (pathv & cp & Hg & Hin
        & [(Ha & Hd & Hs & fd & st2 & (_ & Hn & Ho & Hck) & Hp1 & Hp2)|H']).
  - exists pathv, cp. split; [exact Hg|]. split; [exact Hin|]. left.
    repeat (split; [assumption|]). exists fd, st2. auto.
  - exists pathv, cp. auto.
Qed.

Lemma command_matches_glob_sound_witness :
  let W := Demo.world true in
  let st := Cases.ls_fdexec in
  let st' := snd (command_matches_glob W InodeMatch "/bin/l*" None (-1) false
                    [] st) in
  exists pathv cp,
    w_glob W (view_of st) "/bin/l*" = Some pathv /\ In cp pathv
    /\ ((command_args_match W "/bin/l*" None st = true
         /\ w_strdup W cp = true
         /\ safe_cmnd st' = Some cp
         /\ (cp = user_cmnd (sudo_user st)
             \/ user_base (sudo_user st) = sudo_basename cp)
         /\ exists fd st2,
              opened W [] st cp fd st2
              /\ checked W false [] cp fd st2
              /\ (cmnd_fd st' = fd \/ cmnd_fd st' = -1)
              /\ (cmnd_fd_ok st -> cmnd_fd st' <> -1 ->
                  fe_obj <$> fds_of st' !! cmnd_fd st'
                  = Some (FileAt (view_of st) cp)))
        \/ (CStr.last cp = "/"%char
            /\ exists t,
                 command_matches_dir_inode W cp (String.length cp) (-1)
                   false [] (with_trace t st) = (true, st'))).
Proof.
  apply (command_matches_glob_sound (Demo.world true) "/bin/l*" None (-1) false
           [] Cases.ls_fdexec).
  vm_compute. reflexivity.
Defined.

(** On the example host, with fdexec=always, the rule /bin/l* publishes
    the descriptor that was opened on /bin/ls. *)
Example glob_publishes_checked_descriptor :
  let W := Demo.world true in
  let st := Cases.ls_fdexec in
  let st' := snd (command_matches_glob W InodeMatch "/bin/l*" None (-1) false
                    [] st) in
  cmnd_fd st' = 0
  /\ fds_of st' !! 0 = Some (cmnd_entry Demo.home "/bin/ls" O_RDONLY_NONBLOCK).
Proof. vm_compute. split; reflexivity. Qed.

(** *** From the strategies to [command_matches] *)

(** An accepted call went through the strategy selection, and [done:]
    kept [safe_cmnd] and [cmnd_fd]. *)
Lemma command_matches_accepted (W : World) mode cmnd args runchroot info
    digests st :
  fst (fst (command_matches W mode cmnd args runchroot info digests st)) = true ->
  exists rootfd,
    let r := cm_dispatch W mode cmnd args rootfd
               match info with Some i => intercepted i | None => false end
               digests (dispatch_state W runchroot info st) in
    fst r = true
    /\ safe_cmnd (snd (command_matches W mode cmnd args runchroot info
                         digests st)) = safe_cmnd (snd r)
    /\ cmnd_fd (snd (command_matches W mode cmnd args runchroot info
                        digests st)) = cmnd_fd (snd r).
Proof.
  unfold command_matches, dispatch_state, bind.
  destruct (cm_enter W runchroot info st) as [[entered l] sd]. cbn [snd].
  destruct entered.
  - destruct (cm_dispatch W mode cmnd args (fst (l_pivot_fds l)) _ digests sd)
      as [rc s2] eqn:Edisp.
    pose proof (cm_done_verdict (l_runchroot l) (l_pivot_fds l) (l_saved l)
                  (l_info l) rc s2) as Hv.
    pose proof (cm_done_preserves safe_cmnd
                  ltac:(intros ? ?; reflexivity) ltac:(intros ? ?; reflexivity)
                  (l_runchroot l) (l_pivot_fds l) (l_saved l) (l_info l) rc s2)
      as Hs.
    pose proof (cm_done_preserves cmnd_fd
                  ltac:(intros ? ?; reflexivity) ltac:(intros ? ?; reflexivity)
                  (l_runchroot l) (l_pivot_fds l) (l_saved l) (l_info l) rc s2)
      as Hf.
    intros Hacc. exists (fst (l_pivot_fds l)). cbn zeta. rewrite Edisp.
    cbn [fst snd]. split; [congruence|]. split; [exact Hs|exact Hf].
  - unfold ret at 1.
    rewrite (cm_done_verdict (l_runchroot l) (l_pivot_fds l) (l_saved l)
               (l_info l) false sd).
    discriminate.
Qed.

Lemma dispatch_state_args (W : World) runchroot info c args st :
  command_args_match W c args (dispatch_state W runchroot info st)
  = command_args_match W c args st.
Proof. apply command_args_match_user_args, cm_enter_user_args. Qed.

Lemma dispatch_state_defs (W : World) runchroot info st :
  defs (dispatch_state W runchroot info st) = defs st.
Proof. apply (cm_enter_preserves W defs); intros ? ?; reflexivity. Qed.

(** *** The arguments *)

Section ArgsChecked.

Context (W : World) (st : proc) (c : string) (args : option string).
Context (digests : list command_digest).

Ltac args_leaf :=
  intros ?;
  first [ discriminate
        | reflect_checks;
          match goal with
          | H : command_args_match W c args ?s = true |- _ =>
              rewrite <- H; symmetry; apply only_fds_args; fds_chain
          end ].

Lemma pattern_matched_args mode path rootfd icpt :
  wp (pattern_matched W mode c args path rootfd icpt digests)
     (fun b _ => b = true -> command_args_match W c args st = true) st.
Proof. unfold pattern_matched. acc_walk; args_leaf. Qed.

Lemma command_matches_fnmatch_args mode rootfd icpt :
  wp (command_matches_fnmatch W mode c args rootfd icpt digests)
     (fun b _ => b = true -> command_args_match W c args st = true) st.
Proof.
  unfold command_matches_fnmatch. apply wp_bind, wp_gets.
  destruct (qualified_cmnd W st); [|apply wp_ret; discriminate].
  destruct (negb _); [apply wp_ret; discriminate|].
  apply pattern_matched_args.
Qed.

Lemma command_matches_regex_args mode rootfd icpt :
  wp (command_matches_regex W mode c args rootfd icpt digests)
     (fun b _ => b = true -> command_args_match W c args st = true) st.
Proof.
  unfold command_matches_regex. apply wp_bind, wp_gets.
  destruct (qualified_cmnd W st); [|apply wp_ret; discriminate].
  destruct (negb _); [apply wp_ret; discriminate|].
  apply pattern_matched_args.
Qed.

End ArgsChecked.

(** *** The strategy selection *)

(** The directory specification among the rule's command or the entries
    of its expansion that lets a match through without a look at the
    arguments. *)
Lemma cm_dispatch_args (W : World) mode c args rootfd icpt digests st :
  wp (cm_dispatch W mode (Some c) args rootfd icpt digests)
     (fun b _ =>
        b = true ->
        command_args_match W c args st = true
        \/ (mode = InodeMatch /\ CStr.head c = "/"%char
            /\ (CStr.last c = "/"%char
                \/ (has_meta c = true /\ def_fast_glob (defs st) = false
                    /\ exists pathv cp,
                         w_glob W (view_of st) c = Some pathv
                         /\ In cp pathv /\ CStr.last cp = "/"%char)))) st.
Proof.
  unfold cm_dispatch, command_matches_glob, command_matches_normal.
  destruct (Ascii.eqb (CStr.head c) "^").
  { eapply wp_mono; [|apply command_matches_regex_args]. cbn beta. auto. }
  destruct (Ascii.eqb (CStr.head c) "/") eqn:Ehead; cbn [negb].
  2:{ acc_walk; intros ?; try discriminate. reflect_checks. auto. }
  apply Ascii.eqb_eq in Ehead.
  destruct (has_meta c) eqn:Emeta.
  - apply wp_bind, wp_gets. destruct (def_fast_glob (defs st)) eqn:Efast.
    { eapply wp_mono; [|apply command_matches_fnmatch_args]. cbn beta. auto. }
    destruct mode.
    + eapply wp_mono; [|apply command_matches_glob_inode_run].
      cbn beta. intros b st' [H _] Hb.
      destruct (H Hb) as (pathv & cp & Hg & Hin & [(Ha & _)|(Hl & _)]);
        [left; exact Ha|].
      right. repeat split; auto. right. repeat split; auto. eauto.
    + eapply wp_mono; [|apply command_matches_fnmatch_args]. cbn beta. auto.
  - destruct (ascii_dec (CStr.last c) "/") as [Hl|Hl].
    { destruct mode.
      - apply wp_any. intros b st' _. right. auto.
      - unfold command_matches_normal_name.
        apply Ascii.eqb_eq in Hl. rewrite Hl.
        pose proof (command_matches_dir_name_rejects W c (String.length c)
                      rootfd icpt digests st) as Hr.
        unfold command_matches_dir in Hr. unfold wp. rewrite Hr. discriminate. }
    destruct mode.
    + eapply wp_mono;
        [|apply command_matches_normal_inode_run; exact Hl].
      cbn beta. intros b st' [H _] Hb. left. apply (H Hb).
    + eapply wp_mono;
        [|apply command_matches_normal_name_run; exact Hl].
      cbn beta. intros b st' [H _] Hb. left. apply (H Hb).
Qed.

(** X13. The arguments are always looked at, except by the directory
    matcher.  When [command_matches] accepts a rule with a command [c],
    either the argument matcher accepted the user's arguments, or this is
    the inode build and [c] is a directory specification, or a pattern
    whose glob(3) expansion has an entry that ends in a slash. *)
Theorem command_matches_checks_args (W : World) (mode : match_mode)
    (c : string) (sudoers_args runchroot : option string)
    (info : option cmnd_info) (digests : list command_digest) (st : proc) :
  fst (fst (command_matches W mode (Some c) sudoers_args runchroot info
              digests st)) = true ->
  command_args_match W c sudoers_args st = true
  \/ (mode = InodeMatch /\ CStr.head c = "/"%char
      /\ (CStr.last c = "/"%char
          \/ (has_meta c = true /\ def_fast_glob (defs st) = false
              /\ exists pathv cp,
                   w_glob W (view_of (dispatch_state W runchroot info st)) c
                   = Some pathv
                   /\ In cp pathv /\ CStr.last cp = "/"%char))).
Proof.
  intros Hacc.
  destruct (command_matches_accepted _ _ _ _ _ _ _ _ Hacc) as (rootfd & Hd & _).
  pose proof (wp_run _ _ _ (cm_dispatch_args W mode c sudoers_args rootfd _
                              digests (dispatch_state W runchroot info st)) Hd)
    as H.
  rewrite dispatch_state_args, dispatch_state_defs in H. exact H.
Qed.

Lemma command_matches_checks_args_witness :
  let W := Demo.world true in
  command_args_match W "/bin/ls" (Some "-l") Demo.ls_l = true
  \/ (InodeMatch = InodeMatch /\ CStr.head "/bin/ls" = "/"%char
      /\ (CStr.last "/bin/ls" = "/"%char
          \/ (has_meta "/bin/ls" = true
              /\ def_fast_glob (defs Demo.ls_l) = false
              /\ exists pathv cp,
                   w_glob W (view_of (dispatch_state W None None Demo.ls_l))
                     "/bin/ls" = Some pathv
                   /\ In cp pathv /\ CStr.last cp = "/"%char))).
Proof.
  apply (command_matches_checks_args (Demo.world true) InodeMatch "/bin/ls"
           (Some "-l") None None [] Demo.ls_l).
  vm_compute. reflexivity.
Defined.

(** *** The digest *)






(** *** The normal strategy *)

Lemma dispatch_state_no_chroot (W : World) runchroot info st :
  no_chroot runchroot st -> dispatch_state W runchroot info st = st.
Proof.
  intros (Hu & -> & Hd).
  unfold dispatch_state, cm_enter, reconcile_chroot, bind, gets, ret.
  rewrite Hu, Hd. reflexivity.
Qed.

(** The normal strategy on a rule that is no directory and has no meta
    character, as the strategy selection runs it. *)
Lemma cm_dispatch_normal_run (W : World) mode c args rootfd icpt digests st :
  CStr.head c = "/"%char -> has_meta c = false -> CStr.last c <> "/"%char ->
  fst (cm_dispatch W mode (Some c) args rootfd icpt digests st) = true ->
  let st' := snd (cm_dispatch W mode (Some c) args rootfd icpt digests st) in
  normal_passed W mode c args icpt digests st
  /\ w_strdup W c = true /\ safe_cmnd st' = Some c
  /\ published st c (snd (fst (open_cmnd W c digests (-1) st))) st'.
Proof.
  intros Hhead Hmeta Hlast. unfold cm_dispatch, command_matches_normal.
  assert (E1 : Ascii.eqb (CStr.head c) "^" = false)
    by (rewrite Hhead; reflexivity).
  assert (E2 : Ascii.eqb (CStr.head c) "/" = true)
    by (rewrite Hhead; reflexivity).
  rewrite E1, E2, Hmeta. cbn [negb]. intros Hacc.
  destruct mode.
  - exact (proj1 (wp_run _ _ _ (command_matches_normal_inode_run W st c args
                                  rootfd icpt digests Hlast)) Hacc).
  - exact (proj1 (wp_run _ _ _ (command_matches_normal_name_run W st c args
                                  rootfd icpt digests Hlast)) Hacc).
Qed.

(** X15. What an accepted plain rule has established.  When the rule's
    command starts with a slash, has no meta character and does not end
    in a slash, and [command_matches] accepts, then [safe_cmnd] is the
    rule's command, the arguments matched, [open_cmnd] succeeded on the
    rule's command in the process the strategy was entered with, and on
    the descriptor and in the process it left the digest check was
    passed; [cmnd_fd] is that descriptor or -1.  In the name-match build
    the user's command is the rule's command, letter by letter; in the
    inode build their base names agree, and the file behind the
    descriptor has the device and inode of the user's command and passed
    the setid check, or, if one of the two stats is missing, the user's
    command is the rule's command.  When no chroot is in play and
    [cmnd_fd] did not dangle before, what it names afterwards refers to
    the rule's command. *)
Theorem command_matches_normal_sound (W : World) (mode : match_mode)
    (c : string) (sudoers_args runchroot : option string)
    (info : option cmnd_info) (digests : list command_digest) (st : proc) :
  CStr.head c = "/"%char ->
  has_meta c = false ->
  CStr.last c <> "/"%char ->
  fst (fst (command_matches W mode (Some c) sudoers_args runchroot info
              digests st)) = true ->
  let st' := snd (command_matches W mode (Some c) sudoers_args runchroot info
                    digests st) in
  let sd := dispatch_state W runchroot info st in
  let icpt := match info with Some i => intercepted i | None => false end in
  let o := open_cmnd W c digests (-1) sd in
  let fd := snd (fst o) in
  let st1 := snd o in
  safe_cmnd st' = Some c
  /\ w_strdup W c = true
  /\ command_args_match W c sudoers_args st = true
  /\ match mode with
     | InodeMatch => user_base (sudo_user sd) = sudo_basename c
     | NameMatch => user_cmnd (sudo_user sd) = c
     end
  /\ fst (fst o) = true
  /\ digest_matches W fd c digests st1 = true
  /\ (mode = InodeMatch -> identified W c icpt fd sd st1)
  /\ (cmnd_fd st' = fd \/ cmnd_fd st' = -1)
  /\ (no_chroot runchroot st -> cmnd_fd_ok st -> cmnd_fd st' <> -1 ->
      fe_obj <$> fds_of st' !! cmnd_fd st' = Some (FileAt (view_of st) c)).
Proof.
  intros Hhead Hmeta Hlast Hacc st' sd icpt o fd st1.
  assert (Hentry : no_chroot runchroot st -> cmnd_fd_ok st ->
                   cmnd_fd st' <> -1 ->
                   fe_obj <$> fds_of st' !! cmnd_fd st'
                   = Some (FileAt (view_of st) c)).
  { intros Hno. subst st'. revert Hacc.
    rewrite (command_matches_no_chroot _ _ _ _ _ _ _ _ Hno).
    cbn zeta. cbn [fst snd]. fold icpt. intros Hacc.
    apply (cm_dispatch_normal_run W mode c sudoers_args (-1) icpt digests
             st Hhead Hmeta Hlast Hacc). }
  subst st' o fd st1.
  destruct (command_matches_accepted _ _ _ _ _ _ _ _ Hacc)
    as (rootfd & Hd & Hs & Hf).
  cbn zeta in Hd, Hs, Hf. fold sd icpt in Hd, Hs, Hf.
  destruct (cm_dispatch_normal_run W mode c sudoers_args rootfd icpt digests
              sd Hhead Hmeta Hlast Hd)
    as ((_ & Ha & Hn & Ho & Hdig & Hid) & Hdup & Hsafe & Hpub & _).
  rewrite <- (dispatch_state_args W runchroot info c sudoers_args st).
  fold sd. rewrite Hs, Hf in *.
  repeat (split; [assumption|]). exact Hentry.
Qed.

Lemma command_matches_normal_sound_witness :
  let W := Demo.world true in
  let st := Cases.ls_fdexec in
  let st' := snd (command_matches W InodeMatch (Some "/bin/ls") (Some "-l")
                    None None [] st) in
  let sd := dispatch_state W None None st in
  let o := open_cmnd W "/bin/ls" [] (-1) sd in
  let fd := snd (fst o) in
  let st1 := snd o in
  safe_cmnd st' = Some "/bin/ls"
  /\ w_strdup W "/bin/ls" = true
  /\ command_args_match W "/bin/ls" (Some "-l") st = true
  /\ user_base (sudo_user sd) = sudo_basename "/bin/ls"
  /\ fst (fst o) = true
  /\ digest_matches W fd "/bin/ls" [] st1 = true
  /\ (InodeMatch = InodeMatch -> identified W "/bin/ls" false fd sd st1)
  /\ (cmnd_fd st' = fd \/ cmnd_fd st' = -1)
  /\ (no_chroot None st -> cmnd_fd_ok st -> cmnd_fd st' <> -1 ->
      fe_obj <$> fds_of st' !! cmnd_fd st'
      = Some (FileAt (view_of st) "/bin/ls")).
Proof.
  apply (command_matches_normal_sound (Demo.world true) InodeMatch "/bin/ls"
           (Some "-l") None None [] Cases.ls_fdexec).
  - reflexivity.
  - reflexivity.
  - discriminate.
  - vm_compute. reflexivity.
Defined.

(** ** The setid check *)

Lemma setid_bits (m : Z) :
  ISSET m (Z.lor S_ISUID S_ISGID) = Z.testbit m 11 || Z.testbit m 10.
Proof.
  unfold ISSET.
  destruct (Z.testbit m 11 || Z.testbit m 10) eqn:E.
  - apply negb_true_iff, Z.eqb_neq. intros H.
    apply orb_true_iff in E as [E|E].
    + assert (Hb : Z.testbit (Z.land m (Z.lor S_ISUID S_ISGID)) 11 = true)
        by (rewrite Z.land_spec, E; reflexivity).
      rewrite H in Hb. discriminate.
    + assert (Hb : Z.testbit (Z.land m (Z.lor S_ISUID S_ISGID)) 10 = true)
        by (rewrite Z.land_spec, E; reflexivity).
      rewrite H in Hb. discriminate.
  - apply orb_false_iff in E as [E1 E2].
    apply negb_false_iff, Z.eqb_eq, Z.bits_inj'. intros n Hn.
    rewrite Z.land_spec, Z.bits_0.
    destruct (Z.eq_dec n 11) as [->|H11]; [rewrite E1; reflexivity|].
    destruct (Z.eq_dec n 10) as [->|H10]; [rewrite E2; reflexivity|].
    replace (Z.testbit (Z.lor S_ISUID S_ISGID) n) with false;
      [apply andb_false_r|].
    symmetry. change (Z.lor S_ISUID S_ISGID) with (Z.shiftl 3 10).
    rewrite Z.shiftl_spec by exact Hn.
    destruct (Z.lt_ge_cases n 10) as [Hlt|Hge].
    + apply Z.testbit_neg_r. lia.
    + apply Z.bits_above_log2; [lia|]. change (Z.log2 3) with 1. lia.
Qed.

(** X16. [intercept_ok] rejects exactly the set-user-ID and set-group-ID
    files of an intercepted command, unless [intercept_allow_setid] is
    set: it returns false if and only if the command is intercepted, the
    default is off, and bit 11 (04000) or bit 10 (02000) of the mode is
    set. *)
Theorem intercept_ok_false_iff (path : string) (intercepted : bool) (sb : stat)
    (st : proc) :
  intercept_ok path intercepted sb st = false
  <-> intercepted = true
      /\ def_intercept_allow_setid (defs st) = false
      /\ (Z.testbit (st_mode sb) 11 = true \/ Z.testbit (st_mode sb) 10 = true).
Proof.
  unfold intercept_ok. rewrite setid_bits.
  destruct intercepted, (def_intercept_allow_setid (defs st)),
    (Z.testbit (st_mode sb) 11), (Z.testbit (st_mode sb) 10); cbn;
    intuition congruence.
Qed.

(** ** ALL *)

Lemma open_cmnd_nothing (W : World) path fd0 st :
  def_fdexec (defs st) <> always ->
  open_cmnd W path [] fd0 st = ((true, fd0), st).
Proof.
  intros H. unfold open_cmnd, bind, gets.
  rewrite bool_decide_eq_false_2 by exact H. reflexivity.
Qed.

(** [set_cmnd_fd] without a descriptor closes the one that was held and
    publishes none. *)
Lemma set_cmnd_fd_none (W : World) (rootfd : Z) (st : proc) :
  set_cmnd_fd W (-1) rootfd st = (tt, set_cmnd_fd_var (-1) (held_closed st)).
Proof.
  unfold set_cmnd_fd, held_closed, bind, gets, modify, ret. cbn [Z.eqb negb].
  destruct (close_fd (cmnd_fd st) st) as [[] st1]. reflexivity.
Qed.

(** X17. With no digest to check and fdexec other than [always], the rule
    ALL of the inode build opens nothing: it accepts every command,
    except one that has a slash in its name, exists, and fails the setid
    check of an intercepted command.  A rejection leaves the process as
    it was; an accepted match closes the descriptor that [cmnd_fd] held,
    sets [cmnd_fd] to -1, and does nothing else. *)
Theorem command_matches_all_plain (W : World) (rootfd : Z) (icpt : bool)
    (st : proc) :
  def_fdexec (defs st) <> always ->
  let ucmnd := user_cmnd (sudo_user st) in
  let verdict :=
    match CStr.strchr ucmnd "/", sys_stat W ucmnd st with
    | Some _, Some sb => intercept_ok ucmnd icpt sb st
    | _, _ => true
    end in
  command_matches_all W InodeMatch rootfd icpt [] st
  = (verdict,
     if verdict then set_cmnd_fd_var (-1) (held_closed st) else st).
Proof.
  intros Hexec ucmnd verdict. subst ucmnd verdict.
  unfold command_matches_all, bind, gets, ret.
  destruct (CStr.strchr (user_cmnd (sudo_user st)) "/").
  - rewrite (open_cmnd_nothing W _ (-1) st Hexec). cbn [fst snd negb].
    change (do_stat W (-1) (user_cmnd (sudo_user st)) st)
      with (sys_stat W (user_cmnd (sudo_user st)) st).
    destruct (sys_stat W (user_cmnd (sudo_user st)) st) as [sb|].
    + destruct (intercept_ok (user_cmnd (sudo_user st)) icpt sb st);
        cbn [negb digest_matches].
      * rewrite set_cmnd_fd_none. reflexivity.
      * reflexivity.
    + cbn [negb digest_matches]. rewrite set_cmnd_fd_none. reflexivity.
  - cbn [negb digest_matches]. rewrite set_cmnd_fd_none. reflexivity.
Qed.

Lemma command_matches_all_plain_witness :
  let W := Demo.world true in
  let st := Demo.passwd in
  let ucmnd := user_cmnd (sudo_user st) in
  let verdict :=
    match CStr.strchr ucmnd "/", sys_stat W ucmnd st with
    | Some _, Some sb => intercept_ok ucmnd true sb st
    | _, _ => true
    end in
  command_matches_all W InodeMatch (-1) true [] st
  = (verdict,
     if verdict then set_cmnd_fd_var (-1) (held_closed st) else st).
Proof.
  apply (command_matches_all_plain (Demo.world true) (-1) true Demo.passwd).
  discriminate.
Defined.

(** X18. In the name-match build the rule ALL without digests accepts
    every command: the result of [open_cmnd] is ignored, so that even a
    file that exists and cannot be opened is accepted. *)
Theorem command_matches_all_name (W : World) (rootfd : Z) (icpt : bool)
    (st : proc) :
  fst (command_matches_all W NameMatch rootfd icpt [] st) = true.
Proof.
  apply (wp_run (command_matches_all W NameMatch rootfd icpt [])
           (fun b _ => b = true)).
  unfold command_matches_all.
  apply wp_bind, wp_gets. apply wp_bind.
  apply wp_mono with (Q := fun r _ => fst r = true).
  { intros [go_on fd] st1 Hgo. cbn in Hgo. subst go_on. cbn [negb].
    apply wp_bind, wp_gets. cbn [digest_matches negb].
    apply wp_bind, wp_any. intros _ st2. apply wp_ret. reflexivity. }
  destruct (CStr.strchr (user_cmnd (sudo_user st)) "/").
  - apply wp_bind, wp_any. intros r st1. apply wp_ret. reflexivity.
  - apply wp_ret. reflexivity.
Qed.

(** ** Rules that publish no path *)

(** X19. ALL, regular expressions, pseudo-commands and fnmatch patterns
    never touch [safe_cmnd]: for a rule without a command, or whose
    command starts with a caret or does not start with a slash, or has
    meta characters while [fast_glob] is set or the build is name-match,
    [safe_cmnd] is after [command_matches] what it was before, whatever
    the verdict. *)
Theorem command_matches_keeps_safe_cmnd (W : World) (mode : match_mode)
    (sudoers_cmnd sudoers_args runchroot : option string)
    (info : option cmnd_info) (digests : list command_digest) (st : proc) :
  match sudoers_cmnd with
  | None => True
  | Some c =>
      CStr.head c = "^"%char \/ CStr.head c <> "/"%char
      \/ (has_meta c = true
          /\ (def_fast_glob (defs st) = true \/ mode = NameMatch))
  end ->
  safe_cmnd (snd (command_matches W mode sudoers_cmnd sudoers_args runchroot
                    info digests st)) = safe_cmnd st.
Proof.
  intros Hrule.
  apply (wp_run (command_matches W mode sudoers_cmnd sudoers_args runchroot
                   info digests) (fun _ st' => safe_cmnd st' = safe_cmnd st)).
  unfold command_matches.
  apply wp_bind.
  eapply (wp_frame (fun s => (safe_cmnd s, defs s))).
  { intros s. cbn beta.
    rewrite (cm_enter_preserves W safe_cmnd), (cm_enter_preserves W defs);
      eauto with frame. }
  intros [entered l] sd Hsd. cbn beta in Hsd. injection Hsd as Hs Hd.
  apply wp_bind.
  apply wp_mono with (Q := fun _ s => safe_cmnd s = safe_cmnd st).
  { intros rc s2 H2. unfold wp.
    rewrite (cm_done_preserves safe_cmnd) by eauto with frame. exact H2. }
  destruct entered; [|apply wp_ret; exact Hs].
  rewrite <- Hs. unfold wp.
  unfold cm_dispatch, command_matches_glob.
  destruct sudoers_cmnd as [c|];
    [|apply command_matches_all_preserves; intros ? ?; reflexivity].
  destruct (Ascii.eqb (CStr.head c) "^") eqn:E1;
    [apply command_matches_regex_preserves; intros ? ?; reflexivity|].
  destruct (Ascii.eqb (CStr.head c) "/") eqn:E2; cbn [negb].
  2:{ apply (wp_run _ (fun _ s => safe_cmnd s = safe_cmnd sd)).
      wp_walk; reflexivity. }
  apply Ascii.eqb_neq in E1. apply Ascii.eqb_eq in E2.
  destruct Hrule as [H|[H|(Hm & H)]]; try contradiction.
  rewrite Hm. unfold bind, gets. rewrite Hd.
  destruct H as [H| ->].
  - rewrite H. apply command_matches_fnmatch_preserves; intros ? ?; reflexivity.
  - destruct (def_fast_glob (defs st));
      apply command_matches_fnmatch_preserves; intros ? ?; reflexivity.
Qed.

Lemma command_matches_keeps_safe_cmnd_witness :
  safe_cmnd (snd (command_matches (Demo.world true) InodeMatch None None None
                    None [] Demo.ls_l_published))
  = safe_cmnd Demo.ls_l_published.
Proof.
  apply (command_matches_keeps_safe_cmnd (Demo.world true) InodeMatch None None
           None None [] Demo.ls_l_published).
  exact I.
Defined.

(** ** Commands that cannot be qualified *)

(** X20. A relative user command never matches a pattern rule unless it
    can be qualified: when [user_cmnd] does not start with a slash and
    [user_cmnd_dir] is unknown, or [user_cmnd_dir/user_base] does not fit
    in PATH_MAX, the fnmatch and regex strategies return false without a
    system call, leaving the process as it was. *)
Theorem pattern_strategies_need_qualified (W : World) (mode : match_mode)
    (sudoers_cmnd : string) (sudoers_args : option string) (rootfd : Z)
    (icpt : bool) (digests : list command_digest) (st : proc) :
  CStr.head (user_cmnd (sudo_user st)) <> "/"%char ->
  match user_cmnd_dir (sudo_user st) with
  | None => True
  | Some dir =>
      (PATH_MAX W <= String.length (dir ++ "/" ++ user_base (sudo_user st)))%nat
  end ->
  command_matches_fnmatch W mode sudoers_cmnd sudoers_args rootfd icpt
    digests st = (false, st)
  /\ command_matches_regex W mode sudoers_cmnd sudoers_args rootfd icpt
       digests st = (false, st).
Proof.
  intros Hrel Hdir.
  assert (Hq : qualified_cmnd W st = None).
  { unfold qualified_cmnd. apply Ascii.eqb_neq in Hrel. rewrite Hrel.
    cbn [negb]. destruct (user_cmnd_dir (sudo_user st)); [|reflexivity].
    apply Nat.leb_le in Hdir. rewrite Hdir. reflexivity. }
  unfold command_matches_fnmatch, command_matches_regex, bind, gets.
  rewrite Hq. split; reflexivity.
Qed.

Lemma pattern_strategies_need_qualified_witness :
  command_matches_fnmatch (Demo.world true) InodeMatch "/bin/*" None (-1) false
    [] Cases.ls_relative = (false, Cases.ls_relative)
  /\ command_matches_regex (Demo.world true) InodeMatch "/bin/*" None (-1)
       false [] Cases.ls_relative = (false, Cases.ls_relative).
Proof.
  apply (pattern_strategies_need_qualified (Demo.world true) InodeMatch "/bin/*"
           None (-1) false [] Cases.ls_relative).
  - discriminate.
  - exact I.
Defined.

(** ** A path that names another file *)

(** A file that can be opened for reading is stat'ed the same through
    the descriptor and by its path. *)
Lemma open_cmnd_openable (W : World) path digests st :
  w_open W (view_of st) path O_RDONLY_NONBLOCK = None ->
  exists fd st',
    open_cmnd W path digests (-1) st = ((true, fd), st')
    /\ only_fds st st'
    /\ do_stat W fd path st' = w_stat W (view_of st) path.
Proof.
  intros Hopen.
  pose proof (open_cmnd_only_fds W path digests (-1) st) as Ho.
  revert Ho. unfold open_cmnd, bind, gets.
  destruct (negb (bool_decide (def_fdexec (defs st) = always))
            && TAILQ_EMPTY digests).
  { intros Ho. exists (-1), st. repeat split. }
  unfold sys_open. unfold view_of in Hopen. rewrite Hopen. cbn.
  intros Ho. eexists _, _. split; [reflexivity|]. split; [exact Ho|].
  unfold do_stat, sys_fstat. rewrite fresh_fd_not_minus_one. cbn.
  rewrite lookup_alter_eq, lookup_insert_eq. reflexivity.
Qed.

Section InodeMismatch.

Context (W : World) (icpt : bool) (digests : list command_digest).
Context (st0 : proc) (sb : stat).

Hypothesis Hopen :
  w_open W (view_of st0) (user_cmnd (sudo_user st0)) O_RDONLY_NONBLOCK = None.
Hypothesis Hstat : w_stat W (view_of st0) (user_cmnd (sudo_user st0)) = Some sb.
Hypothesis Hsetid : intercept_ok (user_cmnd (sudo_user st0)) icpt sb st0 = true.
Hypothesis Hinode : same_inode (user_stat (sudo_user st0)) sb = false.

(** The exact-path pass stops at the first entry that is the user's
    command, without a candidate. *)
Lemma glob_exact_mismatch (pathv : list string) :
  In (user_cmnd (sudo_user st0)) pathv ->
  forall fd0 bad_digest st,
    only_fds st0 st ->
    exists fd st',
      glob_exact W pathv fd0 bad_digest icpt digests st = (GlobDone None fd, st').
Proof.
  induction pathv as [|cp ap IH]; intros Hin fd0 bad_digest st Hst;
    [destruct Hin|].
  cbn [glob_exact]. unfold bind at 1.
  pose proof (close_fd_only_fds fd0 st) as Hc.
  destruct (close_fd fd0 st) as [[] sta]. cbn [snd] in Hc.
  pose proof (only_fds_trans _ _ _ Hst Hc) as Ha.
  unfold bind at 1, gets at 1.
  destruct Ha as (Hu & Hd & Hs & Hf & Hv). rewrite Hu.
  destruct (String.eqb cp (user_cmnd (sudo_user st0))) eqn:Ecp; cbn [negb].
  - apply String.eqb_eq in Ecp. subst cp.
    assert (Hopen' : w_open W (view_of sta) (user_cmnd (sudo_user st0))
                       O_RDONLY_NONBLOCK = None) by (rewrite Hv; exact Hopen).
    destruct (open_cmnd_openable W _ digests sta Hopen')
      as (fd & stb & Hrun & Ho & Hds).
    unfold bind at 1. rewrite Hrun. cbn [negb].
    unfold bind at 1, gets at 1. rewrite Hds, Hv, Hstat.
    destruct Ho as (Hu' & Hd' & _).
    unfold bind at 1, gets at 1.
    rewrite (intercept_ok_defs _ _ _ stb st0) by congruence.
    rewrite Hsetid. cbn [negb].
    unfold bind at 1, gets at 1. rewrite Hu', Hu, Hinode.
    eexists _, _. reflexivity.
  - apply IH.
    + destruct Hin as [Hin|Hin]; [|exact Hin].
      subst cp. rewrite String.eqb_refl in Ecp. discriminate.
    + repeat split; assumption.
Qed.

End InodeMismatch.

(** X21. A path that no longer names the user's file is refused.  In the
    glob strategy of the inode build, when the user's command is fully
    qualified and is an entry of the expansion, can be opened, passes the
    setid check, but has another device or inode than the user's file,
    the strategy returns false: the exact-path pass fails closed and the
    basename pass is not run, whatever else the expansion holds. *)
Theorem glob_inode_mismatch_rejects (W : World) (sudoers_cmnd : string)
    (sudoers_args : option string) (rootfd : Z) (icpt : bool)
    (digests : list command_digest) (st : proc) (pathv : list string)
    (sb : stat) :
  let ucmnd := user_cmnd (sudo_user st) in
  glob_avoided sudoers_cmnd st = false ->
  w_glob W (view_of st) sudoers_cmnd = Some pathv ->
  CStr.head ucmnd = "/"%char ->
  In ucmnd pathv ->
  w_open W (view_of st) ucmnd O_RDONLY_NONBLOCK = None ->
  w_stat W (view_of st) ucmnd = Some sb ->
  intercept_ok ucmnd icpt sb st = true ->
  same_inode (user_stat (sudo_user st)) sb = false ->
  fst (command_matches_glob W InodeMatch sudoers_cmnd sudoers_args rootfd icpt
         digests st) = false.
Proof.
  intros ucmnd Havoid Hglob Hhead Hin Hopen Hstat Hsetid Hinode. subst ucmnd.
  unfold command_matches_glob, command_matches_glob_inode.
  unfold bind at 1, gets at 1. rewrite Havoid.
  unfold bind at 1, sys_glob at 1.
  change (cur (os st)) with (view_of st). rewrite Hglob.
  destruct pathv as [|p0 pathv]; [destruct Hin|].
  unfold bind at 1, gets at 1. cbn [sudo_user set_os].
  rewrite Hhead. cbn [Ascii.eqb Bool.eqb andb].
  set (stg := set_os (log (EvGlob sudoers_cmnd) (os st)) st).
  assert (Hg : only_fds st stg) by (repeat split).
  destruct (glob_exact_mismatch W icpt digests st sb Hopen Hstat Hsetid Hinode
              (p0 :: pathv) Hin (-1) false stg Hg) as (fd & st' & Hrun).
  unfold bind at 1. rewrite Hrun.
  unfold bind at 1, ret at 1. apply bad_false.
Qed.

Lemma glob_inode_mismatch_rejects_witness :
  fst (command_matches_glob (Demo.world true) InodeMatch "/bin/l*" None (-1)
         false [] Cases.ls_replaced) = false.
Proof.
  apply (glob_inode_mismatch_rejects (Demo.world true) "/bin/l*" None (-1) false
           [] Cases.ls_replaced ["/bin/ls"] (Demo.mkstat 7 493)).
  - reflexivity.
  - reflexivity.
  - reflexivity.
  - left. reflexivity.
  - reflexivity.
  - reflexivity.
  - reflexivity.
  - reflexivity.
Defined.

(** ** The user's command across a call *)

Lemma cm_dispatch_sudo_user (W : World) mode cmnd args rootfd icpt digests :
  preserves sudo_user (cm_dispatch W mode cmnd args rootfd icpt digests).
Proof. apply cm_dispatch_preserves; intros ? ?; reflexivity. Qed.

Lemma pivot_root_sudo_user (W : World) new_root :
  preserves sudo_user (pivot_root W new_root).
Proof. apply pivot_root_preserves; intros ? ?; reflexivity. Qed.

Lemma unpivot_root_sudo_user fds : preserves sudo_user (unpivot_root fds).
Proof. apply unpivot_root_preserves; intros ? ?; reflexivity. Qed.

(** What [cm_enter] saved, when [set_cmnd_path] finds the command
    whenever it is asked. *)
Lemma cm_enter_saved (W : World) runchroot info st :
  (forall v, r_status (w_set_cmnd_path W v) = FOUND) ->
  wp (cm_enter W runchroot info)
     (fun r sd =>
        match l_saved (snd r) with
        | None => sudo_user sd = sudo_user st
        | Some (c, s) =>
            c = user_cmnd (sudo_user st) /\ s = user_stat (sudo_user st)
            /\ (user_stat (sudo_user sd) = None
                <-> user_stat (sudo_user st) = None)
        end) st.
Proof.
  intros Hfound. unfold cm_enter.
  apply wp_bind, wp_gets.
  destruct (reconcile_chroot runchroot st) as [[rc reset]|];
    [|apply wp_ret; reflexivity].
  apply wp_bind.
  apply wp_frame with (f := sudo_user).
  { destruct rc; [apply pivot_root_sudo_user|apply preserves_ret]. }
  intros [pivoted fds] s1 H1.
  destruct pivoted; cbn [negb]; [|apply wp_ret; exact H1].
  destruct reset; [|apply wp_ret; exact H1].
  apply wp_bind, wp_gets. apply wp_bind.
  unfold wp at 1. unfold set_cmnd_path at 1 2. cbn [fst snd].
  rewrite Hfound. apply wp_ret. cbn. rewrite H1.
  destruct (user_stat (sudo_user st)); repeat split; congruence.
Qed.

(** When no rule-specific chroot resets the command, nothing is saved
    and the user's command is as it was. *)
Lemma cm_enter_no_reset (W : World) runchroot info st :
  user_runchroot (sudo_user st) <> None \/ runchroot = None ->
  wp (cm_enter W runchroot info)
     (fun r sd =>
        l_saved (snd r) = None /\ l_info (snd r) = info
        /\ sudo_user sd = sudo_user st) st.
Proof.
  intros Hno. unfold cm_enter.
  apply wp_bind, wp_gets.
  assert (Hrec : match reconcile_chroot runchroot st with
                 | Some (_, reset) => reset = false
                 | None => True
                 end).
  { unfold reconcile_chroot.
    destruct (user_runchroot (sudo_user st)) as [urc|].
    - destruct runchroot as [rc|]; [|reflexivity].
      destruct (negb (String.eqb rc "*") && negb (String.eqb rc urc));
        [exact I|reflexivity].
    - destruct Hno as [Hno| ->]; [congruence|].
      destruct (def_runchroot (defs st)) as [d|]; [|reflexivity].
      destruct (negb (String.eqb d "*")); reflexivity. }
  destruct (reconcile_chroot runchroot st) as [[rc reset]|];
    [subst reset|apply wp_ret; repeat split].
  apply wp_bind.
  apply wp_frame with (f := sudo_user).
  { destruct rc; [apply pivot_root_sudo_user|apply preserves_ret]. }
  intros [pivoted fds] s1 H1.
  destruct pivoted; cbn [negb]; apply wp_ret; repeat split; auto.
Qed.

(** [done:] with nothing saved returns [info] as it got it. *)
Lemma cm_done_info runchroot fds info rc st :
  snd (fst (cm_done runchroot fds None info rc st)) = info.
Proof.
  unfold cm_done, bind, ret.
  destruct (match runchroot with Some _ => unpivot_root fds | None => _ end st).
  reflexivity.
Qed.

(** [done:] with nothing saved keeps the user's command; with something
    saved it puts [user_cmnd] back, and [user_stat] if there is one. *)
Lemma cm_done_restores runchroot fds saved info rc st :
  let st' := snd (cm_done runchroot fds saved info rc st) in
  match saved with
  | None => sudo_user st' = sudo_user st
  | Some (c, s) =>
      user_cmnd (sudo_user st') = c
      /\ user_stat (sudo_user st')
         = match user_stat (sudo_user st) with Some _ => s | None => None end
  end.
Proof.
  intros st'. subst st'. unfold cm_done, bind, gets, modify.
  assert (Hu : sudo_user
                 (snd ((match runchroot with
                        | Some _ => unpivot_root fds
                        | None => ret tt
                        end) st)) = sudo_user st).
  { destruct runchroot; [apply unpivot_root_sudo_user|reflexivity]. }
  destruct ((match runchroot with
             | Some _ => unpivot_root fds
             | None => ret tt
             end) st) as [[] s1].
  cbn [snd] in Hu.
  destruct saved as [[c s]|]; cbn; [|exact Hu].
  rewrite Hu. split; reflexivity.
Qed.

(** X22. [command_matches] gives the user's command back.  Unless the
    rule has a chroot of its own and the user named none, the user's
    command, base name, directory, stat and arguments are after the call
    what they were before, and the caller's [info] is returned as it was
    passed.  And with a rule-specific chroot, provided
    [set_cmnd_path] finds the command whenever it is asked, [user_cmnd]
    and [user_stat] are put back before the call returns. *)
Theorem command_matches_restores_user (W : World) (mode : match_mode)
    (sudoers_cmnd sudoers_args runchroot : option string)
    (info : option cmnd_info) (digests : list command_digest) (st : proc) :
  let st' := snd (command_matches W mode sudoers_cmnd sudoers_args runchroot
                    info digests st) in
  (user_runchroot (sudo_user st) <> None \/ runchroot = None ->
   sudo_user st' = sudo_user st
   /\ snd (fst (command_matches W mode sudoers_cmnd sudoers_args runchroot
                  info digests st)) = info)
  /\ ((forall v, r_status (w_set_cmnd_path W v) = FOUND) ->
      user_cmnd (sudo_user st') = user_cmnd (sudo_user st)
      /\ user_stat (sudo_user st') = user_stat (sudo_user st)).
Proof.
  intros st'. subst st'. split.
  - intros Hno.
    apply (wp_run (command_matches W mode sudoers_cmnd sudoers_args runchroot
                     info digests)
             (fun r s => sudo_user s = sudo_user st /\ snd r = info)).
    unfold command_matches. apply wp_bind.
    eapply wp_mono; [|apply cm_enter_no_reset; exact Hno].
    intros [entered l] sd (Hsaved & Hinfo & Hsd). cbn [snd] in Hsaved, Hinfo.
    apply wp_bind.
    apply wp_frame with (f := sudo_user).
    { destruct entered; [apply cm_dispatch_sudo_user|apply preserves_ret]. }
    intros rc s2 H2. unfold wp.
    pose proof (cm_done_restores (l_runchroot l) (l_pivot_fds l) (l_saved l)
                  (l_info l) rc s2) as Hd.
    cbn zeta in Hd. rewrite Hsaved in Hd |- *. rewrite cm_done_info.
    split; congruence.
  - intros Hfound.
    apply (wp_run (command_matches W mode sudoers_cmnd sudoers_args runchroot
                     info digests)
             (fun _ s => user_cmnd (sudo_user s) = user_cmnd (sudo_user st)
                         /\ user_stat (sudo_user s) = user_stat (sudo_user st))).
    unfold command_matches. apply wp_bind.
    eapply wp_mono; [|apply cm_enter_saved; exact Hfound].
    intros [entered l] sd Hsd. cbn [snd] in Hsd.
    apply wp_bind.
    apply wp_frame with (f := sudo_user).
    { destruct entered; [apply cm_dispatch_sudo_user|apply preserves_ret]. }
    intros rc s2 H2. unfold wp.
    pose proof (cm_done_restores (l_runchroot l) (l_pivot_fds l) (l_saved l)
                  (l_info l) rc s2) as Hd.
    cbn zeta in Hd.
    destruct (l_saved l) as [[c s]|].
    + destruct Hsd as (-> & -> & Hiff). destruct Hd as [Hc Hs].
      split; [exact Hc|]. rewrite Hs, H2.
      destruct (user_stat (sudo_user sd)) eqn:E1;
        destruct (user_stat (sudo_user st)) eqn:E2; try reflexivity.
      destruct Hiff as [Hiff _]. specialize (Hiff eq_refl). discriminate.
    + rewrite Hd, H2, Hsd. split; reflexivity.
Qed.

(** ** Calls of glob(3) *)

Lemma glob_calls_log (e : event) (o : os_t) (st : proc) :
  is_glob e = false ->
  trace o = trace (os st) ->
  glob_calls (set_os (log e o) st) = glob_calls st.
Proof.
  intros He Ht. unfold glob_calls. cbn. rewrite Ht, List.filter_app. cbn.
  rewrite He. apply app_nil_r.
Qed.

Section GlobCalls.

Context (W : World).

Lemma install_globs obj path fl : preserves glob_calls (install obj path fl).
Proof. intros st. apply glob_calls_log; reflexivity. Qed.

Lemma sys_open_globs path fl : preserves glob_calls (sys_open W path fl).
Proof.
  intros st. unfold sys_open.
  destruct (w_open W (cur (os st)) path fl);
    [apply glob_calls_log; reflexivity|apply install_globs].
Qed.

Lemma sys_close_globs fd : preserves glob_calls (sys_close fd).
Proof. intros st. apply glob_calls_log; reflexivity. Qed.

Lemma sys_setfd_globs fd b : preserves glob_calls (sys_setfd fd b).
Proof. intros st. apply glob_calls_log; reflexivity. Qed.

Lemma sys_open_dir_globs path dir : preserves glob_calls (sys_open_dir W path dir).
Proof.
  intros st. unfold sys_open_dir.
  destruct (w_open W (cur (os st)) path O_RDONLY_DIRECTORY);
    [apply glob_calls_log; reflexivity|apply install_globs].
Qed.

Lemma sys_chroot_globs path : preserves glob_calls (sys_chroot W path).
Proof.
  intros st. unfold sys_chroot.
  destruct (w_chroot W (cur (os st)) path);
    [apply glob_calls_log; reflexivity|reflexivity].
Qed.

Lemma sys_chdir_root_globs : preserves glob_calls sys_chdir_root.
Proof. intros st. apply glob_calls_log; reflexivity. Qed.

Lemma sys_fchdir_globs fd b : preserves glob_calls (sys_fchdir fd b).
Proof.
  intros st. unfold sys_fchdir.
  destruct (fe_obj <$> fdtab (os st) !! fd) as [[]|]; try reflexivity.
  destruct b; unfold glob_calls; cbn; rewrite ?List.filter_app; cbn;
    rewrite ?app_nil_r; reflexivity.
Qed.

Lemma modify_set_cmnd_fd_var_globs fd :
  preserves glob_calls (modify (set_cmnd_fd_var fd)).
Proof. intros st. reflexivity. Qed.

Lemma safe_cmnd_strdup_globs path :
  preserves glob_calls (safe_cmnd_strdup W path).
Proof.
  intros st. unfold safe_cmnd_strdup. destruct (w_strdup W path); reflexivity.
Qed.

Lemma set_cmnd_path_globs : preserves glob_calls (set_cmnd_path W).
Proof. intros st. reflexivity. Qed.

Lemma modify_set_user_cmnd_stat_globs c s :
  preserves glob_calls (modify (set_user_cmnd_stat c s)).
Proof. intros st. reflexivity. Qed.

#[local] Hint Resolve sys_open_globs sys_close_globs sys_setfd_globs
  sys_open_dir_globs sys_chroot_globs sys_chdir_root_globs sys_fchdir_globs
  modify_set_cmnd_fd_var_globs safe_cmnd_strdup_globs set_cmnd_path_globs
  modify_set_user_cmnd_stat_globs : frame.

Lemma close_fd_globs fd : preserves glob_calls (close_fd fd).
Proof. unfold close_fd. frame. Qed.

#[local] Hint Resolve close_fd_globs : frame.

Lemma bad_globs fd : preserves glob_calls (bad fd).
Proof. unfold bad. frame. Qed.

Lemma open_cmnd_globs path digests fd0 :
  preserves glob_calls (open_cmnd W path digests fd0).
Proof. unfold open_cmnd. frame. Qed.

Lemma set_cmnd_fd_globs fd rootfd : preserves glob_calls (set_cmnd_fd W fd rootfd).
Proof. unfold set_cmnd_fd. frame. Qed.

#[local] Hint Resolve bad_globs open_cmnd_globs set_cmnd_fd_globs : frame.

Lemma command_matches_dir_inode_globs dir dlen rootfd icpt digests :
  preserves glob_calls (command_matches_dir_inode W dir dlen rootfd icpt digests).
Proof. unfold command_matches_dir_inode. frame. Qed.

Lemma command_matches_dir_name_globs dir dlen rootfd icpt digests :
  preserves glob_calls (command_matches_dir_name W dir dlen rootfd icpt digests).
Proof. unfold command_matches_dir_name. frame. Qed.

#[local] Hint Resolve command_matches_dir_inode_globs
  command_matches_dir_name_globs : frame.

Lemma command_matches_all_globs mode rootfd icpt digests :
  preserves glob_calls (command_matches_all W mode rootfd icpt digests).
Proof. unfold command_matches_all. frame. Qed.

Lemma pattern_matched_globs mode cmnd args path rootfd icpt digests :
  preserves glob_calls
    (pattern_matched W mode cmnd args path rootfd icpt digests).
Proof. unfold pattern_matched. frame. Qed.

#[local] Hint Resolve pattern_matched_globs : frame.

Lemma command_matches_fnmatch_globs mode cmnd args rootfd icpt digests :
  preserves glob_calls
    (command_matches_fnmatch W mode cmnd args rootfd icpt digests).
Proof. unfold command_matches_fnmatch. frame. Qed.

Lemma command_matches_regex_globs mode cmnd args rootfd icpt digests :
  preserves glob_calls
    (command_matches_regex W mode cmnd args rootfd icpt digests).
Proof. unfold command_matches_regex. frame. Qed.

Lemma glob_exact_globs pathv : forall fd bad icpt digests,
  preserves glob_calls (glob_exact W pathv fd bad icpt digests).
Proof. induction pathv as [|cp ap IH]; intros; cbn [glob_exact]; frame. Qed.

Lemma glob_base_globs pathv : forall fd rootfd icpt digests,
  preserves glob_calls (glob_base W pathv fd rootfd icpt digests).
Proof. induction pathv as [|cp ap IH]; intros; cbn [glob_base]; frame. Qed.

Lemma command_matches_normal_inode_globs cmnd args rootfd icpt digests :
  preserves glob_calls
    (command_matches_normal_inode W cmnd args rootfd icpt digests).
Proof. unfold command_matches_normal_inode. frame. Qed.

Lemma command_matches_normal_name_globs cmnd args rootfd icpt digests :
  preserves glob_calls
    (command_matches_normal_name W cmnd args rootfd icpt digests).
Proof. unfold command_matches_normal_name. frame. Qed.

Lemma pivot_root_globs new_root : preserves glob_calls (pivot_root W new_root).
Proof. unfold pivot_root. frame. Qed.

Lemma unpivot_root_globs fds : preserves glob_calls (unpivot_root fds).
Proof. unfold unpivot_root. destruct fds. frame. Qed.

#[local] Hint Resolve pivot_root_globs unpivot_root_globs : frame.

Lemma cm_enter_globs runchroot info :
  preserves glob_calls (cm_enter W runchroot info).
Proof. unfold cm_enter. frame. Qed.

Lemma cm_done_globs runchroot fds saved info rc :
  preserves glob_calls (cm_done runchroot fds saved info rc).
Proof. unfold cm_done. frame. Qed.

(** The glob strategy calls glob(3) once, on the rule's command, unless
    the short circuit avoids the call. *)
Lemma command_matches_glob_inode_calls cmnd args rootfd icpt digests st :
  wp (command_matches_glob_inode W cmnd args rootfd icpt digests)
     (fun _ st' =>
        glob_calls st' = glob_calls st
        \/ glob_calls st' = (glob_calls st ++ [EvGlob cmnd])%list) st.
Proof.
  unfold command_matches_glob_inode.
  apply wp_bind, wp_gets. destruct (glob_avoided cmnd st).
  { apply wp_ret. left. reflexivity. }
  apply wp_bind. unfold wp at 1. cbn [sys_glob fst snd].
  set (stg := set_os (log (EvGlob cmnd) (os st)) st).
  assert (Hg : glob_calls stg = (glob_calls st ++ [EvGlob cmnd])%list).
  { unfold glob_calls, stg. cbn. apply List.filter_app. }
  rewrite <- Hg.
  apply wp_frame with (f := glob_calls); [|auto].
  pose proof glob_exact_globs. pose proof glob_base_globs.
  frame.
Qed.

Lemma cm_dispatch_calls mode cmnd args rootfd icpt digests st :
  wp (cm_dispatch W mode cmnd args rootfd icpt digests)
     (fun _ st' =>
        glob_calls st' = glob_calls st
        \/ (mode = InodeMatch /\ def_fast_glob (defs st) = false
            /\ exists c,
                 cmnd = Some c /\ CStr.head c = "/"%char /\ has_meta c = true
                 /\ glob_calls st' = (glob_calls st ++ [EvGlob c])%list)) st.
Proof.
  assert (Hleft : forall (m : M bool), preserves glob_calls m ->
            wp m (fun _ st' =>
              glob_calls st' = glob_calls st
              \/ (mode = InodeMatch /\ def_fast_glob (defs st) = false
                  /\ exists c,
                       cmnd = Some c /\ CStr.head c = "/"%char
                       /\ has_meta c = true
                       /\ glob_calls st' = (glob_calls st ++ [EvGlob c])%list)) st).
  { intros m Hm. unfold wp. left. apply Hm. }
  unfold cm_dispatch, command_matches_glob, command_matches_normal.
  destruct cmnd as [c|]; [|apply Hleft, command_matches_all_globs].
  destruct (Ascii.eqb (CStr.head c) "^");
    [apply Hleft, command_matches_regex_globs|].
  destruct (Ascii.eqb (CStr.head c) "/") eqn:Ehead; cbn [negb].
  2:{ apply Hleft. frame. }
  apply Ascii.eqb_eq in Ehead.
  destruct (has_meta c) eqn:Emeta.
  - apply wp_bind, wp_gets. destruct (def_fast_glob (defs st)) eqn:Efast;
      [apply Hleft, command_matches_fnmatch_globs|].
    destruct mode; [|apply Hleft, command_matches_fnmatch_globs].
    eapply wp_mono; [|apply command_matches_glob_inode_calls].
    cbn beta. intros _ st' [H|H]; [left; exact H|].
    right. repeat split; auto. exists c. auto.
  - destruct mode;
      [apply Hleft, command_matches_normal_inode_globs
      |apply Hleft, command_matches_normal_name_globs].
Qed.

End GlobCalls.

(** X23. glob(3) is called at most once in a call of [command_matches],
    and only by the glob strategy of the inode build, on the rule's
    command: the calls of glob(3) in the trace are after the call what
    they were before, or those followed by one call on a rule command
    that starts with a slash and has meta characters, with [fast_glob]
    off. *)
Theorem command_matches_glob_calls (W : World) (mode : match_mode)
    (sudoers_cmnd sudoers_args runchroot : option string)
    (info : option cmnd_info) (digests : list command_digest) (st : proc) :
  let st' := snd (command_matches W mode sudoers_cmnd sudoers_args runchroot
                    info digests st) in
  glob_calls st' = glob_calls st
  \/ (mode = InodeMatch /\ def_fast_glob (defs st) = false
      /\ exists c,
           sudoers_cmnd = Some c /\ CStr.head c = "/"%char
           /\ has_meta c = true
           /\ glob_calls st' = (glob_calls st ++ [EvGlob c])%list).
Proof.
  intros st'. subst st'.
  apply (wp_run (command_matches W mode sudoers_cmnd sudoers_args runchroot
                   info digests)
           (fun _ st' =>
              glob_calls st' = glob_calls st
              \/ (mode = InodeMatch /\ def_fast_glob (defs st) = false
                  /\ exists c,
                       sudoers_cmnd = Some c /\ CStr.head c = "/"%char
                       /\ has_meta c = true
                       /\ glob_calls st' = (glob_calls st ++ [EvGlob c])%list))).
  unfold command_matches. apply wp_bind.
  eapply (wp_frame (fun s => (glob_calls s, defs s))).
  { intros s. cbn beta.
    rewrite (cm_enter_globs W), (cm_enter_preserves W defs);
      eauto with frame. }
  intros [entered l] sd Hsd. cbn beta in Hsd. injection Hsd as Hg Hd.
  apply wp_bind.
  apply wp_mono with
    (Q := fun _ s2 =>
            glob_calls s2 = glob_calls st
            \/ (mode = InodeMatch /\ def_fast_glob (defs st) = false
                /\ exists c,
                     sudoers_cmnd = Some c /\ CStr.head c = "/"%char
                     /\ has_meta c = true
                     /\ glob_calls s2 = (glob_calls st ++ [EvGlob c])%list)).
  { intros rc s2 H2. unfold wp. cbn beta.
    rewrite (cm_done_globs (l_runchroot l) (l_pivot_fds l) (l_saved l)
               (l_info l) rc s2).
    exact H2. }
  destruct entered; [|apply wp_ret; left; exact Hg].
  rewrite <- Hg, <- Hd. apply cm_dispatch_calls.
Qed.

(** ** Pattern rules *)

(** X24. A pattern rule is accepted only for a command that the pattern
    matches as a whole path, and the file that is checked is that
    command.  When the fnmatch strategy accepts, fnmatch(3) with
    FNM_PATHNAME matched the rule's command against the user's command,
    qualified by [user_cmnd_dir] if it was relative; when the regex
    strategy accepts, the regular expression matched it.  In both cases
    the arguments matched, [open_cmnd] succeeded on the user's command,
    and on the descriptor and in the process it left the file could be
    stat'ed and passed the setid check (inode build) and the digest
    check; [safe_cmnd] is unchanged, [cmnd_fd] is that descriptor or -1,
    and if it did not dangle before, what it names refers to the user's
    command. *)
Theorem pattern_strategies_sound (W : World) (mode : match_mode) (c : string)
    (args : option string) (rootfd : Z) (icpt : bool)
    (digests : list command_digest) (st : proc) :
  let passed cmnd st' :=
    let o := open_cmnd W cmnd digests (-1) st in
    let fd := snd (fst o) in
    let st1 := snd o in
    command_args_match W c args st = true
    /\ fst (fst o) = true
    /\ (mode = InodeMatch ->
        exists sb,
          do_stat W fd cmnd st1 = Some sb
          /\ intercept_ok cmnd icpt sb st1 = true)
    /\ digest_matches W fd cmnd digests st1 = true
    /\ safe_cmnd st' = safe_cmnd st
    /\ (cmnd_fd st' = fd \/ cmnd_fd st' = -1)
    /\ (cmnd_fd_ok st -> cmnd_fd st' <> -1 ->
        fe_obj <$> fds_of st' !! cmnd_fd st'
        = Some (FileAt (view_of st) cmnd)) in
  (fst (command_matches_fnmatch W mode c args rootfd icpt digests st) = true ->
   exists cmnd,
     qualified_cmnd W st = Some cmnd /\ w_fnmatch W c cmnd true = true
     /\ passed cmnd
          (snd (command_matches_fnmatch W mode c args rootfd icpt digests st)))
  /\ (fst (command_matches_regex W mode c args rootfd icpt digests st) = true ->
      exists cmnd,
        qualified_cmnd W st = Some cmnd /\ regex_matches W c cmnd = true
        /\ passed cmnd
             (snd (command_matches_regex W mode c args rootfd icpt digests st))).
Proof.
  cbn zeta. split; intros Hacc.
  - destruct (wp_run _ _ _ (command_matches_fnmatch_run W st mode c args rootfd
                              icpt digests) Hacc)
      as (cmnd & Hq & Hm & (Ha & Ho & Hst & Hdig) & Hs & Hp1 & Hp2).
    exists cmnd. auto 10.
  - destruct (wp_run _ _ _ (command_matches_regex_run W st mode c args rootfd
                              icpt digests) Hacc)
      as (cmnd & Hq & Hm & (Ha & Ho & Hst & Hdig) & Hs & Hp1 & Hp2).
    exists cmnd. auto 10.
Qed.

(** ** The directory that the basename pass compares *)

Lemma strchr_head (cp : string) (c : ascii) :
  CStr.head cp = c -> c <> zero -> CStr.strchr cp c = Some 0%nat.
Proof.
  destruct cp as [|d rest]; cbn; intros H Hc.
  - congruence.
  - subst d. rewrite Ascii.eqb_refl. reflexivity.
Qed.

(** X25. In the basename pass of the glob strategy the directory of an
    entry is cut at the first slash of the entry, so that for an absolute
    path the directory handed to [canon_path] is the empty string:
    the pass over entries that are absolute paths, none of them a
    directory specification, gives the same result with any other
    [canon_path] that resolves the empty string the same way. *)
Theorem glob_base_canon_path (W : World)
    (canon : view -> string -> option string) (rootfd : Z) (icpt : bool)
    (digests : list command_digest) (pathv : list string) :
  (forall v, canon v "" = w_canon_path W v "") ->
  Forall absolute_file pathv ->
  forall fd st,
    glob_base (with_canon_path canon W) pathv fd rootfd icpt digests st
    = glob_base W pathv fd rootfd icpt digests st.
Proof.
  intros Hcanon Habs. induction Habs as [|cp ap [Hhead Hlast] _ IH];
    intros fd st; [reflexivity|].
  cbn [glob_base].
  apply Ascii.eqb_neq in Hlast. rewrite Hlast.
  rewrite (strchr_head cp "/" Hhead) by discriminate. cbn [CStr.take].
  change (open_cmnd (with_canon_path canon W)) with (open_cmnd W).
  change (do_stat (with_canon_path canon W)) with (do_stat W).
  change (digest_matches (with_canon_path canon W)) with (digest_matches W).
  change (safe_cmnd_strdup (with_canon_path canon W)) with (safe_cmnd_strdup W).
  unfold bind, gets. cbn beta.
  destruct (close_fd fd st) as [[] st1]. cbn beta iota.
  destruct (negb (String.eqb (user_base (sudo_user st1)) (sudo_basename cp)));
    [apply IH|]. cbn beta.
  assert (Hdir : canon_dir_ok (with_canon_path canon W) "" st1
                 = canon_dir_ok W "" st1).
  { unfold canon_dir_ok, canon_path. cbn. rewrite Hcanon. reflexivity. }
  rewrite Hdir.
  destruct (negb (canon_dir_ok W "" st1)); [apply IH|]. cbn beta.
  destruct (open_cmnd W cp digests (-1) st1) as [[ok fd1] st2].
  cbn beta iota.
  destruct (negb ok); [apply IH|]. cbn beta.
  destruct (do_stat W fd1 cp st2) as [sb|]; [|apply IH]. cbn beta.
  destruct (negb (intercept_ok cp icpt sb st2)); [apply IH|]. cbn beta.
  destruct (same_inode (user_stat (sudo_user st2)) sb); [|apply IH].
  cbn beta.
  destruct (negb (digest_matches W fd1 cp digests st2)); [apply IH|].
  reflexivity.
Qed.

Lemma glob_base_canon_path_witness :
  let W := Demo.world true in
  let st := Demo.ls_l in
  user_cmnd_dir (sudo_user st) = Some "/bin"
  /\ Cases.canon_elsewhere (view_of st) "/bin" <> w_canon_path W (view_of st) "/bin"
  /\ glob_base (with_canon_path Cases.canon_elsewhere W) ["/bin/ls"] (-1) (-1)
       false [] st
     = glob_base W ["/bin/ls"] (-1) (-1) false [] st
  /\ fst (glob_base W ["/bin/ls"] (-1) (-1) false [] st)
     = GlobDone (Some "/bin/ls") (-1).
Proof.
  split; [reflexivity|]. split; [discriminate|]. split; [|reflexivity].
  apply (glob_base_canon_path (Demo.world true) Cases.canon_elsewhere (-1)
           false [] ["/bin/ls"]).
  - reflexivity.
  - repeat constructor; discriminate.
Defined.

(** * safe_cmnd when the match is rejected *)

Lemma cm_dispatch_rejected (W : World) (mode : match_mode)
    (cmnd args : option string) (rootfd : Z) (icpt : bool)
    (digests : list command_digest) (st : proc) :
  wp (cm_dispatch W mode cmnd args rootfd icpt digests)
     (fun matched st' =>
        matched = false ->
        reject_post W mode cmnd args icpt digests st st st') st.
Proof.
  unfold cm_dispatch, reject_post.
  destruct cmnd as [c|].
  2:{ eapply (wp_frame safe_cmnd); [solve [eauto with frame]|]. auto. }
  destruct (Ascii.eqb (CStr.head c) "^").
  { eapply (wp_frame safe_cmnd); [solve [eauto with frame]|]. auto. }
  destruct (Ascii.eqb (CStr.head c) "/") eqn:Eslash; cbn [negb].
  2:{ wp_walk; auto. }
  apply Ascii.eqb_eq in Eslash.
  destruct (has_meta c) eqn:Emeta.
  - apply wp_bind, wp_gets.
    destruct (def_fast_glob (defs st)) eqn:Efast.
    { eapply (wp_frame safe_cmnd); [solve [eauto with frame]|]. auto. }
    unfold command_matches_glob. destruct mode.
    + eapply wp_mono; [|apply command_matches_glob_inode_run].
      cbn beta. intros matched st' [_ H] Hm.
      destruct (H Hm) as [H1|(cp & fd & st2 & Hf & [[Hd Hs]|(Hd & Ha & Hs)])];
        [left; exact H1| |].
      * right. left. exists c, cp. rewrite Emeta. eauto 10.
      * right. right. repeat split; auto. exists c, cp. eauto 10.
    + eapply (wp_frame safe_cmnd); [solve [eauto with frame]|]. auto.
  - unfold command_matches_normal.
    destruct (ascii_dec (CStr.last c) "/") as [Hl|Hl].
    { apply Ascii.eqb_eq in Hl. destruct mode.
      - unfold command_matches_normal_inode. rewrite Hl.
        eapply wp_mono;
          [|apply (command_matches_dir_inode_keeps W (safe_cmnd st));
            reflexivity].
        cbn beta. auto.
      - unfold command_matches_normal_name. rewrite Hl.
        eapply (wp_frame safe_cmnd); [solve [eauto with frame]|]. auto. }
    destruct mode.
    + eapply wp_mono; [|apply command_matches_normal_inode_run; exact Hl].
      cbn beta. intros matched st' [_ H] Hm.
      destruct (H Hm) as [H1|(Hp & Hd & Hs)]; [left; exact H1|].
      right. left. exists c, c. rewrite Emeta. auto 10.
    + eapply wp_mono; [|apply command_matches_normal_name_run; exact Hl].
      cbn beta. intros matched st' [_ H] Hm.
      destruct (H Hm) as [H1|(Hp & Hd & Hs)]; [left; exact H1|].
      right. left. exists c, c. rewrite Emeta. auto 10.
Qed.

Lemma command_matches_rejected (W : World) (mode : match_mode)
    (sudoers_cmnd sudoers_args runchroot : option string)
    (info : option cmnd_info) (digests : list command_digest) (st : proc) :
  wp (command_matches W mode sudoers_cmnd sudoers_args runchroot info digests)
     (fun r st' =>
        fst r = false ->
        reject_post W mode sudoers_cmnd sudoers_args
          match info with Some i => intercepted i | None => false end
          digests st (dispatch_state W runchroot info st) st') st.
Proof.
  unfold command_matches.
  set (icpt := match info with Some i => intercepted i | None => false end).
  apply wp_bind. unfold wp at 1.
  change (snd (cm_enter W runchroot info st))
    with (dispatch_state W runchroot info st).
  set (st1 := dispatch_state W runchroot info st).
  assert (Hs1 : safe_cmnd st1 = safe_cmnd st)
    by (apply (cm_enter_preserves W safe_cmnd); eauto with frame).
  assert (Ha1 : forall c, command_args_match W c sudoers_args st1
                          = command_args_match W c sudoers_args st)
    by (intros c; apply dispatch_state_args).
  assert (Hd1 : defs st1 = defs st) by apply dispatch_state_defs.
  destruct (fst (cm_enter W runchroot info st)) as [entered l].
  apply wp_bind.
  eapply wp_mono with
    (Q := fun rc st2 => rc = false ->
            reject_post W mode sudoers_cmnd sudoers_args icpt digests st1 st1 st2).
  2:{ destruct entered;
        [apply cm_dispatch_rejected|apply wp_ret; left; reflexivity]. }
  intros rc st2 H2.
  unfold wp. cbn beta. rewrite cm_done_verdict.
  intros Hrc. unfold reject_post in *.
  pose proof (cm_done_preserves safe_cmnd
                ltac:(intros ? ?; reflexivity) ltac:(intros ? ?; reflexivity)
                (l_runchroot l) (l_pivot_fds l) (l_saved l) (l_info l) rc st2)
    as Hdone.
  set (st' := snd (cm_done (l_runchroot l) (l_pivot_fds l) (l_saved l)
                     (l_info l) rc st2)) in *.
  destruct (H2 Hrc)
    as [H|[(c & path & Hc & Hh & Hd & Hs & Hrest)
          |(Hm & Hf & pattern & cp & Hc & Hh & Hmeta & Ham & Hd & Hs & Hg)]].
  - left. congruence.
  - right. left. exists c, path. rewrite Hdone, <- Hd1. auto 10.
  - right. right. rewrite <- Hd1. split; [exact Hm|]. split; [exact Hf|].
    exists pattern, cp. rewrite Hdone, <- Ha1. auto 10.
Qed.

(** C1 as stated fails: the rule [/bin/l*] with the no-arguments token,
    against [ls -l], is rejected by the argument matcher after the glob
    strategy has replaced the published /usr/bin/id by /bin/ls. *)
Lemma safe_cmnd_replaced_on_reject :
  let r := command_matches (Demo.world true) InodeMatch (Some "/bin/l*")
             (Some empty_args_token) None None [] Demo.ls_l_published in
  fst (fst r) = false
  /\ safe_cmnd Demo.ls_l_published = Some "/usr/bin/id"
  /\ safe_cmnd (snd r) = Some "/bin/ls".
Proof. vm_compute. repeat split. Qed.

(** C1, as amended.  When [command_matches] returns false, [safe_cmnd] is
    unchanged, with two exceptions.  (a) [safe_cmnd] was freed and the
    copy of the matched path could not be allocated, which leaves it
    null: the path is the rule's command, after it passed the checks of
    the normal strategy, or an entry of the expansion of the rule's
    command, after it passed the checks of the glob strategy.  (b) In the
    inode build, for a rule command that starts with a slash and has meta
    characters while [fast_glob] is off (the glob strategy), an entry of
    the expansion passed the stat, setid, inode and digest checks and
    was copied into [safe_cmnd], and then the argument matcher rejected
    the user's arguments.  An entry of the expansion is here one that
    glob(3) returned for the rule's command and that is the user's
    command or has its base name; its checks were made on the descriptor
    and in the process that [open_cmnd] on this entry left, called in the
    process the strategy was entered with. *)
Theorem safe_cmnd_after_reject (W : World) (mode : match_mode)
    (sudoers_cmnd sudoers_args runchroot : option string)
    (info : option cmnd_info) (digests : list command_digest) (st : proc) :
  fst (fst (command_matches W mode sudoers_cmnd sudoers_args runchroot info
              digests st)) = false ->
  let st' := snd (command_matches W mode sudoers_cmnd sudoers_args runchroot
                    info digests st) in
  let icpt := match info with Some i => intercepted i | None => false end in
  let sd := dispatch_state W runchroot info st in
  let found_by_glob pattern cp :=
    exists pathv fd st2,
      w_glob W (view_of sd) pattern = Some pathv
      /\ In cp pathv
      /\ (cp = user_cmnd (sudo_user sd)
          \/ user_base (sudo_user sd) = sudo_basename cp)
      /\ opened W digests sd cp fd st2
      /\ checked W icpt digests cp fd st2 in
  safe_cmnd st' = safe_cmnd st
  \/ (exists c path,
        sudoers_cmnd = Some c /\ CStr.head c = "/"%char
        /\ w_strdup W path = false /\ safe_cmnd st' = None
        /\ if has_meta c
           then mode = InodeMatch /\ def_fast_glob (defs st) = false
                /\ found_by_glob c path
           else path = c
                /\ normal_passed W mode c sudoers_args icpt digests sd)
  \/ (mode = InodeMatch
      /\ def_fast_glob (defs st) = false
      /\ exists pattern cp,
           sudoers_cmnd = Some pattern
           /\ CStr.head pattern = "/"%char
           /\ has_meta pattern = true
           /\ command_args_match W pattern sudoers_args st = false
           /\ w_strdup W cp = true
           /\ safe_cmnd st' = Some cp
           /\ found_by_glob pattern cp).
Proof.
  intros Hrej. cbn zeta.
  pose proof (wp_run _ _ _ (command_matches_rejected W mode sudoers_cmnd
                              sudoers_args runchroot info digests st) Hrej)
    as [H|[(c & path & Hc & Hh & Hd & Hs & H)
          |(Hm & Hf & pattern & cp & Hc & Hh & Hmeta & Ha & Hd & Hs
            & fd & st2 & pathv & Hg & Hin & Hn & Ho & Hck)]].
  - left. exact H.
  - right. left. exists c, path.
    split; [exact Hc|]. split; [exact Hh|]. split; [exact Hd|].
    split; [exact Hs|].
    destruct (has_meta c); [|exact H].
    destruct H as (Hm & Hf & fd & st2 & pathv & Hg & Hin & Hn & Ho & Hck).
    split; [exact Hm|]. split; [exact Hf|]. exists pathv, fd, st2. auto.
  - right. right. split; [exact Hm|]. split; [exact Hf|].
    exists pattern, cp. repeat (split; [assumption|]).
    exists pathv, fd, st2. auto.
Qed.

Lemma safe_cmnd_after_reject_witness :
  let W := Demo.world true in
  let st := Cases.ls_fdexec_published in
  let st' := snd (command_matches W InodeMatch (Some "/bin/l*")
                    (Some empty_args_token) None None [] st) in
  let sd := dispatch_state W None None st in
  let found_by_glob pattern cp :=
    exists pathv fd st2,
      w_glob W (view_of sd) pattern = Some pathv
      /\ In cp pathv
      /\ (cp = user_cmnd (sudo_user sd)
          \/ user_base (sudo_user sd) = sudo_basename cp)
      /\ opened W [] sd cp fd st2
      /\ checked W false [] cp fd st2 in
  safe_cmnd st' = safe_cmnd st
  \/ (exists c path,
        Some "/bin/l*" = Some c /\ CStr.head c = "/"%char
        /\ w_strdup W path = false /\ safe_cmnd st' = None
        /\ if has_meta c
           then InodeMatch = InodeMatch /\ def_fast_glob (defs st) = false
                /\ found_by_glob c path
           else path = c
                /\ normal_passed W InodeMatch c (Some empty_args_token) false
                     [] sd)
  \/ (InodeMatch = InodeMatch
      /\ def_fast_glob (defs st) = false
      /\ exists pattern cp,
           Some "/bin/l*" = Some pattern
           /\ CStr.head pattern = "/"%char
           /\ has_meta pattern = true
           /\ command_args_match W pattern (Some empty_args_token) st = false
           /\ w_strdup W cp = true
           /\ safe_cmnd st' = Some cp
           /\ found_by_glob pattern cp).
Proof.
  apply (safe_cmnd_after_reject (Demo.world true) InodeMatch (Some "/bin/l*")
           (Some empty_args_token) None None [] Cases.ls_fdexec_published).
  vm_compute. reflexivity.
Defined.

